(** * Grid: the windowing and scroll-offset engine of [src/Grid.tsx]

    A shallow embedding of the numeric part of the [Grid] component: the
    size and offset tables, the sticky tables, window resolution
    ([setOffset] and its animation-frame callback), the offset controller
    ([scroll]), the wheel and touch adapters, and the cells a render
    builds with the place each one takes.  The elements [children]
    returns and listener attachment are not modelled.  Every handler
    takes the props as an argument and the refs as a state it returns
    updated; timers and animation frames are events the environment
    delivers.

    JavaScript numbers are modelled as exact rationals extended with one
    non-finite value standing for both [undefined] and [NaN] (the two
    behave alike in every arithmetic operation and comparison the
    component performs).  Rounding and the infinities are not modelled,
    which bounds what the properties say of the program in two places.
    The program rounds every sum to a double: sums of whole numbers up to
    [2 ^ 53] are exact, and a property that rests on the exact value of
    a sum is stated over such sizes ([wholeSizes]); the others use only
    that sums of sizes that are not negative do not decrease, which
    rounding keeps.  The program divides once, in [onTouchEnd], and a
    divisor [0] there (a touch end at the time stamp of the last move)
    gives an infinite speed when the last displacement is not [0]: that
    gesture is outside the model, and the properties of the decay are
    stated over finite speeds. *)

From Stdlib Require Import ZArith QArith Qminmax Qabs List Bool Lia Lqa.
From Stdlib Require Import Sorted Permutation Qround.
Import ListNotations.
Local Open Scope Z_scope.

(** ** JavaScript numbers and arrays *)

Module JS.

Definition num : Type := option Q.

Definition NaN : num := None.
Definition fin (q : Q) : num := Some q.
Definition int (z : Z) : num := Some (inject_Z z).

Definition lift2 (f : Q -> Q -> Q) (a b : num) : num :=
  match a, b with
  | Some x, Some y => Some (f x y)
  | _, _ => None
  end.

Definition add : num -> num -> num := lift2 Qplus.
Definition sub : num -> num -> num := lift2 Qminus.
Definition mul : num -> num -> num := lift2 Qmult.
Definition neg (a : num) : num := option_map Qopp a.
Definition abs (a : num) : num := option_map Qabs a.

(** A quotient by zero is sent to the non-finite value.  That is the
    program's [0 / 0]; a dividend other than [0] gives an infinity in
    the program, which the model has no value for. *)
Definition div (a b : num) : num :=
  match a, b with
  | Some x, Some y => if Qeq_bool y 0 then None else Some (x / y)%Q
  | _, _ => None
  end.

(** [Math.min] and [Math.max]: not finite as soon as one argument is. *)
Definition min : num -> num -> num := lift2 Qmin.
Definition max : num -> num -> num := lift2 Qmax.

(** Comparisons are false as soon as one side is not finite. *)
Definition cmp (f : Q -> Q -> bool) (a b : num) : bool :=
  match a, b with
  | Some x, Some y => f x y
  | _, _ => false
  end.

Definition Qlt_bool (x y : Q) : bool := negb (Qle_bool y x).

Definition lt : num -> num -> bool := cmp Qlt_bool.
Definition le : num -> num -> bool := cmp Qle_bool.
Definition gt (a b : num) : bool := lt b a.
Definition ge (a b : num) : bool := le b a.
(** [a === b] and [a !== b] on numbers. *)
Definition eqs : num -> num -> bool := cmp Qeq_bool.
Definition neqs (a b : num) : bool := negb (eqs a b).

(** [a || 0] on a number: [undefined], [NaN] and [0] give [0]. *)
Definition orZero (a : num) : num :=
  match a with
  | Some x => if Qeq_bool x 0 then fin 0 else a
  | None => fin 0
  end.

(** [arr[i]]: [undefined] out of range. *)
Definition get (arr : list num) (i : Z) : num :=
  if i <? 0 then None
  else match nth_error arr (Z.to_nat i) with
       | Some v => v
       | None => None
       end.

(** [arr.findIndex(p)]: the first index whose element satisfies [p],
    [-1] when there is none. *)
Fixpoint findIndexFrom {A : Type} (p : A -> bool) (arr : list A) (i : Z) : Z :=
  match arr with
  | [] => -1
  | x :: rest => if p x then i else findIndexFrom p rest (i + 1)
  end.

Definition findIndex {A : Type} (p : A -> bool) (arr : list A) : Z :=
  findIndexFrom p arr 0.

(** [arr.filter((x, i) => p(x, i))]. *)
Fixpoint filterIndexedFrom {A : Type} (p : A -> Z -> bool) (arr : list A) (i : Z)
  : list A :=
  match arr with
  | [] => []
  | x :: rest =>
      if p x i then x :: filterIndexedFrom p rest (i + 1)
      else filterIndexedFrom p rest (i + 1)
  end.

Definition filterIndexed {A : Type} (p : A -> Z -> bool) (arr : list A) : list A :=
  filterIndexedFrom p arr 0.

(** [[...arr].sort((a, b) => a - b)] on integers: the ascending
    rearrangement of [arr]. *)
Fixpoint insertSorted (a : Z) (sorted : list Z) : list Z :=
  match sorted with
  | [] => [a]
  | b :: rest => if a <=? b then a :: sorted else b :: insertSorted a rest
  end.

Definition sortAscending (arr : list Z) : list Z :=
  fold_right insertSorted [] arr.

(** Numeric equality of two values, the relation [===] decides on finite
    numbers. *)
Definition equiv (a b : num) : Prop :=
  match a, b with
  | Some x, Some y => (x == y)%Q
  | None, None => True
  | _, _ => False
  end.

End JS.

Declare Scope js_scope.
Delimit Scope js_scope with js.
Notation "a + b" := (JS.add a b) : js_scope.
Notation "a - b" := (JS.sub a b) : js_scope.
Notation "a * b" := (JS.mul a b) : js_scope.
Notation "a / b" := (JS.div a b) : js_scope.
Notation "- a" := (JS.neg a) : js_scope.
Notation "a <? b" := (JS.lt a b) : js_scope.
Notation "a <=? b" := (JS.le a b) : js_scope.
Notation "a >? b" := (JS.gt a b) : js_scope.
Notation "a >=? b" := (JS.ge a b) : js_scope.
Notation "a === b" := (JS.eqs a b) (at level 70, no associativity) : js_scope.
Notation "a !== b" := (JS.neqs a b) (at level 70, no associativity) : js_scope.
Notation "arr .[ i ]" := (JS.get arr i) (at level 1, left associativity, format "arr .[ i ]") : js_scope.

(** ** Geometry tables *)

Module Geometry.
Import JS.

(** [type ItemSize = number | ((index: number) => number)] *)
Inductive ItemSize : Type :=
| Fixed (size : num)
| PerIndex (f : Z -> num).

(** [calculateSizes]: [Array(count).fill(itemSize)] for a fixed size,
    [Array(count).fill(0).map((_, i) => itemSize(i))] otherwise. *)
Definition calculateSizes (itemSize : ItemSize) (count : nat) : list num :=
  match itemSize with
  | Fixed size => repeat size count
  | PerIndex f => map (fun i => f (Z.of_nat i)) (seq 0 count)
  end.

(** The body of the [for] loop of [calculateOffsets], run [n] times from
    index [i]: [offsets.push(offsets[i] + itemSizes[i])]. *)
Fixpoint offsetsLoop (n : nat) (itemSizes : list num) (i : Z) (offsets : list num)
  : list num :=
  match n with
  | O => offsets
  | S n' =>
      offsetsLoop n' itemSizes (i + 1)
        (offsets ++ [(offsets.[i] + itemSizes.[i])%js])
  end.

(** [calculateOffsets]: the loop runs for [i = 0 .. length - 2]. *)
Definition calculateOffsets (itemSizes : list num) : list num :=
  let offsets := if (length itemSizes =? 0)%nat then [] else [fin 0] in
  offsetsLoop (length itemSizes - 1) itemSizes 0 offsets.

(** Sizes as the specification asks for them: finite and not negative. *)
Definition nonNegativeSizes (sizes : list num) : Prop :=
  Forall (fun v => exists q : Q, v = fin q /\ (0 <= q)%Q) sizes.

(** Sizes in whole pixels whose total stays within the integers a double
    holds exactly ([2 ^ 53]): on such sizes every sum and difference the
    component computes is exact, and the exact arithmetic of this model
    is the arithmetic of the program. *)
Definition wholeSizes (sizes : list num) : Prop :=
  Forall (fun v => exists z : Z, v = int z /\ 0 <= z) sizes
  /\ exists total : Q,
       fold_left add sizes (fin 0) = fin total /\ (total <= inject_Z (2 ^ 53))%Q.

(** The sum of [sizes[0 .. i-1]], added left to right from [0]. *)
Definition sumBefore (sizes : list num) (i : nat) : num :=
  fold_left add (firstn i sizes) (fin 0).

End Geometry.

(** ** The component *)

Module Grid.
Import JS Geometry.

Definition DEFAULT_ROW_HEIGHT : num := int 40.
Definition DEFAULT_COL_WIDTH : num := int 80.
Definition DEFAULT_SCROLL_SPEED : num := int 1.
Definition DEFAULT_RENDER_BATCH_SIZE : Z := 5.

Record Point : Type := { x : num; y : num }.
Record Size : Type := { width : num; height : num }.
Record RenderWindow : Type :=
  { fromRow : Z; toRow : Z; fromCol : Z; toCol : Z }.
Record Index2 : Type := { row : Z; col : Z }.

(** [interface TouchInfo]; [pid] is the handle of the decay interval. *)
Record TouchInfo : Type :=
  { touchT : num; touchX : num; touchDx : num;
    touchY : num; touchDy : num; pid : option nat }.

(** The props the engine reads.  [onScrollStop] records whether the
    callback is given. *)
Record Props {Cell : Type} : Type :=
  { rows : list (list Cell);
    rowHeight : ItemSize;
    colWidth : ItemSize;
    stickyRows : list Z;
    stickyCols : list Z;
    initOffset : Point;
    scrollSpeed : num;
    renderBatchSize : Z;
    onScrollStop : bool }.
Arguments Props : clear implicits.

Definition defaultProps {Cell : Type} (rows : list (list Cell)) : Props Cell :=
  {| rows := rows;
     rowHeight := Fixed DEFAULT_ROW_HEIGHT;
     colWidth := Fixed DEFAULT_COL_WIDTH;
     stickyRows := [];
     stickyCols := [];
     initOffset := {| x := int 0; y := int 0 |};
     scrollSpeed := DEFAULT_SCROLL_SPEED;
     renderBatchSize := DEFAULT_RENDER_BATCH_SIZE;
     onScrollStop := false |}.

(** What the animation-frame callback scheduled by [setOffset] closes
    over. *)
Record Frame : Type :=
  { frameOffset : Point;
    frameVisibleFrom : Index2;
    frameVisibleTo : Index2;
    frameWindow : RenderWindow;       (* fromRow, toRow, fromCol, toCol *)
    frameStuckRows : list Z;
    frameStuckCols : list Z;
    frameRenderWindow : RenderWindow  (* the captured renderWindow object *) }.

(** The style transforms the frame callback writes to the three
    containers. *)
Record Transforms : Type :=
  { cellsTransform : Point; stickyRowsTranslateX : num; stickyColsTranslateY : num }.

Inductive LogEntry : Type :=
| ProblemY (translateY : num) (visibleFromRow visibleToRow : Z)
| ProblemX (translateX : num) (visibleFromCol visibleToCol : Z).

(** Which of the container elements the refs hold. *)
Record Elements : Type :=
  { rootElmnt : bool; cellsElmnt : bool;
    stickyRowsElmnt : bool; stickyColsElmnt : bool }.

(** Refs that hold [null]. *)
Definition detached : Elements :=
  {| rootElmnt := false; cellsElmnt := false;
     stickyRowsElmnt := false; stickyColsElmnt := false |}.

(** The refs of the component, followed by what lives outside them.
    [rafPidRef] holds the pending frame ([None] for the id [0]) and
    [scrollPidRef] tells whether a scroll-stop timeout has been set.
    [elements] says which container elements the handlers of [scroll]
    hold: the effect that registers them reads the refs once they are
    attached and keeps the elements.  [observerRefs] says what the refs
    of the first render hold: each render makes its refs anew with
    [createRef], the [ResizeObserver] is set up once and keeps the
    [reflow] of the first render, and the refs that [reflow] reads are
    cleared when the next render attaches its own.
    [renderedWindowSize] is the viewport size the last render saw: a
    render computes [maxOffset] from it, and [scroll] uses that
    [maxOffset] until the next render.  [intervals] lists the running
    decay intervals with the speeds each closes over. *)
Record State : Type :=
  { renderWindowRef : RenderWindow;
    rowsTranslateRef : Point;
    offsetRef : Point;
    rafPidRef : option Frame;
    scrollPidRef : bool;
    touchInfoRef : TouchInfo;
    windowSizeRef : Size;
    renderFlag : bool;
    stuckRowsRef : list Z;
    stuckColsRef : list Z;
    elements : Elements;
    observerRefs : Elements;
    renderedWindowSize : Size;
    intervals : list (nat * (num * num));
    nextPid : nat;
    transforms : Transforms;
    console : list LogEntry }.

Definition initialState {Cell : Type} (P : Props Cell) (els : Elements) : State :=
  {| renderWindowRef := {| fromRow := 0; toRow := 0; fromCol := 0; toCol := 0 |};
     rowsTranslateRef := {| x := int 0; y := int 0 |};
     offsetRef := initOffset P;
     rafPidRef := None;
     scrollPidRef := false;
     touchInfoRef := {| touchT := int 0; touchX := int 0; touchDx := int 0;
                        touchY := int 0; touchDy := int 0; pid := None |};
     windowSizeRef := {| width := int 0; height := int 0 |};
     renderFlag := false;
     stuckRowsRef := [];
     stuckColsRef := [];
     elements := els;
     observerRefs := els;
     renderedWindowSize := {| width := int 0; height := int 0 |};
     intervals := [];
     nextPid := 1%nat;
     transforms := {| cellsTransform := {| x := int 0; y := int 0 |};
                      stickyRowsTranslateX := int 0;
                      stickyColsTranslateY := int 0 |};
     console := [] |}.

(** *** Values derived on each render *)

Section Derived.
Context {Cell : Type} (P : Props Cell).

Definition numRows : nat := length (rows P).
Definition numCols : nat :=
  fold_left (fun max row => Nat.max max (length row)) (rows P) 0%nat.

Definition rowHeights : list num := calculateSizes (rowHeight P) numRows.
Definition rowOffsets : list num := calculateOffsets rowHeights.
Definition colWidths : list num := calculateSizes (colWidth P) numCols.
Definition colOffsets : list num := calculateOffsets colWidths.

Definition totalSize : Size :=
  {| width :=
       if (numCols =? 0)%nat then int 0
       else (colOffsets.[Z.of_nat numCols - 1] + colWidths.[Z.of_nat numCols - 1])%js;
     height :=
       if (numRows =? 0)%nat then int 0
       else (rowOffsets.[Z.of_nat numRows - 1] + rowHeights.[Z.of_nat numRows - 1])%js |}.

(** [maxOffset], from the viewport size the render saw. *)
Definition maxOffset (windowSize : Size) : Point :=
  {| x := (width totalSize - width windowSize)%js;
     y := (height totalSize - height windowSize)%js |}.

Definition sortedStickyRows : list Z := sortAscending (stickyRows P).
Definition stickyRowOffsets : list num :=
  calculateOffsets (map (fun r => rowHeights.[r]%js) sortedStickyRows).

Definition sortedStickyCols : list Z := sortAscending (stickyCols P).
Definition stickyColOffsets : list num :=
  calculateOffsets (map (fun c => colWidths.[c]%js) sortedStickyCols).
End Derived.

(** *** Assignments to the refs *)

Definition set_renderWindowRef (v : RenderWindow) (s : State) : State :=
  {| renderWindowRef := v;
     rowsTranslateRef := rowsTranslateRef s;
     offsetRef := offsetRef s;
     rafPidRef := rafPidRef s;
     scrollPidRef := scrollPidRef s;
     touchInfoRef := touchInfoRef s;
     windowSizeRef := windowSizeRef s;
     renderFlag := renderFlag s;
     stuckRowsRef := stuckRowsRef s;
     stuckColsRef := stuckColsRef s;
     elements := elements s;
     observerRefs := observerRefs s;
     renderedWindowSize := renderedWindowSize s;
     intervals := intervals s;
     nextPid := nextPid s;
     transforms := transforms s;
     console := console s |}.

Definition set_rowsTranslateRef (v : Point) (s : State) : State :=
  {| renderWindowRef := renderWindowRef s;
     rowsTranslateRef := v;
     offsetRef := offsetRef s;
     rafPidRef := rafPidRef s;
     scrollPidRef := scrollPidRef s;
     touchInfoRef := touchInfoRef s;
     windowSizeRef := windowSizeRef s;
     renderFlag := renderFlag s;
     stuckRowsRef := stuckRowsRef s;
     stuckColsRef := stuckColsRef s;
     elements := elements s;
     observerRefs := observerRefs s;
     renderedWindowSize := renderedWindowSize s;
     intervals := intervals s;
     nextPid := nextPid s;
     transforms := transforms s;
     console := console s |}.

Definition set_offsetRef (v : Point) (s : State) : State :=
  {| renderWindowRef := renderWindowRef s;
     rowsTranslateRef := rowsTranslateRef s;
     offsetRef := v;
     rafPidRef := rafPidRef s;
     scrollPidRef := scrollPidRef s;
     touchInfoRef := touchInfoRef s;
     windowSizeRef := windowSizeRef s;
     renderFlag := renderFlag s;
     stuckRowsRef := stuckRowsRef s;
     stuckColsRef := stuckColsRef s;
     elements := elements s;
     observerRefs := observerRefs s;
     renderedWindowSize := renderedWindowSize s;
     intervals := intervals s;
     nextPid := nextPid s;
     transforms := transforms s;
     console := console s |}.

Definition set_rafPidRef (v : option Frame) (s : State) : State :=
  {| renderWindowRef := renderWindowRef s;
     rowsTranslateRef := rowsTranslateRef s;
     offsetRef := offsetRef s;
     rafPidRef := v;
     scrollPidRef := scrollPidRef s;
     touchInfoRef := touchInfoRef s;
     windowSizeRef := windowSizeRef s;
     renderFlag := renderFlag s;
     stuckRowsRef := stuckRowsRef s;
     stuckColsRef := stuckColsRef s;
     elements := elements s;
     observerRefs := observerRefs s;
     renderedWindowSize := renderedWindowSize s;
     intervals := intervals s;
     nextPid := nextPid s;
     transforms := transforms s;
     console := console s |}.

Definition set_scrollPidRef (v : bool) (s : State) : State :=
  {| renderWindowRef := renderWindowRef s;
     rowsTranslateRef := rowsTranslateRef s;
     offsetRef := offsetRef s;
     rafPidRef := rafPidRef s;
     scrollPidRef := v;
     touchInfoRef := touchInfoRef s;
     windowSizeRef := windowSizeRef s;
     renderFlag := renderFlag s;
     stuckRowsRef := stuckRowsRef s;
     stuckColsRef := stuckColsRef s;
     elements := elements s;
     observerRefs := observerRefs s;
     renderedWindowSize := renderedWindowSize s;
     intervals := intervals s;
     nextPid := nextPid s;
     transforms := transforms s;
     console := console s |}.

Definition set_touchInfoRef (v : TouchInfo) (s : State) : State :=
  {| renderWindowRef := renderWindowRef s;
     rowsTranslateRef := rowsTranslateRef s;
     offsetRef := offsetRef s;
     rafPidRef := rafPidRef s;
     scrollPidRef := scrollPidRef s;
     touchInfoRef := v;
     windowSizeRef := windowSizeRef s;
     renderFlag := renderFlag s;
     stuckRowsRef := stuckRowsRef s;
     stuckColsRef := stuckColsRef s;
     elements := elements s;
     observerRefs := observerRefs s;
     renderedWindowSize := renderedWindowSize s;
     intervals := intervals s;
     nextPid := nextPid s;
     transforms := transforms s;
     console := console s |}.

Definition set_windowSizeRef (v : Size) (s : State) : State :=
  {| renderWindowRef := renderWindowRef s;
     rowsTranslateRef := rowsTranslateRef s;
     offsetRef := offsetRef s;
     rafPidRef := rafPidRef s;
     scrollPidRef := scrollPidRef s;
     touchInfoRef := touchInfoRef s;
     windowSizeRef := v;
     renderFlag := renderFlag s;
     stuckRowsRef := stuckRowsRef s;
     stuckColsRef := stuckColsRef s;
     elements := elements s;
     observerRefs := observerRefs s;
     renderedWindowSize := renderedWindowSize s;
     intervals := intervals s;
     nextPid := nextPid s;
     transforms := transforms s;
     console := console s |}.

Definition set_renderFlag (v : bool) (s : State) : State :=
  {| renderWindowRef := renderWindowRef s;
     rowsTranslateRef := rowsTranslateRef s;
     offsetRef := offsetRef s;
     rafPidRef := rafPidRef s;
     scrollPidRef := scrollPidRef s;
     touchInfoRef := touchInfoRef s;
     windowSizeRef := windowSizeRef s;
     renderFlag := v;
     stuckRowsRef := stuckRowsRef s;
     stuckColsRef := stuckColsRef s;
     elements := elements s;
     observerRefs := observerRefs s;
     renderedWindowSize := renderedWindowSize s;
     intervals := intervals s;
     nextPid := nextPid s;
     transforms := transforms s;
     console := console s |}.

Definition set_stuckRowsRef (v : list Z) (s : State) : State :=
  {| renderWindowRef := renderWindowRef s;
     rowsTranslateRef := rowsTranslateRef s;
     offsetRef := offsetRef s;
     rafPidRef := rafPidRef s;
     scrollPidRef := scrollPidRef s;
     touchInfoRef := touchInfoRef s;
     windowSizeRef := windowSizeRef s;
     renderFlag := renderFlag s;
     stuckRowsRef := v;
     stuckColsRef := stuckColsRef s;
     elements := elements s;
     observerRefs := observerRefs s;
     renderedWindowSize := renderedWindowSize s;
     intervals := intervals s;
     nextPid := nextPid s;
     transforms := transforms s;
     console := console s |}.

Definition set_stuckColsRef (v : list Z) (s : State) : State :=
  {| renderWindowRef := renderWindowRef s;
     rowsTranslateRef := rowsTranslateRef s;
     offsetRef := offsetRef s;
     rafPidRef := rafPidRef s;
     scrollPidRef := scrollPidRef s;
     touchInfoRef := touchInfoRef s;
     windowSizeRef := windowSizeRef s;
     renderFlag := renderFlag s;
     stuckRowsRef := stuckRowsRef s;
     stuckColsRef := v;
     elements := elements s;
     observerRefs := observerRefs s;
     renderedWindowSize := renderedWindowSize s;
     intervals := intervals s;
     nextPid := nextPid s;
     transforms := transforms s;
     console := console s |}.

Definition set_renderedWindowSize (v : Size) (s : State) : State :=
  {| renderWindowRef := renderWindowRef s;
     rowsTranslateRef := rowsTranslateRef s;
     offsetRef := offsetRef s;
     rafPidRef := rafPidRef s;
     scrollPidRef := scrollPidRef s;
     touchInfoRef := touchInfoRef s;
     windowSizeRef := windowSizeRef s;
     renderFlag := renderFlag s;
     stuckRowsRef := stuckRowsRef s;
     stuckColsRef := stuckColsRef s;
     elements := elements s;
     observerRefs := observerRefs s;
     renderedWindowSize := v;
     intervals := intervals s;
     nextPid := nextPid s;
     transforms := transforms s;
     console := console s |}.

Definition set_observerRefs (v : Elements) (s : State) : State :=
  {| renderWindowRef := renderWindowRef s;
     rowsTranslateRef := rowsTranslateRef s;
     offsetRef := offsetRef s;
     rafPidRef := rafPidRef s;
     scrollPidRef := scrollPidRef s;
     touchInfoRef := touchInfoRef s;
     windowSizeRef := windowSizeRef s;
     renderFlag := renderFlag s;
     stuckRowsRef := stuckRowsRef s;
     stuckColsRef := stuckColsRef s;
     elements := elements s;
     observerRefs := v;
     renderedWindowSize := renderedWindowSize s;
     intervals := intervals s;
     nextPid := nextPid s;
     transforms := transforms s;
     console := console s |}.

Definition set_intervals (v : list (nat * (num * num))) (s : State) : State :=
  {| renderWindowRef := renderWindowRef s;
     rowsTranslateRef := rowsTranslateRef s;
     offsetRef := offsetRef s;
     rafPidRef := rafPidRef s;
     scrollPidRef := scrollPidRef s;
     touchInfoRef := touchInfoRef s;
     windowSizeRef := windowSizeRef s;
     renderFlag := renderFlag s;
     stuckRowsRef := stuckRowsRef s;
     stuckColsRef := stuckColsRef s;
     elements := elements s;
     observerRefs := observerRefs s;
     renderedWindowSize := renderedWindowSize s;
     intervals := v;
     nextPid := nextPid s;
     transforms := transforms s;
     console := console s |}.

Definition set_nextPid (v : nat) (s : State) : State :=
  {| renderWindowRef := renderWindowRef s;
     rowsTranslateRef := rowsTranslateRef s;
     offsetRef := offsetRef s;
     rafPidRef := rafPidRef s;
     scrollPidRef := scrollPidRef s;
     touchInfoRef := touchInfoRef s;
     windowSizeRef := windowSizeRef s;
     renderFlag := renderFlag s;
     stuckRowsRef := stuckRowsRef s;
     stuckColsRef := stuckColsRef s;
     elements := elements s;
     observerRefs := observerRefs s;
     renderedWindowSize := renderedWindowSize s;
     intervals := intervals s;
     nextPid := v;
     transforms := transforms s;
     console := console s |}.

Definition set_transforms (v : Transforms) (s : State) : State :=
  {| renderWindowRef := renderWindowRef s;
     rowsTranslateRef := rowsTranslateRef s;
     offsetRef := offsetRef s;
     rafPidRef := rafPidRef s;
     scrollPidRef := scrollPidRef s;
     touchInfoRef := touchInfoRef s;
     windowSizeRef := windowSizeRef s;
     renderFlag := renderFlag s;
     stuckRowsRef := stuckRowsRef s;
     stuckColsRef := stuckColsRef s;
     elements := elements s;
     observerRefs := observerRefs s;
     renderedWindowSize := renderedWindowSize s;
     intervals := intervals s;
     nextPid := nextPid s;
     transforms := v;
     console := console s |}.

Definition set_console (v : list LogEntry) (s : State) : State :=
  {| renderWindowRef := renderWindowRef s;
     rowsTranslateRef := rowsTranslateRef s;
     offsetRef := offsetRef s;
     rafPidRef := rafPidRef s;
     scrollPidRef := scrollPidRef s;
     touchInfoRef := touchInfoRef s;
     windowSizeRef := windowSizeRef s;
     renderFlag := renderFlag s;
     stuckRowsRef := stuckRowsRef s;
     stuckColsRef := stuckColsRef s;
     elements := elements s;
     observerRefs := observerRefs s;
     renderedWindowSize := renderedWindowSize s;
     intervals := intervals s;
     nextPid := nextPid s;
     transforms := transforms s;
     console := v |}.

(** *** Window resolution *)

(** [same]: equal lengths and equal elements. *)
Definition same (nums1 nums2 : list Z) : bool :=
  if (length nums1 =? length nums2)%nat
  then forallb (fun p => fst p =? snd p) (combine nums1 nums2)
  else false.

(** [while (offsets[v] > o) v -= 1].  The read is [undefined] at [-1],
    so the loop leaves after at most [v + 1] rounds; [fuel] bounds
    them. *)
Fixpoint walkBack (fuel : nat) (offsets : list num) (o : num) (v : Z) : Z :=
  match fuel with
  | O => v
  | S fuel' =>
      if (offsets.[v] >? o)%js then walkBack fuel' offsets o (v - 1) else v
  end.

Definition visibleFromAxis (offsets : list num) (o : num) : Z :=
  walkBack (S (length offsets)) offsets o
    (findIndex (fun off => (off >=? o)%js) offsets).

Definition visibleToAxis (offsets : list num) (count : nat) (o size : num) : Z :=
  let v :=
    if (size === int 0)%js then Z.of_nat count
    else findIndex (fun off => (off >=? o + size)%js) offsets in
  if v =? -1 then Z.of_nat count else v.

(** What the two row [if]s (or the two column [if]s) and the clamping
    of [setOffset] do to one axis: [from] and [to] are the current
    edges, [vFrom] and [vTo] the visible ones. *)
Definition expandAxis (batch count vFrom vTo from to : Z) : Z * Z :=
  let '(from1, to1) := if vFrom <? from then (vFrom - batch, vTo) else (from, to) in
  let '(from2, to2) := if vTo >? to1 then (vFrom, vTo + batch) else (from1, to1) in
  (Z.max from2 0, Z.min to2 count).

Section Handlers.
Context {Cell : Type} (P : Props Cell).

(** The visible range, as [setOffset] computes it from the offset and
    the viewport size. *)
Definition visibleFrom (offset : Point) : Index2 :=
  {| row := visibleFromAxis (rowOffsets P) (y offset);
     col := visibleFromAxis (colOffsets P) (x offset) |}.

Definition visibleTo (windowSize : Size) (offset : Point) : Index2 :=
  {| row := visibleToAxis (rowOffsets P) (numRows P) (y offset) (height windowSize);
     col := visibleToAxis (colOffsets P) (numCols P) (x offset) (width windowSize) |}.

(** The four [if]s and the clamping of [setOffset]: the new window. *)
Definition resolveWindow (windowSize : Size) (renderWindow : RenderWindow)
    (offset : Point) : RenderWindow :=
  let fromRow0 := fromRow renderWindow in
  let toRow0 := toRow renderWindow in
  let fromCol0 := fromCol renderWindow in
  let toCol0 := toCol renderWindow in
  let visibleFrom := visibleFrom offset in
  let visibleTo := visibleTo windowSize offset in
  let '(fromRow1, toRow1) :=
    if row visibleFrom <? fromRow0
    then (row visibleFrom - renderBatchSize P, row visibleTo)
    else (fromRow0, toRow0) in
  let '(fromCol1, toCol1) :=
    if col visibleFrom <? fromCol0
    then (col visibleFrom - renderBatchSize P, col visibleTo)
    else (fromCol0, toCol0) in
  let '(fromRow2, toRow2) :=
    if row visibleTo >? toRow1
    then (row visibleFrom, row visibleTo + renderBatchSize P)
    else (fromRow1, toRow1) in
  let '(fromCol2, toCol2) :=
    if col visibleTo >? toCol1
    then (col visibleFrom, col visibleTo + renderBatchSize P)
    else (fromCol1, toCol1) in
  {| fromRow := Z.max fromRow2 0;
     toRow := Z.min toRow2 (Z.of_nat (length (rowOffsets P)));
     fromCol := Z.max fromCol2 0;
     toCol := Z.min toCol2 (Z.of_nat (length (colOffsets P))) |}.

Definition stuckRowsAt (offsetY : num) : list Z :=
  filterIndexed
    (fun r i => ((rowOffsets P).[r] - (stickyRowOffsets P).[i] <? offsetY)%js)
    (sortedStickyRows P).

Definition stuckColsAt (offsetX : num) : list Z :=
  filterIndexed
    (fun c i => ((colOffsets P).[c] - (stickyColOffsets P).[i] <? offsetX)%js)
    (sortedStickyCols P).

(** [setOffset]: returns whether the offset was taken.  The frame it
    requests replaces a pending one. *)
Definition setOffset (cellsE stickyRowsE stickyColsE : bool) (offset : Point)
    (force : bool) (s : State) : bool * State :=
  if cellsE && stickyRowsE && stickyColsE
     && (force
         || (x (offsetRef s) !== x offset)%js
         || (y (offsetRef s) !== y offset)%js)
  then
    let s1 := set_offsetRef offset s in
    let renderWindow := renderWindowRef s1 in
    let visibleFrom := visibleFrom offset in
    let visibleTo := visibleTo (windowSizeRef s1) offset in
    let window := resolveWindow (windowSizeRef s1) renderWindow offset in
    let stuckRows := stuckRowsAt (y (offsetRef s1)) in
    let stuckCols := stuckColsAt (x (offsetRef s1)) in
    (true,
     set_rafPidRef
       (Some {| frameOffset := offset;
                frameVisibleFrom := visibleFrom;
                frameVisibleTo := visibleTo;
                frameWindow := window;
                frameStuckRows := stuckRows;
                frameStuckCols := stuckCols;
                frameRenderWindow := renderWindow |})
       s1)
  else (false, s).

(** A render of the component after the first: [maxOffset] is recomputed
    from the viewport size of that moment, and the effect re-registers
    [scroll] when it changed.  The render attaches refs of its own, which
    clears those of the first render. *)
Definition render (s : State) : State :=
  set_observerRefs detached (set_renderedWindowSize (windowSizeRef s) s).

(** The callback given to [requestAnimationFrame].  [setRenderFlag] is
    followed by the render it asks for. *)
Definition animationFrame (s : State) : State :=
  match rafPidRef s with
  | None => s
  | Some f =>
      let s := set_rafPidRef None s in
      let offset := frameOffset f in
      let w := frameWindow f in
      let translateY := (- y offset + orZero (rowOffsets P).[fromRow w])%js in
      let s :=
        if (translateY >? int 0)%js
        then set_console
               (console s ++ [ProblemY translateY (row (frameVisibleFrom f))
                                (row (frameVisibleTo f))]) s
        else s in
      let translateX := (- x offset + orZero (colOffsets P).[fromCol w])%js in
      let s :=
        if (translateX >? int 0)%js
        then set_console
               (console s ++ [ProblemX translateX (col (frameVisibleFrom f))
                                (col (frameVisibleTo f))]) s
        else s in
      let stuckRowsHeight :=
        fold_left (fun h r => (h + (rowHeights P).[r])%js) (frameStuckRows f) (int 0) in
      let stuckColsWidth :=
        fold_left (fun w c => (w + (colWidths P).[c])%js) (frameStuckCols f) (int 0) in
      let s :=
        set_transforms
          {| cellsTransform :=
               {| x := (translateX - stuckColsWidth)%js;
                  y := (translateY - stuckRowsHeight)%js |};
             stickyRowsTranslateX := (translateX - stuckColsWidth)%js;
             stickyColsTranslateY := (translateY - stuckRowsHeight)%js |} s in
      let s := set_rowsTranslateRef {| x := translateX; y := translateY |} s in
      if negb (fromRow w =? fromRow (frameRenderWindow f))
         || negb (toRow w =? toRow (frameRenderWindow f))
         || negb (fromCol w =? fromCol (frameRenderWindow f))
         || negb (toCol w =? toCol (frameRenderWindow f))
         || negb (same (frameStuckRows f) (stuckRowsRef s))
         || negb (same (frameStuckCols f) (stuckColsRef s))
      then
        render
          (set_renderFlag (negb (renderFlag s))
             (set_stuckColsRef (frameStuckCols f)
                (set_stuckRowsRef (frameStuckRows f)
                   (set_renderWindowRef w s))))
      else s
  end.

(** [reflow] as the [ResizeObserver] calls it, with the size
    [getBoundingClientRect] measured: the one of the first render, which
    reads the refs of that render. *)
Definition reflow (measuredWidth measuredHeight : num) (s : State) : State :=
  if rootElmnt (observerRefs s) && cellsElmnt (observerRefs s)
  then
    let s := set_windowSizeRef {| width := measuredWidth; height := measuredHeight |} s in
    snd (setOffset (cellsElmnt (observerRefs s)) (stickyRowsElmnt (observerRefs s))
           (stickyColsElmnt (observerRefs s)) (offsetRef s) true s)
  else s.

(** *** The offset controller *)

Definition effectiveDelta (size delta : num) : num :=
  if (size === int 0)%js then int 0 else delta.

(** The [offset] constant of [scroll]. *)
Definition candidateOffset (deltaX deltaY : num) (s : State) : Point :=
  let effectiveDeltaX := effectiveDelta (width (windowSizeRef s)) deltaX in
  let effectiveDeltaY := effectiveDelta (height (windowSizeRef s)) deltaY in
  {| x := min (x (maxOffset P (renderedWindowSize s)))
            (max (int 0) (x (offsetRef s) + effectiveDeltaX * scrollSpeed P)%js);
     y := min (y (maxOffset P (renderedWindowSize s)))
            (max (int 0) (y (offsetRef s) + effectiveDeltaY * scrollSpeed P)%js) |}.

Definition fitsInWindow (s : State) : bool :=
  (width (totalSize P) <=? width (windowSizeRef s))%js
  && (height (totalSize P) <=? height (windowSizeRef s))%js.

(** [scroll]: on an accepted offset the scroll-stop timeout is cleared
    and set again. *)
Definition scroll (deltaX deltaY : num) (s : State) : State :=
  if fitsInWindow s then s
  else
    let offset := candidateOffset deltaX deltaY s in
    let '(accepted, s1) :=
      setOffset (cellsElmnt (elements s)) (stickyRowsElmnt (elements s))
        (stickyColsElmnt (elements s)) offset false s in
    if accepted
    then if onScrollStop P then set_scrollPidRef true s1 else s1
    else s1.

(** Whether a call of [scroll] reaches [setOffset] and has its offset
    taken: the test of the [if] around the scroll-stop timeout. *)
Definition scrollAccepted (deltaX deltaY : num) (s : State) : bool :=
  negb (fitsInWindow s)
  && fst (setOffset (cellsElmnt (elements s)) (stickyRowsElmnt (elements s))
            (stickyColsElmnt (elements s)) (candidateOffset deltaX deltaY s) false s).

(** *** Input adapters *)

Definition onWheel (deltaX deltaY : num) (s : State) : State :=
  scroll deltaX deltaY s.

Definition clearInterval (p : nat) (s : State) : State :=
  set_intervals (filter (fun e => negb (fst e =? p)%nat) (intervals s)) s.

Definition onTouchStart (timeStamp clientX clientY : num) (s : State) : State :=
  let s :=
    match pid (touchInfoRef s) with
    | Some p => clearInterval p s
    | None => s
    end in
  set_touchInfoRef
    {| touchT := timeStamp; touchX := clientX; touchDx := int 0;
       touchY := clientY; touchDy := int 0; pid := None |} s.

Definition onTouchMove (timeStamp clientX clientY : num) (s : State) : State :=
  let dx := (touchX (touchInfoRef s) - clientX)%js in
  let dy := (touchY (touchInfoRef s) - clientY)%js in
  let s := scroll dx dy s in
  set_touchInfoRef
    {| touchT := timeStamp; touchX := clientX; touchDx := dx;
       touchY := clientY; touchDy := dy; pid := None |} s.

(** The speeds the decay interval starts from. *)
Definition releaseSpeed (timeStamp : num) (touchInfo : TouchInfo) : num * num :=
  ((touchDx touchInfo / (timeStamp - touchT touchInfo))%js,
   (touchDy touchInfo / (timeStamp - touchT touchInfo))%js).

Definition onTouchEnd (timeStamp : num) (s : State) : State :=
  let touchInfo := touchInfoRef s in
  let p := nextPid s in
  let s := set_nextPid (S p) s in
  let s := set_intervals (intervals s ++ [(p, releaseSpeed timeStamp touchInfo)]) s in
  set_touchInfoRef
    {| touchT := touchT touchInfo; touchX := touchX touchInfo;
       touchDx := touchDx touchInfo; touchY := touchY touchInfo;
       touchDy := touchDy touchInfo; pid := Some p |} s.

Definition DECAY : num := fin (95 # 100).
Definition THRESHOLD : num := fin (1 # 100).
Definition TICK : num := int 16.

Definition lookupInterval (p : nat) (s : State) : option (num * num) :=
  option_map snd (find (fun e => (fst e =? p)%nat) (intervals s)).

(** The delta a tick passes to [scroll], the speeds it leaves behind, and
    its test for stopping (on the speeds left behind). *)
Definition tickDelta (speed : num * num) : num * num :=
  ((fst speed * TICK)%js, (snd speed * TICK)%js).

Definition decayedSpeed (speed : num * num) : num * num :=
  ((fst speed * DECAY)%js, (snd speed * DECAY)%js).

Definition decayStops (speed : num * num) : bool :=
  (abs (fst speed) + abs (snd speed) <? THRESHOLD)%js.

(** The speeds an interval holds after [k] ticks that did not stop it. *)
Definition speedAfter (k : nat) (speed : num * num) : num * num :=
  Nat.iter k decayedSpeed speed.

(** One run of the callback of the interval [p].  The callback calls the
    [scroll] of the effect that was live at the touch end; the model
    calls the [scroll] of the current render.  The two are one function
    unless a render has changed [maxOffset], the total size or
    [scrollSpeed] while the interval was running. *)
Definition intervalTick (p : nat) (s : State) : State :=
  match lookupInterval p s with
  | None => s
  | Some speed =>
      let s := scroll (fst (tickDelta speed)) (snd (tickDelta speed)) s in
      let speed := decayedSpeed speed in
      if decayStops speed
      then
        let s := clearInterval p s in
        let ti := touchInfoRef s in
        set_touchInfoRef
          {| touchT := touchT ti; touchX := touchX ti; touchDx := touchDx ti;
             touchY := touchY ti; touchDy := touchDy ti; pid := None |} s
      else
        set_intervals
          (map (fun e => if (fst e =? p)%nat then (p, speed) else e)
             (intervals s)) s
  end.

(** *** Events *)

Inductive Event : Type :=
| Render
| Resize (measuredWidth measuredHeight : num)
| AnimationFrame
| Wheel (deltaX deltaY : num)
| TouchStart (timeStamp clientX clientY : num)
| TouchMove (timeStamp clientX clientY : num)
| TouchEnd (timeStamp : num)
| IntervalTick (p : nat).

Definition step (s : State) (e : Event) : State :=
  match e with
  | Render => render s
  | Resize w h => reflow w h s
  | AnimationFrame => animationFrame s
  | Wheel dx dy => onWheel dx dy s
  | TouchStart t cx cy => onTouchStart t cx cy s
  | TouchMove t cx cy => onTouchMove t cx cy s
  | TouchEnd t => onTouchEnd t s
  | IntervalTick p => intervalTick p s
  end.

Definition run (events : list Event) (s : State) : State :=
  fold_left step events s.

(** The sizes a [Resize] measures are never negative. *)
Definition measuredNonNegative (e : Event) : Prop :=
  match e with
  | Resize w h => (int 0 <=? w)%js = true /\ (int 0 <=? h)%js = true
  | _ => True
  end.

(** The window of a grid without rows, and what the properties of such a
    grid rest on: the offset is the initial one, the window is empty, the
    grid fits in the viewport, and a pending frame carries the empty
    window. *)
Definition emptyWindow : RenderWindow :=
  {| fromRow := 0; toRow := 0; fromCol := 0; toCol := 0 |}.

Definition emptyInvariant (s : State) : Prop :=
  offsetRef s = initOffset P
  /\ renderWindowRef s = emptyWindow
  /\ fitsInWindow s = true
  /\ (forall f, rafPidRef s = Some f ->
                frameWindow f = emptyWindow /\ frameRenderWindow f = emptyWindow).

(** The rows a render reads from [rows]: those of a render window and
    the stuck ones.  [rowsWithin] says they are rows of the grid;
    [renderable] says so of the refs and of a pending frame. *)
Definition rowsWithin (w : RenderWindow) (stuckRows : list Z) : Prop :=
  forall r, fromRow w <= r < toRow w \/ In r stuckRows -> 0 <= r < Z.of_nat (numRows P).

Definition renderable (s : State) : Prop :=
  rowsWithin (renderWindowRef s) (stuckRowsRef s)
  /\ (forall f, rafPidRef s = Some f -> rowsWithin (frameWindow f) (frameStuckRows f)).

End Handlers.

End Grid.

(** ** What a render puts on the page

    The part of the component's body after the hooks: the four groups of
    cells it builds from the render window and the stuck lists, with the
    position of each cell.  A cell is kept as its indices and its box;
    the element [children] returns for it is not modelled beyond whether
    it is truthy.  Reading [rows[r][c]] when [rows[r]] is [undefined]
    throws a [TypeError]; nothing in the component catches it. *)

Module Compositor.
Import JS Geometry Grid.

(** A computation that returns or throws. *)
Inductive Outcome (A : Type) : Type :=
| Done (a : A)
| Throws.
Arguments Done {A} a.
Arguments Throws {A}.

(** [for (let i = from; i < to; i += 1) body(i)], the body updating
    [acc]; the loop runs [to - from] times when that is positive. *)
Fixpoint forLoop {St : Type} (n : nat) (i : Z) (body : Z -> St -> Outcome St) (acc : St)
  : Outcome St :=
  match n with
  | O => Done acc
  | S n' =>
      match body i acc with
      | Done acc' => forLoop n' (i + 1) body acc'
      | Throws => Throws
      end
  end.

Definition forRange {St : Type} (from to : Z) (body : Z -> St -> Outcome St) (acc : St)
  : Outcome St :=
  forLoop (Z.to_nat (to - from)) from body acc.

(** [arr.forEach(a => body(a))], the body updating [acc]. *)
Fixpoint forEach {A St : Type} (arr : list A) (body : A -> St -> Outcome St) (acc : St)
  : Outcome St :=
  match arr with
  | [] => Done acc
  | a :: rest =>
      match body a acc with
      | Done acc' => forEach rest body acc'
      | Throws => Throws
      end
  end.

(** [arr.includes(i)] *)
Definition includes (arr : list Z) (i : Z) : bool := existsb (Z.eqb i) arr.

(** [px] writes a size for a style: the number [0] for [0], the number
    followed by the unit otherwise.  The model keeps the number. *)
Definition px (size : num) : num := size.

(** The box [makeRenderedCell] gives a cell, with the indices it was
    made for. *)
Record RenderedCell : Type :=
  { cellRow : Z; cellCol : Z;
    cellTop : num; cellLeft : num; cellWidth : num; cellHeight : num }.

Record Rendered : Type :=
  { renderedCells : list RenderedCell;
    stuckRowCells : list RenderedCell;
    stuckColCells : list RenderedCell;
    stuckCells : list RenderedCell;
    stuckRowsHeight : num;
    stuckColsWidth : num;
    naturalHeight : option num;
    naturalWidth : option num }.

(** The integers [from, from + 1, ..., to - 1]. *)
Definition range (from to : Z) : list Z :=
  map (fun k => from + Z.of_nat k) (seq 0 (Z.to_nat (to - from))).

(** What a loop over a list with a running sum appends: the items of
    [f sum a] for each [a], the sum growing by [h a]. *)
Fixpoint stacked {A B : Type} (f : num -> A -> list B) (h : A -> num) (sum : num)
    (arr : list A) : list B :=
  match arr with
  | [] => []
  | a :: rest => f sum a ++ stacked f h (sum + h a)%js rest
  end.

(** The sum of the sizes of the first [k] entries of [arr], as the loops
    over the stuck rows and columns add them up from [0]. *)
Definition stackedBefore (sizes : list num) (arr : list Z) (k : nat) : num :=
  fold_left add (firstn k (map (fun i => sizes.[i]%js) arr)) (int 0).

(** The four groups of cells of a render, in the order they are built. *)
Definition layers (R : Rendered) : list (list RenderedCell) :=
  [renderedCells R; stuckRowCells R; stuckColCells R; stuckCells R].

(** Where a box lands in the root element.  The root holds one container
    per group: the one of the scrolled cells has its corner at
    [(stuckColsWidth, stuckRowsHeight)], the one of the stuck rows at
    [(stuckColsWidth, 0)], the one of the stuck columns at
    [(0, stuckRowsHeight)], the one of the cells stuck both ways at
    [(0, 0)].  The element inside, at the corner, is the one a frame
    writes its transform to (none for the cells stuck both ways); the
    boxes are placed in it by their [top] and [left]. *)
Inductive Layer : Type := Scrolled | StuckRow | StuckCol | Stuck.

Definition containerCorner (R : Rendered) (layer : Layer) : Point :=
  match layer with
  | Scrolled => {| x := px (stuckColsWidth R); y := px (stuckRowsHeight R) |}
  | StuckRow => {| x := px (stuckColsWidth R); y := int 0 |}
  | StuckCol => {| x := int 0; y := px (stuckRowsHeight R) |}
  | Stuck => {| x := int 0; y := int 0 |}
  end.

Definition layerTransform (tr : Transforms) (layer : Layer) : Point :=
  match layer with
  | Scrolled => cellsTransform tr
  | StuckRow => {| x := stickyRowsTranslateX tr; y := int 0 |}
  | StuckCol => {| x := int 0; y := stickyColsTranslateY tr |}
  | Stuck => {| x := int 0; y := int 0 |}
  end.

Definition placeInRoot (R : Rendered) (tr : Transforms) (layer : Layer)
    (cell : RenderedCell) : Point :=
  {| x := (x (containerCorner R layer) + x (layerTransform tr layer) + cellLeft cell)%js;
     y := (y (containerCorner R layer) + y (layerTransform tr layer) + cellTop cell)%js |}.

Section Body.
Context {Cell : Type} (P : Props Cell).
(** Whether [children(cell, r, c)] is truthy; [cell] is [None] for
    [undefined]. *)
Variable children : option Cell -> Z -> Z -> bool.
Variable s : State.

(** [rows[r][c]] *)
Definition cellAt (r c : Z) : Outcome (option Cell) :=
  if r <? 0 then Throws
  else match nth_error (rows P) (Z.to_nat r) with
       | None => Throws
       | Some cells => Done (if c <? 0 then None else nth_error cells (Z.to_nat c))
       end.

(** [makeRenderedCell(r, c, top, left)]; [None] for an argument left out
    or [undefined], which takes its default. *)
Definition makeRenderedCell (r c : Z) (top left : option num)
  : Outcome (option RenderedCell) :=
  let top :=
    match top with
    | Some t => t
    | None => px ((rowOffsets P).[r] - (rowOffsets P).[fromRow (renderWindowRef s)])%js
    end in
  let left :=
    match left with
    | Some l => l
    | None => px ((colOffsets P).[c] - (colOffsets P).[fromCol (renderWindowRef s)])%js
    end in
  match cellAt r c with
  | Throws => Throws
  | Done cell =>
      if children cell r c
      then Done (Some {| cellRow := r; cellCol := c;
                         cellTop := top; cellLeft := left;
                         cellWidth := px (colWidths P).[c]%js;
                         cellHeight := px (rowHeights P).[r]%js |})
      else Done None
  end.

(** [if (cell) { cells.push(cell) }] *)
Definition pushCell (cells : list RenderedCell) (made : Outcome (option RenderedCell))
  : Outcome (list RenderedCell) :=
  match made with
  | Throws => Throws
  | Done None => Done cells
  | Done (Some cell) => Done (cells ++ [cell])
  end.

Definition buildRenderedCells : Outcome (list RenderedCell) :=
  let w := renderWindowRef s in
  forRange (fromRow w) (toRow w)
    (fun r cells =>
       if includes (stuckRowsRef s) r then Done cells
       else forRange (fromCol w) (toCol w)
              (fun c cells =>
                 if includes (stuckColsRef s) c then Done cells
                 else pushCell cells (makeRenderedCell r c None None))
              cells)
    [].

(** The loops over the stuck rows and columns carry the cells and the
    running [stuckRowTop] or [stuckColLeft]. *)
Definition buildStuckRowCells : Outcome (list RenderedCell * num) :=
  let w := renderWindowRef s in
  forEach (stuckRowsRef s)
    (fun r acc =>
       let stuckRowTop := snd acc in
       match forRange (fromCol w) (toCol w)
               (fun c cells =>
                  if includes (stuckColsRef s) c then Done cells
                  else pushCell cells (makeRenderedCell r c (Some stuckRowTop) None))
               (fst acc) with
       | Throws => Throws
       | Done cells => Done (cells, (stuckRowTop + (rowHeights P).[r])%js)
       end)
    ([], int 0).

Definition buildStuckColCells : Outcome (list RenderedCell * num) :=
  let w := renderWindowRef s in
  forEach (stuckColsRef s)
    (fun c acc =>
       let stuckColLeft := snd acc in
       match forRange (fromRow w) (toRow w)
               (fun r cells =>
                  if includes (stuckRowsRef s) r then Done cells
                  else pushCell cells (makeRenderedCell r c None (Some stuckColLeft)))
               (fst acc) with
       | Throws => Throws
       | Done cells => Done (cells, (stuckColLeft + (colWidths P).[c])%js)
       end)
    ([], int 0).

Definition buildStuckCells : Outcome (list RenderedCell * num) :=
  forEach (stuckRowsRef s)
    (fun r acc =>
       let stuckRowTop := snd acc in
       match forEach (stuckColsRef s)
               (fun c inner =>
                  let stuckColLeft := snd inner in
                  match pushCell (fst inner)
                          (makeRenderedCell r c (Some stuckRowTop) (Some stuckColLeft)) with
                  | Throws => Throws
                  | Done cells => Done (cells, (stuckColLeft + (colWidths P).[c])%js)
                  end)
               (fst acc, int 0) with
       | Throws => Throws
       | Done inner => Done (fst inner, (stuckRowTop + (rowHeights P).[r])%js)
       end)
    ([], int 0).

(** The body of the component from the reading of [renderWindowRef] on. *)
Definition renderBody : Outcome Rendered :=
  let stuckRowsHeight :=
    fold_left (fun h r => (h + (rowHeights P).[r])%js) (stuckRowsRef s) (int 0) in
  let stuckColsWidth :=
    fold_left (fun w c => (w + (colWidths P).[c])%js) (stuckColsRef s) (int 0) in
  match buildRenderedCells with
  | Throws => Throws
  | Done renderedCells =>
      match buildStuckRowCells with
      | Throws => Throws
      | Done stuckRowCells =>
          match buildStuckColCells with
          | Throws => Throws
          | Done stuckColCells =>
              match buildStuckCells with
              | Throws => Throws
              | Done stuckCells =>
                  Done {| renderedCells := renderedCells;
                          stuckRowCells := fst stuckRowCells;
                          stuckColCells := fst stuckColCells;
                          stuckCells := fst stuckCells;
                          stuckRowsHeight := stuckRowsHeight;
                          stuckColsWidth := stuckColsWidth;
                          naturalHeight :=
                            if (height (windowSizeRef s) === int 0)%js
                               && (0 <? toRow (renderWindowRef s))
                            then Some (px (height (totalSize P)))
                            else None;
                          naturalWidth :=
                            if (width (windowSizeRef s) === int 0)%js
                               && (0 <? toCol (renderWindowRef s))
                            then Some (px (width (totalSize P)))
                            else None |}
              end
          end
      end
  end.

(** The box of the cell [(r, c)] placed at [top] and [left], and the
    place a cell of the scrolled layer takes by default. *)
Definition boxAt (r c : Z) (top left : num) : RenderedCell :=
  {| cellRow := r; cellCol := c; cellTop := top; cellLeft := left;
     cellWidth := (colWidths P).[c]%js; cellHeight := (rowHeights P).[r]%js |}.

Definition scrolledTop (r : Z) : num :=
  ((rowOffsets P).[r] - (rowOffsets P).[fromRow (renderWindowRef s)])%js.

Definition scrolledLeft (c : Z) : num :=
  ((colOffsets P).[c] - (colOffsets P).[fromCol (renderWindowRef s)])%js.

(** What one call of [makeRenderedCell] adds to a list of cells when it
    returns, and what the loops add for one row or one column. *)
Definition made (r c : Z) (top left : option num) : list RenderedCell :=
  match makeRenderedCell r c top left with
  | Done (Some cell) => [cell]
  | _ => []
  end.

Definition scrolledRow (r : Z) : list RenderedCell :=
  if includes (stuckRowsRef s) r then []
  else flat_map (fun c => if includes (stuckColsRef s) c then [] else made r c None None)
         (range (fromCol (renderWindowRef s)) (toCol (renderWindowRef s))).

Definition stuckRowAt (top : num) (r : Z) : list RenderedCell :=
  flat_map (fun c => if includes (stuckColsRef s) c then [] else made r c (Some top) None)
    (range (fromCol (renderWindowRef s)) (toCol (renderWindowRef s))).

Definition stuckColAt (left : num) (c : Z) : list RenderedCell :=
  flat_map (fun r => if includes (stuckRowsRef s) r then [] else made r c None (Some left))
    (range (fromRow (renderWindowRef s)) (toRow (renderWindowRef s))).

Definition stuckAt (top : num) (r : Z) : list RenderedCell :=
  stacked (fun left c => made r c (Some top) (Some left))
    (fun c => (colWidths P).[c]%js) (int 0) (stuckColsRef s).

(** [children] gave something for the grid cell [(r, c)], and [cell] is
    its box at [top] and [left]. *)
Definition drawnAt (r c : Z) (top left : num) (cell : RenderedCell) : Prop :=
  exists v, cellAt r c = Done v /\ children v r c = true /\ cell = boxAt r c top left.

End Body.

End Compositor.

(** ** Statements of the specification, as worded

    The visible range as the specification has it, computed directly
    from the offset and the viewport; and four sentences of the
    specification that the component does not meet as they stand, each
    written as the specification words it: the properties below show
    where it fails and what holds instead. *)

Module Stated.
Import JS Geometry Grid.

(** "the visible range (computed directly from offset+viewport)": the
    item [j] of an axis starts at the sum of the sizes before it; it is
    on screen when it ends after the offset [o] and starts before
    [o + size].  On an axis whose viewport measures [0] the content is
    shown at its natural extent, and every item that ends after [o]
    counts.  Neither the offset table nor the search of [setOffset] is
    used. *)
Definition onScreen (sizes : list num) (o size : num) (j : nat) : bool :=
  (o <? sumBefore sizes j + sizes.[Z.of_nat j])%js
  && ((sumBefore sizes j <? o + size)%js || (size === int 0)%js).

Section Statements.
Context {Cell : Type} (P : Props Cell).

(** "candidate offset = current offset + delta x scrollSpeed, clamp each
    axis to [0, maxOffset.axis]", with the raw delta. *)
Definition candidateOffset (deltaX deltaY : num) (s : State) : Point :=
  {| x := min (x (maxOffset P (renderedWindowSize s)))
            (max (int 0) (x (offsetRef s) + deltaX * scrollSpeed P)%js);
     y := min (y (maxOffset P (renderedWindowSize s)))
            (max (int 0) (y (offsetRef s) + deltaY * scrollSpeed P)%js) |}.

(** "getOffset() immediately after applyDelta(dx,dy) that returned true
    equals the clamped candidate offset computed from (dx,dy)". *)
Definition offsetRoundTrip (deltaX deltaY : num) (s : State) : Prop :=
  scrollAccepted P deltaX deltaY s = true ->
  equiv (x (offsetRef (scroll P deltaX deltaY s))) (x (candidateOffset deltaX deltaY s))
  /\ equiv (y (offsetRef (scroll P deltaX deltaY s))) (y (candidateOffset deltaX deltaY s)).

(** "if visibleTo > currentTo: new to = visibleTo + renderBatchSize, new
    from = visibleFrom", on rows, each edge clamped to [0, count]. *)
Definition forwardRule (windowSize : Size) (current : RenderWindow) (offset : Point)
  : Prop :=
  let vf := visibleFrom P offset in
  let vt := visibleTo P windowSize offset in
  let w := resolveWindow P windowSize current offset in
  toRow current < row vt ->
  toRow w = Z.min (row vt + renderBatchSize P) (Z.of_nat (numRows P))
  /\ fromRow w = Z.max (row vf) 0.

(** "subset of StickySet currently scrolled past their natural position
    (offset >= naturalOffset - stickyCumulativeThickness)", on rows. *)
Definition stuckRowMembership (offsetY : num) : Prop :=
  forall (r : Z) (i : nat),
    nth_error (sortedStickyRows P) i = Some r ->
    In r (stuckRowsAt P offsetY)
    <-> (offsetY >=? (rowOffsets P).[r] - (stickyRowOffsets P).[Z.of_nat i])%js = true.

(** On an axis of viewport size zero, every call of [scroll] leaves the
    offset component at the previous one clamped to [0, maxOffset]; on
    the x axis. *)
Definition zeroViewportClamp (deltaX deltaY : num) (s : State) : Prop :=
  (width (windowSizeRef s) === int 0)%js = true ->
  equiv (x (offsetRef (scroll P deltaX deltaY s)))
    (min (x (maxOffset P (renderedWindowSize s))) (max (int 0) (x (offsetRef s)))).

End Statements.
End Stated.

(** ** Concrete grids *)

Module Scenario.
Import JS Geometry Grid.

Definition attached : Elements :=
  {| rootElmnt := true; cellsElmnt := true;
     stickyRowsElmnt := true; stickyColsElmnt := true |}.

Definition point (px py : Z) : Point := {| x := int px; y := int py |}.

(** [rowCount] rows of [colCount] cells. *)
Definition cells (rowCount colCount : nat) : list (list unit) :=
  repeat (repeat tt colCount) rowCount.

(** One row of three cells with the default sizes: 240 wide, 40 high. *)
Definition wideGrid : Props unit := defaultProps (cells 1 3).

(** Ten rows of one cell with the default sizes: 80 wide, 400 high. *)
Definition tallGrid : Props unit := defaultProps (cells 10 1).

(** Forty rows of one cell with the default sizes: 80 wide, 1600 high. *)
Definition longGrid : Props unit := defaultProps (cells 40 1).

(** No rows. *)
Definition emptyGrid : Props unit := defaultProps [].

(** No rows, and an offset kept from an earlier mount. *)
Definition emptyGridRestored : Props unit :=
  {| rows := [];
     rowHeight := Fixed DEFAULT_ROW_HEIGHT;
     colWidth := Fixed DEFAULT_COL_WIDTH;
     stickyRows := [];
     stickyCols := [];
     initOffset := point 5 0;
     scrollSpeed := DEFAULT_SCROLL_SPEED;
     renderBatchSize := DEFAULT_RENDER_BATCH_SIZE;
     onScrollStop := false |}.

(** Ten rows of one cell, the rows 3 and 0 sticky. *)
Definition stickyGrid : Props unit :=
  {| rows := cells 10 1;
     rowHeight := Fixed DEFAULT_ROW_HEIGHT;
     colWidth := Fixed DEFAULT_COL_WIDTH;
     stickyRows := [3; 0];
     stickyCols := [];
     initOffset := point 0 0;
     scrollSpeed := DEFAULT_SCROLL_SPEED;
     renderBatchSize := DEFAULT_RENDER_BATCH_SIZE;
     onScrollStop := false |}.

(** The state of a grid mounted in a viewport of the given size, after
    the first measurement and its frame. *)
Definition mounted (P : Props unit) (w h : Z) : State :=
  run P [Resize (int w) (int h); AnimationFrame] (initialState P attached).

(** Forty rows of one cell, each row 400 high: 80 wide, 16000 high. *)
Definition sparseGrid : Props unit :=
  {| rows := cells 40 1;
     rowHeight := Fixed (int 400);
     colWidth := Fixed DEFAULT_COL_WIDTH;
     stickyRows := [];
     stickyCols := [];
     initOffset := point 0 0;
     scrollSpeed := DEFAULT_SCROLL_SPEED;
     renderBatchSize := DEFAULT_RENDER_BATCH_SIZE;
     onScrollStop := false |}.

(** The sparse grid in a viewport 400 high, scrolled to 4000 and
    rendered.  This is the state the component is in when the parent
    then passes the default row height, which makes it [longGrid]: the
    refs outlive the change of props. *)
Definition sparseScrolled : State :=
  run sparseGrid [Wheel (int 0) (int 4000); AnimationFrame] (mounted sparseGrid 80 400).

(** Six rows of six cells with the default sizes (480 wide, 240 high),
    the first row and the first column sticky. *)
Definition pinnedGrid : Props unit :=
  {| rows := cells 6 6;
     rowHeight := Fixed DEFAULT_ROW_HEIGHT;
     colWidth := Fixed DEFAULT_COL_WIDTH;
     stickyRows := [0];
     stickyCols := [0];
     initOffset := point 0 0;
     scrollSpeed := DEFAULT_SCROLL_SPEED;
     renderBatchSize := DEFAULT_RENDER_BATCH_SIZE;
     onScrollStop := false |}.

(** The pinned grid in a viewport 160 wide and 80 high, scrolled by
    (100, 50) and rendered. *)
Definition pinnedScrolled : State :=
  run pinnedGrid [Wheel (int 100) (int 50); AnimationFrame] (mounted pinnedGrid 160 80).

(** Ten rows of ten cells with the default sizes: 800 wide, 400 high. *)
Definition roomyGrid : Props unit := defaultProps (cells 10 10).

(** The gesture start(t=0, x=100), move(t=16, x=80), end(t=32). *)
Definition flick : list Event :=
  [TouchStart (int 0) (int 100) (int 0);
   TouchMove (int 16) (int 80) (int 0);
   TouchEnd (int 32)].

(** The speeds [onTouchEnd] computes for it: the last displacement over
    the time since the previous point. *)
Definition flickSpeed : num * num :=
  ((int 100 - int 80) / (int 32 - int 16), (int 0 - int 0) / (int 32 - int 16))%js.

End Scenario.

(** * Properties *)

Import JS Geometry Grid.

(** ** Array reads *)

Lemma get_of_nat (arr : list num) (k : nat) :
  (arr.[Z.of_nat k])%js = match nth_error arr k with Some v => v | None => None end.
Proof.
  unfold get. destruct (Z.of_nat k <? 0) eqn:E.
  - apply Z.ltb_lt in E. lia.
  - now rewrite Nat2Z.id.
Qed.

Lemma get_negative (arr : list num) (i : Z) : i < 0 -> (arr.[i])%js = None.
Proof. intros H. unfold get. apply Z.ltb_lt in H. now rewrite H. Qed.

Lemma get_beyond (arr : list num) (i : Z) :
  Z.of_nat (length arr) <= i -> (arr.[i])%js = None.
Proof.
  intros H. unfold get. destruct (i <? 0); [reflexivity|].
  assert (E : nth_error arr (Z.to_nat i) = None) by (apply nth_error_None; lia).
  now rewrite E.
Qed.

Lemma get_map_seq (f : nat -> num) (n k : nat) :
  (k < n)%nat -> ((map f (seq 0 n)).[Z.of_nat k])%js = f k.
Proof.
  intros H. rewrite get_of_nat.
  rewrite nth_error_map, nth_error_seq.
  destruct (Nat.ltb_spec k n) as [_|Hge]; [reflexivity | lia].
Qed.

(** ** The offset table *)

Lemma fold_add_firstn_S (sizes : list num) (k : nat) (acc : num) :
  (k < length sizes)%nat ->
  fold_left add (firstn (S k) sizes) acc
  = (fold_left add (firstn k sizes) acc + sizes.[Z.of_nat k])%js.
Proof.
  revert k acc. induction sizes as [|s sizes IH]; intros k acc H.
  - simpl in H. lia.
  - destruct k as [|k].
    + reflexivity.
    + rewrite (firstn_cons (S k)), (firstn_cons k). cbn [fold_left].
      rewrite IH by (simpl in H; lia).
      rewrite !get_of_nat. reflexivity.
Qed.

Lemma sumBefore_S (sizes : list num) (k : nat) :
  (k < length sizes)%nat ->
  sumBefore sizes (S k) = (sumBefore sizes k + sizes.[Z.of_nat k])%js.
Proof. apply fold_add_firstn_S. Qed.

Lemma offsetsLoop_sums (sizes : list num) (n k : nat) :
  (k + n < length sizes)%nat ->
  offsetsLoop n sizes (Z.of_nat k) (map (sumBefore sizes) (seq 0 (S k)))
  = map (sumBefore sizes) (seq 0 (S k + n)).
Proof.
  revert k. induction n as [|n IH]; intros k H.
  - now rewrite Nat.add_0_r.
  - cbn [offsetsLoop].
    rewrite get_map_seq by lia.
    rewrite <- sumBefore_S by lia.
    replace (Z.of_nat k + 1) with (Z.of_nat (S k)) by lia.
    replace (map (sumBefore sizes) (seq 0 (S k)) ++ [sumBefore sizes (S k)])
      with (map (sumBefore sizes) (seq 0 (S (S k)))).
    + rewrite IH by lia. f_equal. f_equal. lia.
    + rewrite (seq_S (S k) 0), map_app. reflexivity.
Qed.

Lemma calculateOffsets_sums (sizes : list num) :
  calculateOffsets sizes = map (sumBefore sizes) (seq 0 (length sizes)).
Proof.
  unfold calculateOffsets. destruct sizes as [|s sizes]; [reflexivity|].
  cbn [length Nat.eqb]. rewrite Nat.sub_succ, Nat.sub_0_r.
  change [fin 0] with (map (sumBefore (s :: sizes)) (seq 0 1)).
  change 0 with (Z.of_nat 0).
  rewrite offsetsLoop_sums by (cbn [length]; lia).
  reflexivity.
Qed.

Lemma length_calculateOffsets (sizes : list num) :
  length (calculateOffsets sizes) = length sizes.
Proof. now rewrite calculateOffsets_sums, length_map, length_seq. Qed.

Lemma length_calculateSizes (itemSize : ItemSize) (count : nat) :
  length (calculateSizes itemSize count) = count.
Proof.
  destruct itemSize; cbn [calculateSizes].
  - apply repeat_length.
  - now rewrite length_map, length_seq.
Qed.

(** C9.  [calculateOffsets sizes] is the list of the sums of
    [sizes[0 .. i-1]] for [i = 0 .. length - 1]: it is as long as [sizes]
    (empty when [sizes] is), it starts with [0], and its entry [i] is the
    sum of the sizes before [i]. *)
Theorem calculateOffsets_prefix_sums (sizes : list num) :
  calculateOffsets sizes = map (sumBefore sizes) (seq 0 (length sizes))
  /\ length (calculateOffsets sizes) = length sizes
  /\ sumBefore sizes 0 = fin 0.
Proof.
  split; [apply calculateOffsets_sums|].
  split; [apply length_calculateOffsets | reflexivity].
Qed.

(** ** [findIndex] *)

Lemma findIndexFrom_range {A : Type} (p : A -> bool) (arr : list A) (i : Z) :
  0 <= i ->
  findIndexFrom p arr i = -1
  \/ i <= findIndexFrom p arr i < i + Z.of_nat (length arr).
Proof.
  revert i. induction arr as [|a arr IH]; intros i Hi; cbn [findIndexFrom length].
  - now left.
  - destruct (p a).
    + right. lia.
    + destruct (IH (i + 1)) as [E|R]; [lia | now left | right; lia].
Qed.

Lemma findIndex_range {A : Type} (p : A -> bool) (arr : list A) :
  findIndex p arr = -1 \/ 0 <= findIndex p arr < Z.of_nat (length arr).
Proof.
  unfold findIndex. destruct (findIndexFrom_range p arr 0) as [E|R]; [lia | now left | right; lia].
Qed.

(** A weaker predicate is met no later. *)
Lemma findIndexFrom_weaker {A : Type} (p q : A -> bool) (arr : list A) (i : Z) :
  0 <= i ->
  (forall a, q a = true -> p a = true) ->
  findIndexFrom q arr i <> -1 ->
  i <= findIndexFrom p arr i <= findIndexFrom q arr i.
Proof.
  intros Hi Hpq. revert i Hi.
  induction arr as [|a arr IH]; intros i Hi Hq; cbn [findIndexFrom] in *.
  - congruence.
  - destruct (p a) eqn:Ep.
    + destruct (q a); [lia|].
      destruct (findIndexFrom_range q arr (i + 1)) as [E|R]; [lia | congruence | lia].
    + destruct (q a) eqn:Eq.
      * apply Hpq in Eq. congruence.
      * specialize (IH (i + 1)). lia.
Qed.

(** ** The visible range *)

Lemma walkBack_le (fuel : nat) (offsets : list num) (o : num) (v : Z) :
  walkBack fuel offsets o v <= v.
Proof.
  revert v. induction fuel as [|fuel IH]; intros v; cbn [walkBack]; [lia|].
  destruct (offsets.[v] >? o)%js; [|lia].
  specialize (IH (v - 1)). lia.
Qed.

Lemma gt_get_nonneg (offsets : list num) (o : num) (v : Z) :
  (offsets.[v] >? o)%js = true -> 0 <= v.
Proof.
  intros H. destruct (Z.lt_ge_cases v 0) as [Hneg|]; [|assumption].
  rewrite (get_negative _ _ Hneg) in H. unfold gt, lt, cmp in H.
  destruct o; discriminate.
Qed.

Lemma walkBack_ge (fuel : nat) (offsets : list num) (o : num) (v : Z) :
  -1 <= v -> -1 <= walkBack fuel offsets o v.
Proof.
  revert v. induction fuel as [|fuel IH]; intros v Hv; cbn [walkBack]; [lia|].
  destruct (offsets.[v] >? o)%js eqn:E; [|lia].
  apply gt_get_nonneg in E. apply IH. lia.
Qed.

(** With fuel for [v + 1] rounds the loop is left by its own test. *)
Lemma walkBack_exit (fuel : nat) (offsets : list num) (o : num) (v : Z) :
  v < Z.of_nat fuel ->
  (offsets.[walkBack fuel offsets o v] >? o)%js = false.
Proof.
  revert v. induction fuel as [|fuel IH]; intros v Hv; cbn [walkBack].
  - destruct (offsets.[v] >? o)%js eqn:E; [|reflexivity].
    apply gt_get_nonneg in E. lia.
  - destruct (offsets.[v] >? o)%js eqn:E; [|exact E].
    apply IH. lia.
Qed.

Lemma visibleFromAxis_exit (offsets : list num) (o : num) :
  (offsets.[visibleFromAxis offsets o] >? o)%js = false.
Proof.
  unfold visibleFromAxis. apply walkBack_exit.
  destruct (findIndex_range (fun off => (off >=? o)%js) offsets); lia.
Qed.

Lemma visibleFromAxis_bounds (offsets : list num) (o : num) :
  -1 <= visibleFromAxis offsets o
  /\ visibleFromAxis offsets o <= findIndex (fun off => (off >=? o)%js) offsets
  /\ visibleFromAxis offsets o < Z.of_nat (length offsets).
Proof.
  unfold visibleFromAxis.
  pose proof (walkBack_le (S (length offsets)) offsets o
                (findIndex (fun off => (off >=? o)%js) offsets)).
  pose proof (walkBack_ge (S (length offsets)) offsets o
                (findIndex (fun off => (off >=? o)%js) offsets)).
  destruct (findIndex_range (fun off => (off >=? o)%js) offsets); lia.
Qed.

Lemma visibleToAxis_bounds (offsets : list num) (o size : num) :
  0 <= visibleToAxis offsets (length offsets) o size <= Z.of_nat (length offsets).
Proof.
  unfold visibleToAxis. destruct (size === int 0)%js.
  - destruct (Z.eqb_spec (Z.of_nat (length offsets)) (-1)); lia.
  - destruct (Z.eqb_spec (findIndex (fun off => (off >=? o + size)%js) offsets) (-1)).
    + lia.
    + destruct (findIndex_range (fun off => (off >=? o + size)%js) offsets); lia.
Qed.

(** An offset that reaches [o + size] reaches [o], unless the viewport
    size is negative. *)
Lemma ge_add_ge (off o size : num) :
  (size <? int 0)%js = false -> (off >=? o + size)%js = true -> (off >=? o)%js = true.
Proof.
  unfold ge, le, lt, cmp, add, lift2, int, Qlt_bool.
  destruct off as [f|], o as [q|], size as [h|]; try discriminate.
  intros Hsize H. apply negb_false_iff in Hsize.
  apply Qle_bool_iff in Hsize, H. apply Qle_bool_iff.
  unfold inject_Z in Hsize. lra.
Qed.

Lemma visibleFrom_le_visibleTo (offsets : list num) (o size : num) :
  (size <? int 0)%js = false ->
  visibleFromAxis offsets o <= visibleToAxis offsets (length offsets) o size.
Proof.
  intros Hsize.
  destruct (visibleFromAxis_bounds offsets o) as (_ & Hidx & Hlen).
  unfold visibleToAxis. destruct (size === int 0)%js.
  - destruct (Z.eqb_spec (Z.of_nat (length offsets)) (-1)); lia.
  - destruct (Z.eqb_spec (findIndex (fun off => (off >=? o + size)%js) offsets) (-1)) as [|Hfound].
    + lia.
    + pose proof (findIndexFrom_weaker (fun off => (off >=? o)%js)
                    (fun off => (off >=? o + size)%js) offsets 0 (Z.le_refl 0)
                    (fun a => ge_add_ge a o size Hsize) Hfound) as Hw.
      unfold findIndex in *. lia.
Qed.

(** ** Window resolution *)

Section Window.
Context {Cell : Type} (P : Props Cell).

Lemma length_rowOffsets : length (rowOffsets P) = numRows P.
Proof.
  unfold rowOffsets, rowHeights.
  now rewrite length_calculateOffsets, length_calculateSizes.
Qed.

Lemma length_colOffsets : length (colOffsets P) = numCols P.
Proof.
  unfold colOffsets, colWidths.
  now rewrite length_calculateOffsets, length_calculateSizes.
Qed.

(** [resolveWindow] treats the two axes alike and apart. *)
Lemma resolveWindow_axes (windowSize : Size) (w : RenderWindow) (offset : Point) :
  let vf := visibleFrom P offset in
  let vt := visibleTo P windowSize offset in
  let rowAxis := expandAxis (renderBatchSize P) (Z.of_nat (length (rowOffsets P)))
                   (row vf) (row vt) (fromRow w) (toRow w) in
  let colAxis := expandAxis (renderBatchSize P) (Z.of_nat (length (colOffsets P)))
                   (col vf) (col vt) (fromCol w) (toCol w) in
  resolveWindow P windowSize w offset
  = {| fromRow := fst rowAxis; toRow := snd rowAxis;
       fromCol := fst colAxis; toCol := snd colAxis |}.
Proof.
  cbv zeta. unfold resolveWindow, expandAxis.
  destruct (row (visibleFrom P offset) <? fromRow w);
    destruct (col (visibleFrom P offset) <? fromCol w);
    cbv iota beta;
    repeat match goal with
           | |- context [if ?c then _ else _] => destruct c
           end; reflexivity.
Qed.

End Window.

(** What one axis of the hysteresis guarantees, whatever the current
    edges are. *)
Lemma expandAxis_bounds (batch count vFrom vTo from to : Z) :
  0 <= batch -> -1 <= vFrom -> vFrom <= vTo -> 0 <= vTo <= count ->
  let w := expandAxis batch count vFrom vTo from to in
  0 <= fst w /\ fst w <= snd w /\ snd w <= count
  /\ fst w <= Z.max 0 vFrom /\ vTo <= snd w.
Proof.
  intros Hb Hf Hft Ht. unfold expandAxis.
  destruct (Z.ltb_spec vFrom from); cbv iota beta;
    rewrite Z.gtb_ltb;
    match goal with |- context [if ?a <? ?b then _ else _] => destruct (Z.ltb_spec a b) end;
    cbn [fst snd]; lia.
Qed.

(** ** [setOffset] and its frame *)

Section SetOffset.
Context {Cell : Type} (P : Props Cell).

(** The frame an accepted [setOffset] leaves pending. *)
Lemma setOffset_accepted (cE rE kE : bool) (offset : Point) (force : bool) (s : State) :
  fst (setOffset P cE rE kE offset force s) = true ->
  snd (setOffset P cE rE kE offset force s)
  = set_rafPidRef
      (Some {| frameOffset := offset;
               frameVisibleFrom := visibleFrom P offset;
               frameVisibleTo := visibleTo P (windowSizeRef s) offset;
               frameWindow := resolveWindow P (windowSizeRef s) (renderWindowRef s) offset;
               frameStuckRows := stuckRowsAt P (y offset);
               frameStuckCols := stuckColsAt P (x offset);
               frameRenderWindow := renderWindowRef s |})
      (set_offsetRef offset s).
Proof.
  unfold setOffset.
  destruct (cE && rE && kE
            && (force || (x (offsetRef s) !== x offset)%js
                || (y (offsetRef s) !== y offset)%js)); cbn [fst snd].
  - reflexivity.
  - discriminate.
Qed.

Lemma setOffset_rejected (cE rE kE : bool) (offset : Point) (force : bool) (s : State) :
  fst (setOffset P cE rE kE offset force s) = false ->
  snd (setOffset P cE rE kE offset force s) = s.
Proof.
  unfold setOffset.
  destruct (cE && rE && kE
            && (force || (x (offsetRef s) !== x offset)%js
                || (y (offsetRef s) !== y offset)%js)); cbn [fst snd].
  - discriminate.
  - reflexivity.
Qed.

(** Once the frame has run, the window ref holds the window the frame
    was given, whether or not a new object was stored. *)
Lemma animationFrame_window (s : State) (f : Frame) :
  rafPidRef s = Some f ->
  frameRenderWindow f = renderWindowRef s ->
  renderWindowRef (animationFrame P s) = frameWindow f.
Proof.
  intros Hraf Hcap. unfold animationFrame. rewrite Hraf. cbv zeta.
  rewrite Hcap.
  match goal with
  | |- context [if ?c || ?d then _ else _] => destruct (c || d) eqn:Echanged
  end.
  - repeat match goal with
           | |- context [if ?c then _ else _] => destruct c
           end; reflexivity.
  - repeat (apply orb_false_iff in Echanged; destruct Echanged as [Echanged ?]).
    repeat match goal with
           | H : negb (_ =? _) = false |- _ => apply negb_false_iff, Z.eqb_eq in H
           end.
    assert (E : renderWindowRef s = frameWindow f).
    { destruct (renderWindowRef s), (frameWindow f); cbn in *; congruence. }
    repeat match goal with
           | |- context [if ?c then _ else _] => destruct c
           end; exact E.
Qed.

End SetOffset.

(** ** The hysteresis rule *)

Lemma expandAxis_backward (batch count vFrom vTo from to : Z) :
  vFrom < from ->
  expandAxis batch count vFrom vTo from to = (Z.max (vFrom - batch) 0, Z.min vTo count).
Proof.
  intros H. unfold expandAxis.
  destruct (Z.ltb_spec vFrom from); [|lia]. cbv iota beta.
  rewrite Z.gtb_ltb, Z.ltb_irrefl. reflexivity.
Qed.

Lemma expandAxis_forward (batch count vFrom vTo from to : Z) :
  from <= vFrom -> to < vTo ->
  expandAxis batch count vFrom vTo from to = (Z.max vFrom 0, Z.min (vTo + batch) count).
Proof.
  intros H1 H2. unfold expandAxis.
  destruct (Z.ltb_spec vFrom from); [lia|]. cbv iota beta.
  rewrite Z.gtb_ltb. destruct (Z.ltb_spec to vTo); [reflexivity | lia].
Qed.

Lemma expandAxis_inside (batch count vFrom vTo from to : Z) :
  from <= vFrom -> vTo <= to ->
  expandAxis batch count vFrom vTo from to = (Z.max from 0, Z.min to count).
Proof.
  intros H1 H2. unfold expandAxis.
  destruct (Z.ltb_spec vFrom from); [lia|]. cbv iota beta.
  rewrite Z.gtb_ltb. destruct (Z.ltb_spec to vTo); [lia | reflexivity].
Qed.

(** C3.  The rows window is [10, 16) when the rows shrink from 400 to 40
    high; at the offset 360 the visible rows are then [9, 19).  Both edges
    have moved out, and the new window is [4, 19): the forward edge is
    [visibleTo], not [visibleTo + renderBatchSize]. *)
Lemma forwardRule_fails :
  ~ Stated.forwardRule Scenario.longGrid
      (windowSizeRef Scenario.sparseScrolled)
      (renderWindowRef Scenario.sparseScrolled)
      (Scenario.point 0 360).
Proof.
  unfold Stated.forwardRule. intros H.
  destruct H as [Hto _]; [reflexivity|].
  vm_compute in Hto. discriminate Hto.
Qed.

(** The same through the handlers: after the rows have shrunk and the
    component has rendered, a wheel delta of -3640 resolves to [4, 19). *)
Lemma rows_shrunk_window :
  renderWindowRef
    (run Scenario.longGrid [Render; Wheel (int 0) (int (-3640)); AnimationFrame]
       Scenario.sparseScrolled)
  = {| fromRow := 4; toRow := 19; fromCol := 0; toCol := 1 |}.
Proof. vm_compute. reflexivity. Qed.

(** C3, as the code has it.  On each axis, from the current edges and the
    visible ones alone: if [visibleFrom < from], the new edges are
    [visibleFrom - renderBatchSize] and [visibleTo]; otherwise, if
    [visibleTo > to], they are [visibleFrom] and
    [visibleTo + renderBatchSize]; otherwise they are the current ones.
    In each case the lower edge is then raised to [0] and the upper edge
    lowered to the count.  When the visible range lies inside a current
    window that lies within [0, count] on both axes, the window is
    unchanged. *)
Theorem resolveWindow_hysteresis {Cell : Type} (P : Props Cell)
    (windowSize : Size) (current : RenderWindow) (offset : Point) :
  let vf := visibleFrom P offset in
  let vt := visibleTo P windowSize offset in
  let w := resolveWindow P windowSize current offset in
  let batch := renderBatchSize P in
  let rowCount := Z.of_nat (numRows P) in
  let colCount := Z.of_nat (numCols P) in
  (row vf < fromRow current ->
   fromRow w = Z.max (row vf - batch) 0 /\ toRow w = Z.min (row vt) rowCount)
  /\ (fromRow current <= row vf -> toRow current < row vt ->
      fromRow w = Z.max (row vf) 0 /\ toRow w = Z.min (row vt + batch) rowCount)
  /\ (fromRow current <= row vf -> row vt <= toRow current ->
      fromRow w = Z.max (fromRow current) 0 /\ toRow w = Z.min (toRow current) rowCount)
  /\ (col vf < fromCol current ->
      fromCol w = Z.max (col vf - batch) 0 /\ toCol w = Z.min (col vt) colCount)
  /\ (fromCol current <= col vf -> toCol current < col vt ->
      fromCol w = Z.max (col vf) 0 /\ toCol w = Z.min (col vt + batch) colCount)
  /\ (fromCol current <= col vf -> col vt <= toCol current ->
      fromCol w = Z.max (fromCol current) 0 /\ toCol w = Z.min (toCol current) colCount)
  /\ (fromRow current <= row vf -> row vt <= toRow current ->
      fromCol current <= col vf -> col vt <= toCol current ->
      0 <= fromRow current -> toRow current <= rowCount ->
      0 <= fromCol current -> toCol current <= colCount ->
      w = current).
Proof.
  cbv zeta. rewrite resolveWindow_axes. cbv zeta.
  rewrite <- length_rowOffsets, <- length_colOffsets.
  cbn [fromRow toRow fromCol toCol].
  repeat split; intros;
    try (rewrite expandAxis_backward by assumption; reflexivity);
    try (rewrite expandAxis_forward by assumption; reflexivity);
    try (rewrite expandAxis_inside by assumption; reflexivity).
  rewrite !expandAxis_inside by assumption. cbn [fst snd].
  destruct current as [fr tr fc tc]. cbn [fromRow toRow fromCol toCol] in *.
  f_equal; lia.
Qed.

Lemma resolveWindow_hysteresis_witness :
  let current := renderWindowRef Scenario.sparseScrolled in
  let windowSize := windowSizeRef Scenario.sparseScrolled in
  let offset := Scenario.point 0 360 in
  let vf := visibleFrom Scenario.longGrid offset in
  let vt := visibleTo Scenario.longGrid windowSize offset in
  let w := resolveWindow Scenario.longGrid windowSize current offset in
  row vf < fromRow current
  /\ fromRow w = Z.max (row vf - renderBatchSize Scenario.longGrid) 0
  /\ toRow w = Z.min (row vt) (Z.of_nat (numRows Scenario.longGrid)).
Proof.
  cbv zeta. split.
  - vm_compute. reflexivity.
  - apply (resolveWindow_hysteresis Scenario.longGrid
             (windowSizeRef Scenario.sparseScrolled)
             (renderWindowRef Scenario.sparseScrolled) (Scenario.point 0 360)).
    vm_compute. reflexivity.
Defined.

(** ** Sticky rows and columns *)

Lemma filterIndexedFrom_In {A : Type} (p : A -> Z -> bool) (arr : list A) (i : Z) (a : A) :
  In a (filterIndexedFrom p arr i)
  <-> exists k : nat, nth_error arr k = Some a /\ p a (i + Z.of_nat k) = true.
Proof.
  revert i. induction arr as [|b arr IH]; intros i; cbn [filterIndexedFrom].
  - split; [intros [] | intros (k & Hk & _); destruct k; discriminate].
  - assert (Hrest : In a (filterIndexedFrom p arr (i + 1))
                    <-> exists k : nat, nth_error (b :: arr) (S k) = Some a
                                        /\ p a (i + Z.of_nat (S k)) = true).
    { rewrite IH. split; intros (k & Hk & Hp); exists k; (split; [exact Hk|]).
      - now replace (i + Z.of_nat (S k)) with (i + 1 + Z.of_nat k) by lia.
      - now replace (i + 1 + Z.of_nat k) with (i + Z.of_nat (S k)) by lia. }
    destruct (p b i) eqn:Eb.
    + cbn [In]. rewrite Hrest. split.
      * intros [->|(k & Hk)]; [exists 0%nat | exists (S k); exact Hk].
        split; [reflexivity | now rewrite Z.add_0_r].
      * intros ([|k] & Hk & Hp); [left | right; exists k; now split].
        cbn in Hk. congruence.
    + rewrite Hrest. split.
      * intros (k & Hk). exists (S k). exact Hk.
      * intros ([|k] & Hk & Hp); [|exists k; now split].
        cbn in Hk. injection Hk as ->. rewrite Z.add_0_r in Hp. congruence.
Qed.

Lemma filterIndexed_In {A : Type} (p : A -> Z -> bool) (arr : list A) (a : A) :
  In a (filterIndexed p arr)
  <-> exists k : nat, nth_error arr k = Some a /\ p a (Z.of_nat k) = true.
Proof. unfold filterIndexed. now rewrite filterIndexedFrom_In. Qed.

Lemma same_eq (nums1 nums2 : list Z) : same nums1 nums2 = true -> nums1 = nums2.
Proof.
  unfold same. destruct (Nat.eqb_spec (length nums1) (length nums2)) as [Hlen|];
    [|discriminate].
  revert nums2 Hlen. induction nums1 as [|a nums1 IH]; intros [|b nums2] Hlen H;
    try discriminate; [reflexivity|].
  cbn [combine forallb fst snd] in H. apply andb_prop in H. destruct H as [Hab H].
  apply Z.eqb_eq in Hab. subst b. f_equal. apply IH; [now injection Hlen | exact H].
Qed.

(** Once the frame has run, the stuck refs hold the lists the frame was
    given. *)
Lemma animationFrame_stuck {Cell : Type} (P : Props Cell) (s : State) (f : Frame) :
  rafPidRef s = Some f ->
  stuckRowsRef (animationFrame P s) = frameStuckRows f
  /\ stuckColsRef (animationFrame P s) = frameStuckCols f.
Proof.
  intros Hraf. unfold animationFrame. rewrite Hraf. cbv zeta.
  match goal with
  | |- context [if ?c || ?d then _ else _] => destruct (c || d) eqn:Echanged
  end.
  - split; repeat match goal with
                  | |- context [if ?c then _ else _] => destruct c
                  end; reflexivity.
  - apply orb_false_iff in Echanged. destruct Echanged as [Echanged Ecols].
    apply orb_false_iff in Echanged. destruct Echanged as [_ Erows].
    apply negb_false_iff, same_eq in Ecols, Erows.
    split; [rewrite Erows | rewrite Ecols];
      repeat match goal with
             | |- context [if ?c then _ else _] => destruct c
             end; reflexivity.
Qed.

(** The sticky indices are put in ascending order, and the sticky offset
    at a position is the thickness of the sticky rows before it. *)
Lemma insertSorted_permutation (a : Z) (sorted : list Z) :
  Permutation (insertSorted a sorted) (a :: sorted).
Proof.
  induction sorted as [|b rest IH]; cbn [insertSorted]; [reflexivity|].
  destruct (a <=? b); [reflexivity|].
  rewrite IH. apply perm_swap.
Qed.

Lemma sortAscending_permutation (arr : list Z) : Permutation (sortAscending arr) arr.
Proof.
  induction arr as [|a arr IH]; cbn [sortAscending fold_right]; [reflexivity|].
  rewrite insertSorted_permutation. now apply perm_skip.
Qed.

Lemma insertSorted_sorted (a : Z) (sorted : list Z) :
  Sorted Z.le sorted -> Sorted Z.le (insertSorted a sorted).
Proof.
  induction 1 as [|b rest Hrest IH Hhd]; cbn [insertSorted].
  - repeat constructor.
  - destruct (Z.leb_spec a b).
    + constructor; [now constructor | now constructor].
    + constructor; [exact IH|].
      destruct rest as [|c rest]; cbn [insertSorted].
      * constructor. lia.
      * destruct (a <=? c); constructor; [lia | now inversion Hhd].
Qed.

Lemma sortAscending_sorted (arr : list Z) : Sorted Z.le (sortAscending arr).
Proof.
  induction arr as [|a arr IH]; cbn [sortAscending fold_right]; [constructor|].
  now apply insertSorted_sorted.
Qed.

Lemma stickyRowOffsets_sums {Cell : Type} (P : Props Cell) :
  stickyRowOffsets P
  = map (sumBefore (map (fun r => (rowHeights P).[r]%js) (sortedStickyRows P)))
      (seq 0 (length (sortedStickyRows P))).
Proof. unfold stickyRowOffsets. now rewrite calculateOffsets_sums, length_map. Qed.

Lemma stickyColOffsets_sums {Cell : Type} (P : Props Cell) :
  stickyColOffsets P
  = map (sumBefore (map (fun c => (colWidths P).[c]%js) (sortedStickyCols P)))
      (seq 0 (length (sortedStickyCols P))).
Proof. unfold stickyColOffsets. now rewrite calculateOffsets_sums, length_map. Qed.

(** C5.  Row 3 is sticky at sorted position 1, behind the sticky row 0:
    its natural offset is 120 and the thickness before it 40.  At the
    offset 80 the worded test [80 >= 120 - 40] holds, and row 3 is not
    stuck. *)
Lemma stuckRowMembership_fails :
  ~ Stated.stuckRowMembership Scenario.stickyGrid (int 80).
Proof.
  unfold Stated.stuckRowMembership. intros H.
  destruct (H 3 1%nat eq_refl) as [_ Hin].
  specialize (Hin eq_refl). vm_compute in Hin.
  destruct Hin as [E|[]]. discriminate E.
Qed.

(** C5, as the code has it.  After an accepted [setOffset] and its frame,
    a row [r] is in the stuck rows exactly when it stands at some
    position [i] of the sorted sticky rows with
    [rowOffsets[r] - stickyRowOffsets[i] < offset.y], a strict
    inequality; and alike for the columns with [offset.x]. *)
Theorem stuck_membership {Cell : Type} (P : Props Cell)
    (cE rE kE force : bool) (offset : Point) (s : State) :
  fst (setOffset P cE rE kE offset force s) = true ->
  let s' := animationFrame P (snd (setOffset P cE rE kE offset force s)) in
  (forall r : Z,
      In r (stuckRowsRef s')
      <-> exists i : nat,
            nth_error (sortedStickyRows P) i = Some r
            /\ ((rowOffsets P).[r] - (stickyRowOffsets P).[Z.of_nat i] <? y offset)%js = true)
  /\ (forall c : Z,
         In c (stuckColsRef s')
         <-> exists i : nat,
               nth_error (sortedStickyCols P) i = Some c
               /\ ((colOffsets P).[c] - (stickyColOffsets P).[Z.of_nat i] <? x offset)%js = true).
Proof.
  intros Haccepted. cbv zeta.
  rewrite (setOffset_accepted P _ _ _ _ _ _ Haccepted).
  match goal with
  | |- context [animationFrame P ?st] =>
      edestruct (animationFrame_stuck P st) as [Hrows Hcols]; [reflexivity|]
  end.
  rewrite Hrows, Hcols. cbn [frameStuckRows frameStuckCols].
  split; intros i; unfold stuckRowsAt, stuckColsAt; apply filterIndexed_In.
Qed.

Lemma stuck_membership_witness :
  let s := Scenario.mounted Scenario.stickyGrid 80 100 in
  let s' := animationFrame Scenario.stickyGrid
              (snd (setOffset Scenario.stickyGrid true true true (Scenario.point 0 81)
                      false s)) in
  In 3 (stuckRowsRef s').
Proof.
  cbv zeta.
  assert (Haccepted : fst (setOffset Scenario.stickyGrid true true true
                             (Scenario.point 0 81) false
                             (Scenario.mounted Scenario.stickyGrid 80 100)) = true)
    by (vm_compute; reflexivity).
  destruct (stuck_membership Scenario.stickyGrid true true true false
              (Scenario.point 0 81) (Scenario.mounted Scenario.stickyGrid 80 100)
              Haccepted) as [Hrows _].
  apply (proj2 (Hrows 3)).
  exists 1%nat. split; vm_compute; reflexivity.
Defined.

(** ** Numeric equality *)

Lemma equiv_refl (a : num) : equiv a a.
Proof. destruct a; cbn; [apply Qeq_refl | exact I]. Qed.

Lemma equiv_sym (a b : num) : equiv a b -> equiv b a.
Proof. destruct a, b; cbn; auto using Qeq_sym. Qed.

Lemma equiv_trans (a b c : num) : equiv a b -> equiv b c -> equiv a c.
Proof. destruct a, b, c; cbn; try tauto. apply Qeq_trans. Qed.

Lemma eqs_equiv (a b : num) : (a === b)%js = true -> equiv a b.
Proof.
  destruct a, b; cbn; try discriminate. apply Qeq_bool_iff.
Qed.

Lemma neqs_false_equiv (a b : num) : (a !== b)%js = false -> equiv a b.
Proof. unfold neqs. intros H. apply negb_false_iff in H. now apply eqs_equiv. Qed.

(** Clamping after adding [0 * speed] is clamping. *)
Lemma clamp_zero_delta (bound p : num) (k : Q) :
  equiv (min bound (max (int 0) (p + int 0 * fin k)%js))
        (min bound (max (int 0) p)).
Proof.
  destruct bound as [m|], p as [q|]; cbn; try exact I.
  assert (E : (q + inject_Z 0 * k == q)%Q) by (unfold inject_Z; ring).
  now rewrite E.
Qed.

(** A value within [0, bound] is its own clamp. *)
Lemma clamp_in_range (m q : Q) :
  (0 <= q)%Q -> (q <= m)%Q ->
  equiv (min (fin m) (max (int 0) (fin q))) (fin q).
Proof.
  intros H0 Hm. cbn.
  rewrite Q.max_r by (unfold inject_Z; exact H0).
  now rewrite Q.min_r.
Qed.

(** ** The offset controller *)

Section Scroll.
Context {Cell : Type} (P : Props Cell).

Lemma effectiveDelta_zero (size delta : num) :
  (size === int 0)%js = true -> effectiveDelta size delta = int 0.
Proof. unfold effectiveDelta. now intros ->. Qed.

Lemma scroll_accepted (deltaX deltaY : num) (s : State) :
  scrollAccepted P deltaX deltaY s = true ->
  offsetRef (scroll P deltaX deltaY s) = candidateOffset P deltaX deltaY s.
Proof.
  unfold scrollAccepted, scroll. intros H.
  apply andb_prop in H. destruct H as [Hfits Hset].
  apply negb_true_iff in Hfits. rewrite Hfits.
  pose proof (setOffset_accepted P _ _ _ _ _ _ Hset) as E.
  destruct (setOffset P (cellsElmnt (elements s)) (stickyRowsElmnt (elements s))
              (stickyColsElmnt (elements s)) (candidateOffset P deltaX deltaY s) false s)
    as [accepted s1].
  cbn [fst snd] in *. subst accepted s1.
  destruct (onScrollStop P); reflexivity.
Qed.

Lemma scroll_not_accepted (deltaX deltaY : num) (s : State) :
  scrollAccepted P deltaX deltaY s = false ->
  scroll P deltaX deltaY s = s.
Proof.
  unfold scrollAccepted, scroll. intros H.
  destruct (fitsInWindow P s); [reflexivity|].
  cbn [negb andb] in H.
  pose proof (setOffset_rejected P _ _ _ _ _ _ H) as E.
  destruct (setOffset P (cellsElmnt (elements s)) (stickyRowsElmnt (elements s))
              (stickyColsElmnt (elements s)) (candidateOffset P deltaX deltaY s) false s)
    as [accepted s1].
  cbn [fst snd] in *. now subst accepted s1.
Qed.

(** A call of [scroll] that gets past the first test with the containers
    attached leaves an offset numerically equal to the candidate. *)
Lemma scroll_reaches_candidate (deltaX deltaY : num) (s : State) :
  fitsInWindow P s = false ->
  cellsElmnt (elements s) && stickyRowsElmnt (elements s)
    && stickyColsElmnt (elements s) = true ->
  equiv (x (offsetRef (scroll P deltaX deltaY s))) (x (candidateOffset P deltaX deltaY s))
  /\ equiv (y (offsetRef (scroll P deltaX deltaY s))) (y (candidateOffset P deltaX deltaY s)).
Proof.
  intros Hfits Hatt.
  destruct (scrollAccepted P deltaX deltaY s) eqn:Hacc.
  - rewrite (scroll_accepted _ _ _ Hacc). split; apply equiv_refl.
  - rewrite (scroll_not_accepted _ _ _ Hacc).
    unfold scrollAccepted, setOffset in Hacc.
    rewrite Hfits, Hatt in Hacc. cbn [negb andb orb fst] in Hacc.
    destruct (x (offsetRef s) !== x (candidateOffset P deltaX deltaY s))%js eqn:Ex;
      [discriminate|].
    destruct (y (offsetRef s) !== y (candidateOffset P deltaX deltaY s))%js eqn:Ey;
      [discriminate|].
    split; now apply neqs_false_equiv.
Qed.

End Scroll.

(** C4.  With a viewport 0 wide and 100 high, [scroll(10, 10)] on the
    ten-row grid is accepted and stores the x offset [0], not the clamped
    [0 + 10 * 1 = 10] of the worded candidate. *)
Lemma offsetRoundTrip_fails :
  ~ Stated.offsetRoundTrip Scenario.tallGrid (int 10) (int 10)
      (Scenario.mounted Scenario.tallGrid 0 100).
Proof.
  unfold Stated.offsetRoundTrip. intros H.
  destruct H as [Hx _]; [reflexivity|].
  vm_compute in Hx. discriminate Hx.
Qed.

(** C4, as the code has it.  When [scroll(deltaX, deltaY)] is accepted,
    the offset read right after is exactly
    [min(maxOffset, max(0, previous + effectiveDelta * scrollSpeed))] on
    each axis, where the effective delta is [0] on an axis whose viewport
    size is [0] and the raw delta otherwise. *)
Theorem scroll_accepted_offset {Cell : Type} (P : Props Cell)
    (deltaX deltaY : num) (s : State) :
  scrollAccepted P deltaX deltaY s = true ->
  x (offsetRef (scroll P deltaX deltaY s))
  = min (x (maxOffset P (renderedWindowSize s)))
      (max (int 0)
         (x (offsetRef s)
          + (if (width (windowSizeRef s) === int 0)%js then int 0 else deltaX)
            * scrollSpeed P)%js)
  /\ y (offsetRef (scroll P deltaX deltaY s))
     = min (y (maxOffset P (renderedWindowSize s)))
         (max (int 0)
            (y (offsetRef s)
             + (if (height (windowSizeRef s) === int 0)%js then int 0 else deltaY)
               * scrollSpeed P)%js).
Proof.
  intros H. rewrite (scroll_accepted P _ _ _ H). split; reflexivity.
Qed.

Lemma scroll_accepted_offset_witness :
  let s := Scenario.mounted Scenario.tallGrid 0 100 in
  x (offsetRef (scroll Scenario.tallGrid (int 10) (int 10) s)) = int 0
  /\ y (offsetRef (scroll Scenario.tallGrid (int 10) (int 10) s)) = int 10.
Proof.
  exact (scroll_accepted_offset Scenario.tallGrid (int 10) (int 10)
           (Scenario.mounted Scenario.tallGrid 0 100) eq_refl).
Defined.

(** C10.  With no rows and the offset [(5, 0)] kept from an earlier mount,
    [scroll] returns at its first test before any measurement: the x
    offset stays [5], and [5] clamped to [0, maxOffset.x] = [0, 0] is
    [0]. *)
Lemma zeroViewportClamp_fails :
  ~ Stated.zeroViewportClamp Scenario.emptyGridRestored (int 1) (int 1)
      (initialState Scenario.emptyGridRestored Scenario.attached).
Proof.
  unfold Stated.zeroViewportClamp. intros H.
  specialize (H eq_refl). vm_compute in H. discriminate H.
Qed.

(** C10, as the code has it.  On an axis whose viewport size is [0]:
    a call of [scroll] that gets past the fits-in-window test, with the
    containers attached, leaves the offset component numerically equal to
    the previous one clamped to [0, maxOffset]; and every call of [scroll]
    leaves a previous component that lies within [0, maxOffset]
    numerically unchanged.  The scroll speed is a finite number. *)
Theorem scroll_zero_viewport_axis {Cell : Type} (P : Props Cell)
    (deltaX deltaY : num) (s : State) (speed : Q) :
  scrollSpeed P = fin speed ->
  ((width (windowSizeRef s) === int 0)%js = true ->
   (fitsInWindow P s = false ->
    cellsElmnt (elements s) && stickyRowsElmnt (elements s)
      && stickyColsElmnt (elements s) = true ->
    equiv (x (offsetRef (scroll P deltaX deltaY s)))
      (min (x (maxOffset P (renderedWindowSize s))) (max (int 0) (x (offsetRef s)))))
   /\ (forall previous bound : Q,
         x (offsetRef s) = fin previous ->
         x (maxOffset P (renderedWindowSize s)) = fin bound ->
         (0 <= previous)%Q -> (previous <= bound)%Q ->
         equiv (x (offsetRef (scroll P deltaX deltaY s))) (x (offsetRef s))))
  /\ ((height (windowSizeRef s) === int 0)%js = true ->
      (fitsInWindow P s = false ->
       cellsElmnt (elements s) && stickyRowsElmnt (elements s)
         && stickyColsElmnt (elements s) = true ->
       equiv (y (offsetRef (scroll P deltaX deltaY s)))
         (min (y (maxOffset P (renderedWindowSize s))) (max (int 0) (y (offsetRef s)))))
      /\ (forall previous bound : Q,
            y (offsetRef s) = fin previous ->
            y (maxOffset P (renderedWindowSize s)) = fin bound ->
            (0 <= previous)%Q -> (previous <= bound)%Q ->
            equiv (y (offsetRef (scroll P deltaX deltaY s))) (y (offsetRef s)))).
Proof.
  intros Hspeed. split; intros Hzero.
  - assert (Hcand : equiv (x (candidateOffset P deltaX deltaY s))
                      (min (x (maxOffset P (renderedWindowSize s)))
                         (max (int 0) (x (offsetRef s))))).
    { unfold candidateOffset. cbn [x].
      rewrite (effectiveDelta_zero _ _ Hzero), Hspeed. apply clamp_zero_delta. }
    split.
    + intros Hfits Hatt.
      destruct (scroll_reaches_candidate P deltaX deltaY s Hfits Hatt) as [Hx _].
      exact (equiv_trans _ _ _ Hx Hcand).
    + intros previous bound Hprev Hbound H0 Hle.
      destruct (scrollAccepted P deltaX deltaY s) eqn:Hacc.
      * rewrite (scroll_accepted P _ _ _ Hacc).
        apply (equiv_trans _ _ _ Hcand).
        rewrite Hprev, Hbound. now apply clamp_in_range.
      * rewrite (scroll_not_accepted P _ _ _ Hacc). apply equiv_refl.
  - assert (Hcand : equiv (y (candidateOffset P deltaX deltaY s))
                      (min (y (maxOffset P (renderedWindowSize s)))
                         (max (int 0) (y (offsetRef s))))).
    { unfold candidateOffset. cbn [y].
      rewrite (effectiveDelta_zero _ _ Hzero), Hspeed. apply clamp_zero_delta. }
    split.
    + intros Hfits Hatt.
      destruct (scroll_reaches_candidate P deltaX deltaY s Hfits Hatt) as [_ Hy].
      exact (equiv_trans _ _ _ Hy Hcand).
    + intros previous bound Hprev Hbound H0 Hle.
      destruct (scrollAccepted P deltaX deltaY s) eqn:Hacc.
      * rewrite (scroll_accepted P _ _ _ Hacc).
        apply (equiv_trans _ _ _ Hcand).
        rewrite Hprev, Hbound. now apply clamp_in_range.
      * rewrite (scroll_not_accepted P _ _ _ Hacc). apply equiv_refl.
Qed.

Lemma scroll_zero_viewport_axis_witness :
  let s := initialState Scenario.tallGrid Scenario.attached in
  let s' := scroll Scenario.tallGrid (int 10) (int 10) s in
  equiv (x (offsetRef s'))
    (min (x (maxOffset Scenario.tallGrid (renderedWindowSize s)))
       (max (int 0) (x (offsetRef s))))
  /\ equiv (x (offsetRef s')) (x (offsetRef s)).
Proof.
  destruct (scroll_zero_viewport_axis Scenario.tallGrid (int 10) (int 10)
              (initialState Scenario.tallGrid Scenario.attached) 1%Q eq_refl)
    as [Hx _].
  destruct (Hx eq_refl) as [Hclamp Hkeep].
  split.
  - apply Hclamp; reflexivity.
  - apply (Hkeep 0%Q 80%Q); [reflexivity | reflexivity | | ]; vm_compute; discriminate.
Defined.

(** ** The clamp of [scroll] and its upper bound

    With an upper bound that is not negative the clamp keeps an accepted
    offset within [0, maxOffset].  On an axis the grid fits on with room
    to spare the bound is negative, and the clamp returns the bound. *)

Lemma clamp_within (m : Q) (v : num) :
  (0 <= m)%Q ->
  match min (fin m) (max (int 0) v) with
  | Some c => (0 <= c)%Q /\ (c <= m)%Q
  | None => v = None
  end.
Proof.
  intros Hm. destruct v as [q|]; cbn; [|reflexivity].
  destruct (Q.min_spec m (Qmax (inject_Z 0) q)) as [[H1 E]|[H1 E]];
    destruct (Q.max_spec (inject_Z 0) q) as [[H2 E']|[H2 E']];
    rewrite E; rewrite E' in *; unfold inject_Z in *; split; lra.
Qed.

Lemma scroll_accepted_in_range {Cell : Type} (P : Props Cell)
    (deltaX deltaY : num) (s : State) (boundX boundY : Q) :
  scrollAccepted P deltaX deltaY s = true ->
  maxOffset P (renderedWindowSize s) = {| x := fin boundX; y := fin boundY |} ->
  (0 <= boundX)%Q -> (0 <= boundY)%Q ->
  match x (offsetRef (scroll P deltaX deltaY s)) with
  | Some c => (0 <= c)%Q /\ (c <= boundX)%Q
  | None => True
  end
  /\ match y (offsetRef (scroll P deltaX deltaY s)) with
     | Some c => (0 <= c)%Q /\ (c <= boundY)%Q
     | None => True
     end.
Proof.
  intros Hacc Hmax Hx Hy. rewrite (scroll_accepted P _ _ _ Hacc).
  unfold candidateOffset. rewrite Hmax. cbn [x y].
  split.
  - match goal with
    | |- match min (fin boundX) (max (int 0) ?v) with _ => _ end =>
        pose proof (clamp_within boundX v Hx) as H;
        destruct (min (fin boundX) (max (int 0) v)); [exact H | exact I]
    end.
  - match goal with
    | |- match min (fin boundY) (max (int 0) ?v) with _ => _ end =>
        pose proof (clamp_within boundY v Hy) as H;
        destruct (min (fin boundY) (max (int 0) v)); [exact H | exact I]
    end.
Qed.

Lemma clamp_negative_bound (m v : Q) :
  (m < 0)%Q -> equiv (min (fin m) (max (int 0) (fin v))) (fin m).
Proof.
  intros Hm. cbn.
  destruct (Q.max_spec (inject_Z 0) v) as [[H E]|[H E]];
    rewrite Q.min_l; try reflexivity; rewrite E; unfold inject_Z in *; lra.
Qed.

(** An accepted [scroll] leaves the negative bound itself on such an
    axis, whatever the delta. *)
Lemma scroll_accepted_negative_bound {Cell : Type} (P : Props Cell)
    (deltaX deltaY : num) (s : State) (bound previous delta speed : Q) :
  scrollAccepted P deltaX deltaY s = true ->
  y (maxOffset P (renderedWindowSize s)) = fin bound -> (bound < 0)%Q ->
  y (offsetRef s) = fin previous ->
  effectiveDelta (height (windowSizeRef s)) deltaY = fin delta ->
  scrollSpeed P = fin speed ->
  equiv (y (offsetRef (scroll P deltaX deltaY s))) (fin bound).
Proof.
  intros Hacc Hbound Hneg Hprev Hdelta Hspeed.
  rewrite (scroll_accepted P _ _ _ Hacc). unfold candidateOffset. cbn [y].
  rewrite Hbound, Hprev, Hdelta, Hspeed.
  apply (clamp_negative_bound bound (previous + delta * speed) Hneg).
Qed.

(** C2.  In a viewport of 100 by 100 the grid of one row and three columns
    fits on the y axis (40 <= 100) and not on the x axis (240 > 100), so
    [scroll] does not return early and [maxOffset.y] is [-60].
    [scroll(10, 10)] from the offset [(0, 0)] then stores the offset
    [(10, -60)]: the y component leaves [0], goes below [0], and the
    scroll is not a no-op on the axis the grid fits on. *)
Theorem scroll_leaves_range_on_fitting_axis :
  let s := Scenario.mounted Scenario.wideGrid 100 100 in
  let s' := scroll Scenario.wideGrid (int 10) (int 10) s in
  (height (totalSize Scenario.wideGrid) <=? height (windowSizeRef s))%js = true
  /\ offsetRef s = Scenario.point 0 0
  /\ maxOffset Scenario.wideGrid (renderedWindowSize s) = Scenario.point 140 (-60)
  /\ offsetRef s' = Scenario.point 10 (-60)
  /\ (y (offsetRef s') <? int 0)%js = true.
Proof. vm_compute. repeat split; reflexivity. Qed.

(** ** The translate of the frame

    With an offset and sizes that are not negative the translate is never
    positive; the offset [scroll] leaves on an axis with a negative
    upper bound makes it positive. *)

Section Monotone.
Variable sizes : list num.
Hypothesis sizes_nonneg : nonNegativeSizes sizes.

Lemma size_nonneg (k : nat) :
  (k < length sizes)%nat ->
  exists q : Q, (sizes.[Z.of_nat k])%js = fin q /\ (0 <= q)%Q.
Proof.
  intros Hk. rewrite get_of_nat.
  destruct (nth_error sizes k) as [v|] eqn:E.
  - unfold nonNegativeSizes in sizes_nonneg. rewrite Forall_forall in sizes_nonneg.
    apply (sizes_nonneg v). eapply nth_error_In, E.
  - apply nth_error_None in E. lia.
Qed.

Lemma sumBefore_nonneg (j : nat) :
  (j <= length sizes)%nat ->
  exists q : Q, sumBefore sizes j = fin q /\ (0 <= q)%Q.
Proof.
  induction j as [|j IH]; intros Hj.
  - exists 0%Q. split; [reflexivity | lra].
  - destruct IH as (qj & Ej & H0); [lia|].
    destruct (size_nonneg j) as (q & Eq & Hq); [lia|].
    exists (qj + q)%Q. rewrite sumBefore_S, Ej, Eq by lia.
    split; [reflexivity | lra].
Qed.

Lemma sumBefore_monotone (i j : nat) :
  (i <= j <= length sizes)%nat ->
  exists qi qj : Q,
    sumBefore sizes i = fin qi /\ sumBefore sizes j = fin qj
    /\ (0 <= qi)%Q /\ (qi <= qj)%Q.
Proof.
  intros [Hij Hj]. induction Hij as [|j Hij IH].
  - destruct (sumBefore_nonneg i Hj) as (q & E & H0).
    exists q, q. repeat split; try assumption. lra.
  - destruct IH as (qi & qj & Ei & Ej & H0 & Hle); [lia|].
    destruct (size_nonneg j) as (q & Eq & Hq); [lia|].
    exists qi, (qj + q)%Q.
    rewrite sumBefore_S, Ej, Eq by lia.
    repeat split; try assumption. lra.
Qed.

(** The offset table of such sizes does not decrease. *)
Lemma calculateOffsets_monotone (i j : Z) :
  0 <= i <= j -> j < Z.of_nat (length sizes) ->
  exists qi qj : Q,
    ((calculateOffsets sizes).[i])%js = fin qi
    /\ ((calculateOffsets sizes).[j])%js = fin qj
    /\ (0 <= qi)%Q /\ (qi <= qj)%Q.
Proof.
  intros Hij Hj.
  destruct (sumBefore_monotone (Z.to_nat i) (Z.to_nat j)) as (qi & qj & Ei & Ej & H);
    [lia|].
  exists qi, qj. rewrite calculateOffsets_sums.
  rewrite <- (Z2Nat.id i), <- (Z2Nat.id j) by lia.
  rewrite !get_map_seq by lia. now rewrite Ei, Ej.
Qed.

End Monotone.

Lemma translate_le (o q : Q) :
  (q <= o)%Q -> (- fin o + fin q >? int 0)%js = false.
Proof.
  intros H. unfold gt, lt, cmp, neg, add, lift2, fin, int, Qlt_bool. cbn [option_map].
  apply negb_false_iff, Qle_bool_iff. unfold inject_Z. lra.
Qed.

Lemma axis_translate_nonpositive (sizes : list num) (o : Q) (from : Z) :
  nonNegativeSizes sizes ->
  (0 <= o)%Q ->
  0 <= from <= Z.max 0 (visibleFromAxis (calculateOffsets sizes) (fin o)) ->
  (- fin o + orZero (calculateOffsets sizes).[from] >? int 0)%js = false.
Proof.
  intros Hsizes Ho Hfrom.
  pose proof (visibleFromAxis_bounds (calculateOffsets sizes) (fin o)) as (Hlow & _ & Hhigh).
  pose proof (visibleFromAxis_exit (calculateOffsets sizes) (fin o)) as Hexit.
  rewrite length_calculateOffsets in Hhigh.
  destruct (Z_lt_ge_dec from (Z.of_nat (length sizes))) as [Hin|Hout].
  - destruct (Z_lt_ge_dec (visibleFromAxis (calculateOffsets sizes) (fin o)) 0) as [Hneg|Hpos].
    + assert (from = Z.of_nat 0) as -> by lia.
      rewrite calculateOffsets_sums, get_map_seq by lia.
      change (sumBefore sizes 0) with (fin 0). cbn [orZero Qeq_bool]. now apply translate_le.
    + destruct (calculateOffsets_monotone sizes Hsizes from
                  (visibleFromAxis (calculateOffsets sizes) (fin o)))
        as (qf & qv & Ef & Ev & H0 & Hle); [lia | lia |].
      rewrite Ev in Hexit. unfold gt, lt, cmp, fin, Qlt_bool in Hexit.
      apply negb_false_iff, Qle_bool_iff in Hexit.
      rewrite Ef. unfold orZero, fin. destruct (Qeq_bool qf 0); apply translate_le; lra.
  - rewrite get_beyond by (rewrite length_calculateOffsets; lia).
    cbn [orZero]. now apply translate_le.
Qed.

Lemma animationFrame_translate {Cell : Type} (P : Props Cell) (s : State) (f : Frame) :
  rafPidRef s = Some f ->
  rowsTranslateRef (animationFrame P s)
  = {| x := (- x (frameOffset f) + orZero (colOffsets P).[fromCol (frameWindow f)])%js;
       y := (- y (frameOffset f) + orZero (rowOffsets P).[fromRow (frameWindow f)])%js |}.
Proof.
  intros Hraf. unfold animationFrame. rewrite Hraf. cbv zeta.
  repeat match goal with
         | |- context [if ?c then _ else _] => destruct c
         end; reflexivity.
Qed.

(** With row heights that are finite and not negative, a batch size and a
    viewport height that are not negative, and an offset [y] that is
    finite and not negative, the frame of an accepted [setOffset]
    computes a [translateY] that is not positive. *)
Lemma translateY_nonpositive {Cell : Type} (P : Props Cell)
    (cE rE kE force : bool) (offset : Point) (s : State) (o : Q) :
  0 <= renderBatchSize P ->
  nonNegativeSizes (rowHeights P) ->
  y offset = fin o -> (0 <= o)%Q ->
  (height (windowSizeRef s) <? int 0)%js = false ->
  fst (setOffset P cE rE kE offset force s) = true ->
  (y (rowsTranslateRef (animationFrame P (snd (setOffset P cE rE kE offset force s))))
   >? int 0)%js = false.
Proof.
  intros Hbatch Hsizes Hy Ho Hheight Haccepted.
  rewrite (setOffset_accepted P _ _ _ _ _ _ Haccepted).
  erewrite animationFrame_translate by reflexivity.
  cbn [y frameOffset frameWindow]. rewrite resolveWindow_axes. cbv zeta.
  cbn [fromRow]. rewrite Hy.
  pose proof (visibleFromAxis_bounds (rowOffsets P) (fin o)) as (Hlow & _ & _).
  pose proof (visibleFrom_le_visibleTo (rowOffsets P) (fin o) _ Hheight) as Hle.
  pose proof (visibleToAxis_bounds (rowOffsets P) (fin o) (height (windowSizeRef s))) as Hto.
  pose proof (expandAxis_bounds (renderBatchSize P) (Z.of_nat (length (rowOffsets P)))
                (row (visibleFrom P offset)) (row (visibleTo P (windowSizeRef s) offset))
                (fromRow (renderWindowRef s)) (toRow (renderWindowRef s))) as Haxis.
  unfold visibleFrom, visibleTo in *. cbn [row] in *. rewrite Hy in *.
  rewrite <- length_rowOffsets in *. cbv zeta in Haxis.
  specialize (Haxis Hbatch Hlow Hle Hto).
  unfold rowOffsets in *. apply axis_translate_nonpositive; [assumption | assumption | lia].
Qed.

(** C6.  In a viewport of 100 by 100, on the grid of one row and three
    columns (240 by 40), [scroll(10, 10)] from the offset [(0, 0)] stores
    the offset [(10, -60)], and the frame that follows computes
    [translateY = -offset.y + rowOffsets[fromRow] = 60], which is
    positive; the frame reports it on the console as [ProblemY]. *)
Theorem translateY_positive_after_scroll :
  let s := Scenario.mounted Scenario.wideGrid 100 100 in
  let s' := run Scenario.wideGrid [Wheel (int 10) (int 10); AnimationFrame] s in
  offsetRef s' = Scenario.point 10 (-60)
  /\ fromRow (renderWindowRef s') = 0
  /\ (- y (offsetRef s') + (rowOffsets Scenario.wideGrid).[fromRow (renderWindowRef s')])%js
     = int 60
  /\ rowsTranslateRef s' = Scenario.point (-10) 60
  /\ (y (rowsTranslateRef s') >? int 0)%js = true
  /\ console s' = [ProblemY (int 60) (-1) 1].
Proof. vm_compute. repeat split; reflexivity. Qed.

(** ** The grid without rows *)

Section EmptyRows.
Context {Cell : Type} (P : Props Cell).
Hypothesis rows_empty : rows P = [].
Hypothesis batch_nonneg : 0 <= renderBatchSize P.

Lemma empty_numRows : numRows P = 0%nat.
Proof. unfold numRows. now rewrite rows_empty. Qed.

Lemma empty_numCols : numCols P = 0%nat.
Proof. unfold numCols. now rewrite rows_empty. Qed.

Lemma empty_rowOffsets : rowOffsets P = [].
Proof.
  unfold rowOffsets, rowHeights. rewrite empty_numRows.
  destruct (rowHeight P); reflexivity.
Qed.

Lemma empty_colOffsets : colOffsets P = [].
Proof.
  unfold colOffsets, colWidths. rewrite empty_numCols.
  destruct (colWidth P); reflexivity.
Qed.

Lemma empty_totalSize : totalSize P = {| width := int 0; height := int 0 |}.
Proof. unfold totalSize. now rewrite empty_numRows, empty_numCols. Qed.

Lemma visibleFromAxis_nil (o : num) : visibleFromAxis [] o = -1.
Proof. unfold visibleFromAxis. cbn. destruct o; reflexivity. Qed.

Lemma visibleToAxis_nil (o size : num) : visibleToAxis [] 0 o size = 0.
Proof. unfold visibleToAxis. destruct (size === int 0)%js; reflexivity. Qed.

Lemma empty_resolveWindow (windowSize : Size) (offset : Point) :
  resolveWindow P windowSize emptyWindow offset = emptyWindow.
Proof.
  rewrite resolveWindow_axes. cbv zeta.
  unfold visibleFrom, visibleTo. cbn [row col].
  rewrite empty_rowOffsets, empty_colOffsets, empty_numRows, empty_numCols.
  rewrite !visibleFromAxis_nil, !visibleToAxis_nil.
  unfold emptyWindow. cbn [fromRow toRow fromCol toCol length Z.of_nat].
  rewrite (expandAxis_backward (renderBatchSize P) 0 (-1) 0 0 0) by lia.
  cbn [fst snd]. f_equal; lia.
Qed.

Lemma scroll_fits (deltaX deltaY : num) (s : State) :
  fitsInWindow P s = true -> scroll P deltaX deltaY s = s.
Proof. unfold scroll. now intros ->. Qed.

Lemma emptyInvariant_initial (els : Elements) : emptyInvariant P (initialState P els).
Proof.
  unfold emptyInvariant, fitsInWindow. rewrite empty_totalSize.
  repeat split; try reflexivity; discriminate.
Qed.

Lemma animationFrame_keeps (s : State) :
  offsetRef (animationFrame P s) = offsetRef s
  /\ windowSizeRef (animationFrame P s) = windowSizeRef s
  /\ rafPidRef (animationFrame P s) = None \/ animationFrame P s = s.
Proof.
  unfold animationFrame. destruct (rafPidRef s) as [f|]; [left | now right].
  cbv zeta.
  repeat split;
    repeat match goal with
           | |- context [if ?c then _ else _] => destruct c
           end; reflexivity.
Qed.

Lemma emptyInvariant_step (s : State) (e : Event) :
  measuredNonNegative e -> emptyInvariant P s -> emptyInvariant P (step P s e).
Proof.
  intros Hmeasured Hinv. pose proof Hinv as (Hoffset & Hwindow & Hfits & Hframe).
  destruct e as [| w h | | dx dy | t cx cy | t cx cy | t | p]; cbn [step].
  - (* Render *)
    exact Hinv.
  - (* Resize *)
    destruct Hmeasured as [Hw Hh].
    unfold reflow. destruct (rootElmnt (observerRefs s) && cellsElmnt (observerRefs s));
      [|exact Hinv].
    cbv zeta. unfold setOffset.
    match goal with
    | |- context [if ?c then _ else _] => destruct c
    end; cbn [snd].
    + unfold emptyInvariant, fitsInWindow. rewrite empty_totalSize.
      cbn [offsetRef renderWindowRef windowSizeRef rafPidRef set_rafPidRef
             set_offsetRef set_windowSizeRef width height].
      rewrite Hw, Hh, Hoffset, Hwindow.
      split; [reflexivity|]. split; [reflexivity|]. split; [reflexivity|].
      intros f E. injection E as <-. cbn [frameWindow frameRenderWindow].
      split; [apply empty_resolveWindow | reflexivity].
    + unfold emptyInvariant, fitsInWindow. rewrite empty_totalSize.
      cbn [offsetRef renderWindowRef windowSizeRef rafPidRef
             set_windowSizeRef width height].
      rewrite Hw, Hh. auto.
  - (* AnimationFrame *)
    destruct (animationFrame_keeps s) as [(Ho & Hs & Hr)|E]; [|rewrite E; exact Hinv].
    split; [now rewrite Ho|]. split; [|split].
    + destruct (rafPidRef s) as [f|] eqn:Hraf.
      * destruct (Hframe f eq_refl) as [Hfw Hfr].
        rewrite (animationFrame_window P s f Hraf); [exact Hfw | now rewrite Hfr].
      * unfold animationFrame. now rewrite Hraf.
    + unfold fitsInWindow in *. now rewrite Hs.
    + intros f E. rewrite Hr in E. discriminate.
  - (* Wheel *)
    unfold onWheel. rewrite scroll_fits by assumption. exact Hinv.
  - (* TouchStart *)
    unfold onTouchStart. destruct (pid (touchInfoRef s)); exact Hinv.
  - (* TouchMove *)
    unfold onTouchMove. rewrite scroll_fits by assumption. exact Hinv.
  - (* TouchEnd *)
    exact Hinv.
  - (* IntervalTick *)
    unfold intervalTick. destruct (lookupInterval p s) as [speed|]; [|exact Hinv].
    rewrite scroll_fits by assumption. cbv zeta.
    destruct (decayStops (decayedSpeed speed)); exact Hinv.
Qed.

Lemma emptyInvariant_run (events : list Event) (s : State) :
  Forall measuredNonNegative events -> emptyInvariant P s ->
  emptyInvariant P (run P events s).
Proof.
  intros Hall. revert s. induction Hall as [|e events He _ IH]; intros s Hs.
  - exact Hs.
  - cbn [run fold_left]. apply IH. now apply emptyInvariant_step.
Qed.

End EmptyRows.

(** C8.  With [rows = []] and the default initial offset, whatever events
    arrive (measurements, frames, wheel and touch events, decay ticks):
    the row and column offset tables are empty, the offset is [(0, 0)],
    the render window is [(0, 0, 0, 0)], and a further [scroll] changes
    nothing.  Every handler of the model is a total function, so no step
    fails. *)
Theorem empty_rows_valid_state {Cell : Type} (P : Props Cell) (els : Elements)
    (events : list Event) :
  rows P = [] ->
  initOffset P = {| x := int 0; y := int 0 |} ->
  0 <= renderBatchSize P ->
  Forall measuredNonNegative events ->
  let s := run P events (initialState P els) in
  rowOffsets P = [] /\ colOffsets P = []
  /\ offsetRef s = {| x := int 0; y := int 0 |}
  /\ renderWindowRef s = {| fromRow := 0; toRow := 0; fromCol := 0; toCol := 0 |}
  /\ (forall deltaX deltaY : num, scroll P deltaX deltaY s = s).
Proof.
  intros Hrows Hinit Hbatch Hevents. cbv zeta.
  pose proof (emptyInvariant_run P Hrows Hbatch events (initialState P els) Hevents
                (emptyInvariant_initial P Hrows els)) as (Hoffset & Hwindow & Hfits & _).
  split; [now apply empty_rowOffsets|]. split; [now apply empty_colOffsets|].
  split; [now rewrite Hoffset|]. split; [exact Hwindow|].
  intros deltaX deltaY. now apply scroll_fits.
Qed.

Lemma empty_rows_valid_state_witness :
  let s := run Scenario.emptyGrid
             [Resize (int 100) (int 100); AnimationFrame; Wheel (int 10) (int 10);
              TouchStart (int 0) (int 100) (int 0); TouchMove (int 16) (int 80) (int 0);
              TouchEnd (int 32); IntervalTick 1%nat; AnimationFrame]
             (initialState Scenario.emptyGrid Scenario.attached) in
  rowOffsets Scenario.emptyGrid = [] /\ colOffsets Scenario.emptyGrid = []
  /\ offsetRef s = {| x := int 0; y := int 0 |}
  /\ renderWindowRef s = {| fromRow := 0; toRow := 0; fromCol := 0; toCol := 0 |}
  /\ (forall deltaX deltaY : num, scroll Scenario.emptyGrid deltaX deltaY s = s).
Proof.
  apply (empty_rows_valid_state Scenario.emptyGrid Scenario.attached).
  - reflexivity.
  - reflexivity.
  - discriminate.
  - repeat constructor.
Defined.

(** ** Touch momentum *)

Lemma find_filter_other (p : nat) (l : list (nat * (num * num))) :
  find (fun e => (fst e =? p)%nat) (filter (fun e => negb (fst e =? p)%nat) l) = None.
Proof.
  induction l as [|e l IH]; [reflexivity|]. cbn [filter].
  destruct (fst e =? p)%nat eqn:E; cbn [negb]; [exact IH|].
  cbn [find]. now rewrite E.
Qed.

Lemma find_map_update (p : nat) (speed : num * num) (l : list (nat * (num * num))) :
  find (fun e => (fst e =? p)%nat)
    (map (fun e => if (fst e =? p)%nat then (p, speed) else e) l)
  = match find (fun e => (fst e =? p)%nat) l with
    | Some _ => Some (p, speed)
    | None => None
    end.
Proof.
  induction l as [|e l IH]; [reflexivity|]. cbn [map find].
  destruct (fst e =? p)%nat eqn:E.
  - cbn [fst]. now rewrite Nat.eqb_refl.
  - now rewrite E.
Qed.

Section Touch.
Context {Cell : Type} (P : Props Cell).

Lemma scroll_keeps_touch (deltaX deltaY : num) (s : State) :
  intervals (scroll P deltaX deltaY s) = intervals s
  /\ nextPid (scroll P deltaX deltaY s) = nextPid s
  /\ touchInfoRef (scroll P deltaX deltaY s) = touchInfoRef s.
Proof.
  unfold scroll, setOffset.
  repeat match goal with
         | |- context [if ?c then _ else _] => destruct c
         end; repeat split; reflexivity.
Qed.

(** A tick of the only running interval. *)
Lemma intervalTick_single (p : nat) (speed : num * num) (s : State) :
  intervals s = [(p, speed)] ->
  let s' := intervalTick P p s in
  if decayStops (decayedSpeed speed)
  then intervals s' = [] /\ pid (touchInfoRef s') = None
  else intervals s' = [(p, decayedSpeed speed)].
Proof.
  intros Hint. cbv zeta. unfold intervalTick, lookupInterval.
  rewrite Hint. cbn [find fst snd option_map]. rewrite Nat.eqb_refl.
  cbn [option_map snd]. cbv zeta.
  destruct (scroll_keeps_touch (fst (tickDelta speed)) (snd (tickDelta speed)) s)
    as (Hi & _ & _).
  destruct (decayStops (decayedSpeed speed)).
  - split; [|reflexivity].
    unfold clearInterval.
    cbn [intervals set_touchInfoRef set_intervals]. rewrite Hi, Hint.
    cbn [filter fst]. now rewrite Nat.eqb_refl.
  - cbn [intervals set_intervals]. rewrite Hi, Hint.
    cbn [map fst]. now rewrite Nat.eqb_refl.
Qed.

(** What a tick does, whatever else is running: it passes the speeds
    times 16 to [scroll], which gives the offset and the pending frame
    after the tick, and it leaves the interval with the speeds times
    0.95, or clears it when those pass the test for stopping. *)
Lemma intervalTick_applies (p : nat) (speed : num * num) (s : State) :
  lookupInterval p s = Some speed ->
  offsetRef (intervalTick P p s)
  = offsetRef (scroll P (fst (tickDelta speed)) (snd (tickDelta speed)) s)
  /\ rafPidRef (intervalTick P p s)
     = rafPidRef (scroll P (fst (tickDelta speed)) (snd (tickDelta speed)) s)
  /\ lookupInterval p (intervalTick P p s)
     = (if decayStops (decayedSpeed speed) then None else Some (decayedSpeed speed)).
Proof.
  intros Hlookup. unfold intervalTick. rewrite Hlookup. cbv zeta.
  destruct (scroll_keeps_touch (fst (tickDelta speed)) (snd (tickDelta speed)) s)
    as (Hi & _ & _).
  destruct (decayStops (decayedSpeed speed)).
  - split; [reflexivity|]. split; [reflexivity|].
    unfold lookupInterval, clearInterval.
    cbn [intervals set_touchInfoRef set_intervals].
    now rewrite find_filter_other.
  - split; [reflexivity|]. split; [reflexivity|].
    unfold lookupInterval in *. cbn [intervals set_intervals].
    rewrite find_map_update, Hi.
    destruct (find (fun e => (fst e =? p)%nat) (intervals s)); [reflexivity | discriminate].
Qed.

Lemma speedAfter_shift (k : nat) (speed : num * num) :
  speedAfter k (decayedSpeed speed) = speedAfter (S k) speed.
Proof. unfold speedAfter. now rewrite Nat.iter_succ_r. Qed.

(** While the test for stopping fails, the interval runs on with the
    decayed speeds. *)
Lemma run_ticks (p k : nat) (speed : num * num) (s : State) :
  intervals s = [(p, speed)] ->
  (forall j, (1 <= j <= k)%nat -> decayStops (speedAfter j speed) = false) ->
  intervals (run P (repeat (IntervalTick p) k) s) = [(p, speedAfter k speed)].
Proof.
  revert speed s. induction k as [|k IH]; intros speed s Hint Hrun.
  - exact Hint.
  - cbn [repeat run fold_left step].
    pose proof (intervalTick_single p speed s Hint) as Htick. cbv zeta in Htick.
    assert (Hfirst : decayStops (decayedSpeed speed) = false)
      by (apply (Hrun 1%nat); lia).
    rewrite Hfirst in Htick.
    rewrite <- speedAfter_shift. apply IH; [exact Htick|].
    intros j Hj. rewrite speedAfter_shift. apply Hrun. lia.
Qed.

(** The gesture leaves one interval running, with the speeds of the
    release. *)
Lemma run_flick (s : State) :
  intervals s = [] ->
  intervals (run P Scenario.flick s) = [(nextPid s, Scenario.flickSpeed)].
Proof.
  intros Hint. unfold Scenario.flick. cbn [run fold_left step].
  unfold onTouchEnd, onTouchMove. cbv zeta.
  cbn [intervals nextPid touchInfoRef set_touchInfoRef set_intervals set_nextPid].
  match goal with
  | |- context [scroll P ?dx ?dy ?st] =>
      destruct (scroll_keeps_touch dx dy st) as (Hi & Hn & _); rewrite Hi, Hn
  end.
  unfold onTouchStart. destruct (pid (touchInfoRef s)) as [q|];
    cbn [intervals nextPid clearInterval set_touchInfoRef set_intervals];
    rewrite Hint; reflexivity.
Qed.

End Touch.

Lemma speedAfter_S (k : nat) (speed : num * num) :
  speedAfter (S k) speed = decayedSpeed (speedAfter k speed).
Proof. reflexivity. Qed.

Lemma repeat_snoc {A : Type} (a : A) (n : nat) : repeat a (S n) = repeat a n ++ [a].
Proof. apply repeat_cons. Qed.

Lemma run_snoc {Cell : Type} (P : Props Cell) (events : list Event) (e : Event) (s : State) :
  run P (events ++ [e]) s = step P (run P events s) e.
Proof. unfold run. now rewrite fold_left_app. Qed.

Lemma decayedSpeed_delta (speed : num * num) :
  equiv (fst (tickDelta (decayedSpeed speed))) (fst (tickDelta speed) * DECAY)%js.
Proof.
  unfold tickDelta, decayedSpeed. cbn [fst snd].
  destruct (fst speed) as [v|]; cbn; [ring | exact I].
Qed.

Lemma flick_vertical_delta (k : nat) :
  equiv (snd (tickDelta (speedAfter k Scenario.flickSpeed))) (int 0).
Proof.
  assert (H : equiv (snd (speedAfter k Scenario.flickSpeed)) (int 0)).
  { induction k as [|k IH]; [reflexivity|].
    rewrite speedAfter_S. unfold decayedSpeed. cbn [snd].
    destruct (snd (speedAfter k Scenario.flickSpeed)) as [v|]; cbn in *; [|contradiction].
    rewrite IH. reflexivity. }
  unfold tickDelta. cbn [snd].
  destruct (snd (speedAfter k Scenario.flickSpeed)) as [v|]; cbn in *; [|contradiction].
  rewrite H. reflexivity.
Qed.

Lemma flick_keeps_running (k : nat) :
  (1 <= k < 95)%nat -> decayStops (speedAfter k Scenario.flickSpeed) = false.
Proof.
  intros Hk.
  assert (Hall : forallb (fun j => negb (decayStops (speedAfter j Scenario.flickSpeed)))
                   (seq 1 94) = true) by (vm_compute; reflexivity).
  rewrite forallb_forall in Hall.
  apply negb_true_iff, Hall, in_seq. lia.
Qed.

Lemma flick_stops : decayStops (speedAfter 95 Scenario.flickSpeed) = true.
Proof. vm_compute. reflexivity. Qed.

(** C7.  After start(t=0, x=100), move(t=16, x=80), end(t=32), with no
    interval running before: one interval runs, holding the speeds
    [(100 - 80) / (32 - 16) = 20/16] on x and [0] on y.  Its tick number
    [k + 1] calls [scroll] with the speeds left by [k] ticks times 16:
    the offset and the pending frame after the tick are those that call
    of [scroll] leaves, and the interval is left with the speeds times
    0.95.  The deltas are 20, 19, 18.05 on x for the first three ticks,
    each x delta being the one before times 0.95 and each y delta being
    0.  The test for stopping, [|speedX| + |speedY| < 0.01], fails after
    each of the ticks 1 to 94 and holds after tick 95, which clears the
    interval and the [pid]. *)
Theorem touch_flick_decay {Cell : Type} (P : Props Cell) (s : State) :
  intervals s = [] ->
  let p := nextPid s in
  let released := run P Scenario.flick s in
  let ticked := fun k : nat => run P (repeat (IntervalTick p) k) released in
  let delta := fun k : nat => tickDelta (speedAfter k Scenario.flickSpeed) in
  intervals released = [(p, Scenario.flickSpeed)]
  /\ equiv (fst Scenario.flickSpeed) (fin (20 / 16))
  /\ equiv (snd Scenario.flickSpeed) (int 0)
  /\ (forall k, (k < 95)%nat ->
                intervals (ticked k) = [(p, speedAfter k Scenario.flickSpeed)])
  /\ (forall k, (k < 95)%nat ->
                offsetRef (ticked (S k))
                = offsetRef (scroll P (fst (delta k)) (snd (delta k)) (ticked k))
                /\ rafPidRef (ticked (S k))
                   = rafPidRef (scroll P (fst (delta k)) (snd (delta k)) (ticked k)))
  /\ equiv (fst (delta 0%nat)) (int 20)
  /\ equiv (fst (delta 1%nat)) (int 19)
  /\ equiv (fst (delta 2%nat)) (fin (1805 # 100))
  /\ (forall k, equiv (fst (delta (S k))) (fst (delta k) * DECAY)%js
                /\ equiv (snd (delta k)) (int 0))
  /\ (forall k, (1 <= k < 95)%nat ->
                decayStops (speedAfter k Scenario.flickSpeed) = false)
  /\ decayStops (speedAfter 95 Scenario.flickSpeed) = true
  /\ intervals (ticked 95%nat) = []
  /\ pid (touchInfoRef (ticked 95%nat)) = None.
Proof.
  intros Hint. cbv zeta.
  pose proof (run_flick P s Hint) as Hreleased.
  assert (Hticks : forall k, (k < 95)%nat ->
            intervals (run P (repeat (IntervalTick (nextPid s)) k) (run P Scenario.flick s))
            = [(nextPid s, speedAfter k Scenario.flickSpeed)]).
  { intros k Hk. apply run_ticks; [exact Hreleased|].
    intros j Hj. apply flick_keeps_running. lia. }
  split; [exact Hreleased|].
  split; [reflexivity|]. split; [reflexivity|].
  split; [exact Hticks|].
  split.
  { intros k Hk. rewrite (repeat_snoc (IntervalTick (nextPid s)) k), run_snoc. cbn [step].
    destruct (intervalTick_applies P (nextPid s) (speedAfter k Scenario.flickSpeed)
                (run P (repeat (IntervalTick (nextPid s)) k) (run P Scenario.flick s)))
      as (Hoffset & Hframe & _).
    - unfold lookupInterval. rewrite (Hticks k Hk). cbn [find fst].
      now rewrite Nat.eqb_refl.
    - split; [exact Hoffset | exact Hframe]. }
  split; [reflexivity|]. split; [reflexivity|]. split; [reflexivity|].
  split.
  { intros k. split; [apply decayedSpeed_delta | apply flick_vertical_delta]. }
  split; [exact flick_keeps_running|].
  split; [exact flick_stops|].
  rewrite (repeat_snoc (IntervalTick (nextPid s)) 94), run_snoc. cbn [step].
  pose proof (intervalTick_single P (nextPid s) _ _ (Hticks 94%nat ltac:(lia))) as Hlast.
  cbv zeta in Hlast.
  rewrite <- speedAfter_S, flick_stops in Hlast. exact Hlast.
Qed.

(** On ten rows of ten cells in a viewport of 100 by 100 the move has
    scrolled x to 20; the ticks then bring it to 40, 59 and 77.05, and
    leave y at 0. *)
Lemma touch_flick_decay_witness :
  let s := Scenario.mounted Scenario.roomyGrid 100 100 in
  let released := run Scenario.roomyGrid Scenario.flick s in
  let ticked := fun k : nat =>
    run Scenario.roomyGrid (repeat (IntervalTick (nextPid s)) k) released in
  intervals released = [(nextPid s, Scenario.flickSpeed)]
  /\ equiv (x (offsetRef released)) (int 20)
  /\ equiv (x (offsetRef (ticked 1%nat))) (int 40)
  /\ equiv (x (offsetRef (ticked 2%nat))) (int 59)
  /\ equiv (x (offsetRef (ticked 3%nat))) (fin (7705 # 100))
  /\ equiv (y (offsetRef (ticked 3%nat))) (int 0)
  /\ intervals (ticked 95%nat) = [].
Proof.
  cbv zeta.
  assert (Hnone : intervals (Scenario.mounted Scenario.roomyGrid 100 100) = [])
    by (vm_compute; reflexivity).
  pose proof (touch_flick_decay Scenario.roomyGrid
                (Scenario.mounted Scenario.roomyGrid 100 100) Hnone) as H.
  cbv zeta beta in H.
  destruct H as (Hreleased & _ & _ & _ & Hoffset & _ & _ & _ & _ & _ & _ & Hcleared & _).
  split; [exact Hreleased|].
  split; [vm_compute; reflexivity|].
  split; [rewrite (proj1 (Hoffset 0%nat ltac:(lia))); vm_compute; reflexivity|].
  split; [rewrite (proj1 (Hoffset 1%nat ltac:(lia))); vm_compute; reflexivity|].
  split; [rewrite (proj1 (Hoffset 2%nat ltac:(lia))); vm_compute; reflexivity|].
  split; [vm_compute; reflexivity | exact Hcleared].
Defined.

(** * Further properties of the component *)

(** ** Sizes of the content *)

(** X1.  The total size of the content is the sum of all the column
    widths and of all the row heights, added left to right from [0]
    (and [0] for a grid without columns or rows). *)
Theorem totalSize_sums {Cell : Type} (P : Props Cell) :
  width (totalSize P) = sumBefore (colWidths P) (numCols P)
  /\ height (totalSize P) = sumBefore (rowHeights P) (numRows P).
Proof.
  assert (Hsum : forall (itemSize : ItemSize) (n : nat),
             (if (n =? 0)%nat then int 0
              else ((calculateOffsets (calculateSizes itemSize n)).[Z.of_nat n - 1]
                    + (calculateSizes itemSize n).[Z.of_nat n - 1])%js)
             = sumBefore (calculateSizes itemSize n) n).
  { intros itemSize [|n]; [destruct itemSize; reflexivity|].
    cbn [Nat.eqb]. replace (Z.of_nat (S n) - 1) with (Z.of_nat n) by lia.
    pose proof (length_calculateSizes itemSize (S n)) as Hlen.
    rewrite calculateOffsets_sums, Hlen, get_map_seq by lia.
    symmetry. apply sumBefore_S. lia. }
  unfold totalSize, colOffsets, rowOffsets, colWidths, rowHeights. cbn [width height].
  split; apply Hsum.
Qed.

Lemma fold_max_length {A : Type} (rows : list (list A)) (start : nat) :
  let m := fold_left (fun max row => Nat.max max (length row)) rows start in
  (start <= m)%nat
  /\ (forall row, In row rows -> (length row <= m)%nat)
  /\ (m = start \/ exists row, In row rows /\ length row = m).
Proof.
  revert start. induction rows as [|r rows IH]; intros start; cbn [fold_left].
  - repeat split; [lia | intros row [] | now left].
  - destruct (IH (Nat.max start (length r))) as (Hge & Hall & Hatt).
    split; [lia|]. split.
    + intros row [<-|Hin]; [lia | now apply Hall].
    + destruct Hatt as [E|(row & Hin & E)].
      * destruct (Nat.max_spec start (length r)) as [[_ E']|[_ E']].
        -- right. exists r. split; [now left | congruence].
        -- left. congruence.
      * right. exists row. split; [now right | exact E].
Qed.

(** X2.  The number of columns is the length of a longest row: no row is
    longer, and when there are rows some row is that long. *)
Theorem numCols_longest_row {Cell : Type} (P : Props Cell) :
  (forall row, In row (rows P) -> (length row <= numCols P)%nat)
  /\ (rows P = [] -> numCols P = 0%nat)
  /\ (rows P <> [] -> exists row, In row (rows P) /\ length row = numCols P).
Proof.
  unfold numCols.
  destruct (fold_max_length (rows P) 0) as (_ & Hall & Hatt).
  split; [exact Hall|]. split; [now intros ->|].
  intros Hne. destruct Hatt as [E|Hrow]; [|exact Hrow].
  destruct (rows P) as [|row rest] eqn:Erows; [congruence|].
  exists row. split; [now left|].
  specialize (Hall row (or_introl eq_refl)). cbv zeta in E. lia.
Qed.

Lemma numCols_longest_row_witness :
  exists row, In row (rows Scenario.wideGrid) /\ length row = numCols Scenario.wideGrid.
Proof.
  apply (numCols_longest_row Scenario.wideGrid). discriminate.
Defined.

(** ** Comparing the stuck lists *)

Lemma same_refl (nums : list Z) : same nums nums = true.
Proof.
  unfold same. rewrite Nat.eqb_refl.
  induction nums as [|a nums IH]; [reflexivity|].
  cbn [combine forallb fst snd]. now rewrite Z.eqb_refl.
Qed.

Lemma same_iff (nums1 nums2 : list Z) :
  same nums1 nums2 = true <-> nums1 = nums2.
Proof.
  split; [apply same_eq | intros ->; apply same_refl].
Qed.

(** X3.  [same] holds of two lists exactly when they are equal: lists of
    different lengths, and lists that differ at some index, are told
    apart. *)
Theorem same_decides_equality (nums1 nums2 : list Z) :
  (same nums1 nums2 = true <-> nums1 = nums2)
  /\ (length nums1 <> length nums2 -> same nums1 nums2 = false).
Proof.
  split; [apply same_iff|].
  intros Hlen. unfold same. now apply Nat.eqb_neq in Hlen as ->.
Qed.

(** ** The sticky tables *)

Lemma sorted_head_least (a : Z) (l : list Z) :
  Sorted Z.le (a :: l) -> forall b, In b (a :: l) -> a <= b.
Proof.
  intros Hs. apply Sorted_StronglySorted in Hs; [|intros u v w; lia].
  apply StronglySorted_inv in Hs. destruct Hs as [_ Hall].
  rewrite Forall_forall in Hall. intros b [<-|Hin]; [lia | now apply Hall].
Qed.

Lemma sorted_permutation_eq (l1 l2 : list Z) :
  Sorted Z.le l1 -> Sorted Z.le l2 -> Permutation l1 l2 -> l1 = l2.
Proof.
  revert l2. induction l1 as [|a l1 IH]; intros l2 H1 H2 Hperm.
  - apply Permutation_nil in Hperm. now subst.
  - destruct l2 as [|b l2]; [apply Permutation_sym, Permutation_nil in Hperm; discriminate|].
    assert (a = b) as <-.
    { assert (a <= b) by (apply (sorted_head_least a l1 H1);
                          apply (Permutation_in _ (Permutation_sym Hperm)); now left).
      assert (b <= a) by (apply (sorted_head_least b l2 H2);
                          apply (Permutation_in _ Hperm); now left).
      lia. }
    f_equal. apply IH.
    + now apply Sorted_inv in H1.
    + now apply Sorted_inv in H2.
    + now apply Permutation_cons_inv in Hperm.
Qed.

(** X4.  The sticky rows are taken in ascending order whatever order the
    prop lists them in (two listings of the same indices give the same
    sorted list), and the sticky offset at a sorted position is the sum
    of the heights of the sticky rows at the positions before it; alike
    for the columns. *)
Theorem sticky_tables_in_sorted_order {Cell : Type} (P : Props Cell) :
  (Sorted Z.le (sortedStickyRows P)
   /\ Permutation (sortedStickyRows P) (stickyRows P)
   /\ (forall listing, Permutation listing (stickyRows P) ->
                       sortAscending listing = sortedStickyRows P)
   /\ stickyRowOffsets P
      = map (sumBefore (map (fun r => (rowHeights P).[r]%js) (sortedStickyRows P)))
          (seq 0 (length (stickyRows P))))
  /\ (Sorted Z.le (sortedStickyCols P)
      /\ Permutation (sortedStickyCols P) (stickyCols P)
      /\ (forall listing, Permutation listing (stickyCols P) ->
                          sortAscending listing = sortedStickyCols P)
      /\ stickyColOffsets P
         = map (sumBefore (map (fun c => (colWidths P).[c]%js) (sortedStickyCols P)))
             (seq 0 (length (stickyCols P)))).
Proof.
  assert (Hlen : forall l, length (sortAscending l) = length l)
    by (intros l; apply Permutation_length, sortAscending_permutation).
  assert (Huniq : forall l listing, Permutation listing l ->
                                    sortAscending listing = sortAscending l).
  { intros l listing Hperm. apply sorted_permutation_eq; try apply sortAscending_sorted.
    rewrite !sortAscending_permutation. exact Hperm. }
  split; (split; [apply sortAscending_sorted|]);
    (split; [apply sortAscending_permutation|]); (split; [apply Huniq|]).
  - rewrite stickyRowOffsets_sums. unfold sortedStickyRows. now rewrite Hlen.
  - rewrite stickyColOffsets_sums. unfold sortedStickyCols. now rewrite Hlen.
Qed.

(** ** Who writes the offset *)

Lemma scroll_offset_cases {Cell : Type} (P : Props Cell) (deltaX deltaY : num) (s : State) :
  offsetRef (scroll P deltaX deltaY s) = offsetRef s
  \/ offsetRef (scroll P deltaX deltaY s) = candidateOffset P deltaX deltaY s.
Proof.
  destruct (scrollAccepted P deltaX deltaY s) eqn:Hacc.
  - right. now apply scroll_accepted.
  - left. now rewrite scroll_not_accepted.
Qed.

(** X5.  The offset is written by [scroll] alone.  A render, a
    measurement, a frame, a touch start and a touch end leave it as it
    is; a wheel event, a touch move and a decay tick leave it as it is or
    store the clamped candidate of their delta. *)
Theorem offset_written_by_scroll_only {Cell : Type} (P : Props Cell)
    (s : State) (e : Event) :
  match e with
  | Wheel _ _ | TouchMove _ _ _ | IntervalTick _ =>
      offsetRef (step P s e) = offsetRef s
      \/ exists deltaX deltaY : num,
           offsetRef (step P s e) = candidateOffset P deltaX deltaY s
  | _ => offsetRef (step P s e) = offsetRef s
  end.
Proof.
  destruct e as [| w h | | dx dy | t cx cy | t cx cy | t | p]; cbn [step].
  - reflexivity.
  - unfold reflow. destruct (rootElmnt (observerRefs s) && cellsElmnt (observerRefs s));
      [|reflexivity].
    cbv zeta. unfold setOffset.
    match goal with
    | |- context [if ?c then _ else _] => destruct c
    end; reflexivity.
  - destruct (animationFrame_keeps P s) as [(Ho & _)|E]; [exact Ho | now rewrite E].
  - unfold onWheel. destruct (scroll_offset_cases P dx dy s) as [E|E];
      [now left | right; eauto].
  - unfold onTouchStart. destruct (pid (touchInfoRef s)); reflexivity.
  - unfold onTouchMove. cbv zeta. cbn [offsetRef set_touchInfoRef].
    match goal with
    | |- context [scroll P ?dx ?dy s] =>
        destruct (scroll_offset_cases P dx dy s) as [E|E]; [now left | right; eauto]
    end.
  - reflexivity.
  - unfold intervalTick. destruct (lookupInterval p s) as [speed|]; [|now left].
    cbv zeta.
    destruct (scroll_offset_cases P (fst (tickDelta speed)) (snd (tickDelta speed)) s)
      as [E|E];
      destruct (decayStops (decayedSpeed speed));
      cbn [offsetRef set_touchInfoRef set_intervals clearInterval];
      solve [now left | right; eauto].
Qed.

(** ** One frame for a burst of offsets *)

(** X6.  An accepted [setOffset] that follows an accepted one before the
    frame has run replaces its frame: the state is the one the second
    call alone leaves when forced, so the frame that runs resolves the
    window for the last offset only, from the window the ref holds. *)
Theorem setOffset_replaces_pending_frame {Cell : Type} (P : Props Cell)
    (cE rE kE force1 force2 : bool) (offset1 offset2 : Point) (s : State) :
  fst (setOffset P cE rE kE offset1 force1 s) = true ->
  fst (setOffset P cE rE kE offset2 force2
         (snd (setOffset P cE rE kE offset1 force1 s))) = true ->
  snd (setOffset P cE rE kE offset2 force2 (snd (setOffset P cE rE kE offset1 force1 s)))
  = snd (setOffset P cE rE kE offset2 true s).
Proof.
  intros H1 H2.
  rewrite (setOffset_accepted P _ _ _ _ _ _ H2).
  rewrite (setOffset_accepted P _ _ _ _ _ _ H1).
  assert (H3 : fst (setOffset P cE rE kE offset2 true s) = true).
  { unfold setOffset in H1 |- *.
    destruct (cE && rE && kE); [reflexivity | discriminate]. }
  rewrite (setOffset_accepted P _ _ _ _ _ _ H3).
  reflexivity.
Qed.

Lemma setOffset_replaces_pending_frame_witness :
  let s := Scenario.mounted Scenario.tallGrid 80 100 in
  snd (setOffset Scenario.tallGrid true true true (Scenario.point 0 90) false
         (snd (setOffset Scenario.tallGrid true true true (Scenario.point 0 50) false s)))
  = snd (setOffset Scenario.tallGrid true true true (Scenario.point 0 90) true s).
Proof.
  cbv zeta.
  apply (setOffset_replaces_pending_frame Scenario.tallGrid true true true false false
           (Scenario.point 0 50) (Scenario.point 0 90)
           (Scenario.mounted Scenario.tallGrid 80 100));
    vm_compute; reflexivity.
Defined.

Lemma animationFrame_clears {Cell : Type} (P : Props Cell) (s : State) :
  rafPidRef (animationFrame P s) = None.
Proof.
  destruct (animationFrame_keeps P s) as [(_ & _ & Hr)|E]; [exact Hr|].
  unfold animationFrame in *. destruct (rafPidRef s) as [f|] eqn:Hraf; [|exact Hraf].
  rewrite <- E. cbv zeta.
  repeat match goal with
         | |- context [if ?c then _ else _] => destruct c
         end; reflexivity.
Qed.

(** X7.  A frame runs once: after the frame callback has run no frame is
    pending, and running the callback again changes nothing. *)
Theorem animationFrame_runs_once {Cell : Type} (P : Props Cell) (s : State) :
  rafPidRef (animationFrame P s) = None
  /\ animationFrame P (animationFrame P s) = animationFrame P s.
Proof.
  split; [apply animationFrame_clears|].
  pose proof (animationFrame_clears P s) as H.
  unfold animationFrame at 1. now rewrite H.
Qed.

(** ** When the frame asks for a render *)

Lemma renderWindow_eqb (w1 w2 : RenderWindow) :
  negb (fromRow w1 =? fromRow w2) || negb (toRow w1 =? toRow w2)
  || negb (fromCol w1 =? fromCol w2) || negb (toCol w1 =? toCol w2) = false
  <-> w1 = w2.
Proof.
  split.
  - intros H. repeat (apply orb_false_iff in H; destruct H as [H ?]).
    repeat match goal with
           | E : negb (_ =? _) = false |- _ => apply negb_false_iff, Z.eqb_eq in E
           end.
    destruct w1, w2; cbn in *; congruence.
  - intros ->. now rewrite !Z.eqb_refl.
Qed.

Lemma animationFrame_renderFlag {Cell : Type} (P : Props Cell) (s : State) (f : Frame) :
  rafPidRef s = Some f ->
  renderFlag (animationFrame P s)
  = if negb (fromRow (frameWindow f) =? fromRow (frameRenderWindow f))
       || negb (toRow (frameWindow f) =? toRow (frameRenderWindow f))
       || negb (fromCol (frameWindow f) =? fromCol (frameRenderWindow f))
       || negb (toCol (frameWindow f) =? toCol (frameRenderWindow f))
       || negb (same (frameStuckRows f) (stuckRowsRef s))
       || negb (same (frameStuckCols f) (stuckColsRef s))
    then negb (renderFlag s) else renderFlag s.
Proof.
  intros Hraf. unfold animationFrame. rewrite Hraf. cbv zeta.
  repeat match goal with
         | |- context [if (?a >? ?b)%js then _ else _] => destruct (a >? b)%js
         end;
    cbn [stuckRowsRef stuckColsRef renderFlag set_console set_transforms
           set_rowsTranslateRef set_rafPidRef];
    match goal with
    | |- context [if ?c then _ else _] => destruct c
    end; reflexivity.
Qed.

(** X8.  The frame of an accepted [setOffset] asks for a render exactly
    when something it shows has changed: the render flag is left as it
    is if and only if the resolved window is the window of the ref and
    the stuck rows and columns at the new offset are those of the refs.
    While the visible range stays inside the window and no sticky row or
    column crosses its pinning position, scrolling renders nothing
    anew. *)
Theorem frame_renders_on_change_only {Cell : Type} (P : Props Cell)
    (cE rE kE force : bool) (offset : Point) (s : State) :
  fst (setOffset P cE rE kE offset force s) = true ->
  let s' := animationFrame P (snd (setOffset P cE rE kE offset force s)) in
  renderFlag s' = renderFlag s
  <-> (resolveWindow P (windowSizeRef s) (renderWindowRef s) offset = renderWindowRef s
       /\ stuckRowsAt P (y offset) = stuckRowsRef s
       /\ stuckColsAt P (x offset) = stuckColsRef s).
Proof.
  intros Haccepted. cbv zeta.
  rewrite (setOffset_accepted P _ _ _ _ _ _ Haccepted).
  erewrite animationFrame_renderFlag by reflexivity.
  cbn [frameWindow frameRenderWindow frameStuckRows frameStuckCols
         stuckRowsRef stuckColsRef renderFlag set_rafPidRef set_offsetRef].
  rewrite <- renderWindow_eqb, <- !same_iff.
  destruct (negb (fromRow (resolveWindow P (windowSizeRef s) (renderWindowRef s) offset)
                  =? fromRow (renderWindowRef s))
            || negb (toRow (resolveWindow P (windowSizeRef s) (renderWindowRef s) offset)
                     =? toRow (renderWindowRef s))
            || negb (fromCol (resolveWindow P (windowSizeRef s) (renderWindowRef s) offset)
                     =? fromCol (renderWindowRef s))
            || negb (toCol (resolveWindow P (windowSizeRef s) (renderWindowRef s) offset)
                     =? toCol (renderWindowRef s)));
    destruct (same (stuckRowsAt P (y offset)) (stuckRowsRef s));
    destruct (same (stuckColsAt P (x offset)) (stuckColsRef s));
    cbn [negb orb]; destruct (renderFlag s); cbn; intuition congruence.
Qed.

Lemma frame_renders_on_change_only_witness :
  let s := Scenario.mounted Scenario.tallGrid 80 100 in
  renderFlag
    (animationFrame Scenario.tallGrid
       (snd (setOffset Scenario.tallGrid true true true (Scenario.point 0 250) false s)))
  <> renderFlag s.
Proof.
  cbv zeta.
  assert (Haccepted : fst (setOffset Scenario.tallGrid true true true (Scenario.point 0 250)
                             false (Scenario.mounted Scenario.tallGrid 80 100)) = true)
    by (vm_compute; reflexivity).
  destruct (frame_renders_on_change_only Scenario.tallGrid true true true false
              (Scenario.point 0 250) (Scenario.mounted Scenario.tallGrid 80 100) Haccepted)
    as [Hkept _].
  intros E. destruct (Hkept E) as [Ewindow _]. vm_compute in Ewindow. discriminate Ewindow.
Defined.

(** ** The viewport before it is measured *)

Lemma visibleToAxis_zero_size (offsets : list num) (count : nat) (o size : num) :
  (size === int 0)%js = true -> visibleToAxis offsets count o size = Z.of_nat count.
Proof.
  intros H. unfold visibleToAxis. rewrite H.
  destruct (Z.eqb_spec (Z.of_nat count) (-1)); [lia | reflexivity].
Qed.

Lemma expandAxis_full (batch count vFrom from to : Z) :
  0 <= batch -> snd (expandAxis batch count vFrom count from to) = count.
Proof.
  intros Hb. unfold expandAxis.
  destruct (Z.ltb_spec vFrom from); cbv iota beta; rewrite Z.gtb_ltb;
    match goal with |- context [if ?a <? ?b then _ else _] => destruct (Z.ltb_spec a b) end;
    cbn [snd]; lia.
Qed.

(** X9.  On an axis whose viewport size is [0] (as before the first
    measurement) the visible range runs to the end of the grid, and the
    window an accepted [setOffset] resolves reaches the last row (the
    last column), whatever the offset and the window before: the content
    is rendered at its natural extent.  The batch size is not negative. *)
Theorem zero_viewport_window_reaches_end {Cell : Type} (P : Props Cell)
    (cE rE kE force : bool) (offset : Point) (s : State) :
  0 <= renderBatchSize P ->
  fst (setOffset P cE rE kE offset force s) = true ->
  let w := renderWindowRef (animationFrame P (snd (setOffset P cE rE kE offset force s))) in
  ((height (windowSizeRef s) === int 0)%js = true ->
   row (visibleTo P (windowSizeRef s) offset) = Z.of_nat (numRows P)
   /\ toRow w = Z.of_nat (numRows P))
  /\ ((width (windowSizeRef s) === int 0)%js = true ->
      col (visibleTo P (windowSizeRef s) offset) = Z.of_nat (numCols P)
      /\ toCol w = Z.of_nat (numCols P)).
Proof.
  intros Hbatch Haccepted. cbv zeta.
  rewrite (setOffset_accepted P _ _ _ _ _ _ Haccepted).
  erewrite animationFrame_window by reflexivity.
  cbn [frameWindow]. rewrite resolveWindow_axes. cbv zeta.
  cbn [toRow toCol]. unfold visibleTo. cbn [row col].
  rewrite length_rowOffsets, length_colOffsets.
  split; intros Hzero; rewrite (visibleToAxis_zero_size _ _ _ _ Hzero);
    (split; [reflexivity | now apply expandAxis_full]).
Qed.

Lemma zero_viewport_window_reaches_end_witness :
  let s := initialState Scenario.tallGrid Scenario.attached in
  toRow (renderWindowRef
           (animationFrame Scenario.tallGrid
              (snd (setOffset Scenario.tallGrid true true true (Scenario.point 0 0) true s))))
  = 10.
Proof.
  cbv zeta.
  assert (Haccepted : fst (setOffset Scenario.tallGrid true true true (Scenario.point 0 0) true
                             (initialState Scenario.tallGrid Scenario.attached)) = true)
    by (vm_compute; reflexivity).
  destruct (zero_viewport_window_reaches_end Scenario.tallGrid true true true true
              (Scenario.point 0 0) (initialState Scenario.tallGrid Scenario.attached)
              ltac:(discriminate) Haccepted) as [Hrows _].
  exact (proj2 (Hrows eq_refl)).
Defined.

(** ** Scrolling against a bound *)

Lemma eqs_refl_fin (q r : Q) : (q == r)%Q -> (fin q !== fin r)%js = false.
Proof.
  intros H. unfold neqs, eqs, cmp, fin. apply negb_false_iff. now apply Qeq_bool_iff.
Qed.

(** The clamp of a value at the upper bound moved up, or at [0] moved
    down, is that value. *)
Lemma clamp_at_bound (bound previous move : Q) :
  (0 <= bound)%Q ->
  (previous == bound /\ 0 <= move)%Q \/ (previous == 0 /\ move <= 0)%Q ->
  (Qmin bound (Qmax (inject_Z 0) (previous + move)) == previous)%Q.
Proof.
  intros Hb H.
  destruct (Q.min_spec bound (Qmax (inject_Z 0) (previous + move))) as [[H1 E]|[H1 E]];
    destruct (Q.max_spec (inject_Z 0) (previous + move)) as [[H2 E']|[H2 E']];
    rewrite E; rewrite E' in *; unfold inject_Z in *; destruct H as [[Hp Hm]|[Hp Hm]]; lra.
Qed.

(** X10.  Scrolling against a bound is ignored.  With a finite offset,
    bounds that are not negative and a finite speed, a delta that pushes
    each axis further out from the bound it stands at (beyond
    [maxOffset], or below [0]) leaves the whole state as it is: no
    offset is stored, no frame is asked for, the scroll-stop timeout is
    not set again. *)
Theorem scroll_against_bound_ignored {Cell : Type} (P : Props Cell) (s : State)
    (previousX previousY boundX boundY deltaX deltaY speed : Q) :
  offsetRef s = {| x := fin previousX; y := fin previousY |} ->
  maxOffset P (renderedWindowSize s) = {| x := fin boundX; y := fin boundY |} ->
  scrollSpeed P = fin speed ->
  (0 <= boundX)%Q -> (0 <= boundY)%Q -> (0 <= speed)%Q ->
  (previousX == boundX /\ 0 <= deltaX)%Q \/ (previousX == 0 /\ deltaX <= 0)%Q ->
  (previousY == boundY /\ 0 <= deltaY)%Q \/ (previousY == 0 /\ deltaY <= 0)%Q ->
  scroll P (fin deltaX) (fin deltaY) s = s.
Proof.
  intros Hoff Hmax Hspeed Hbx Hby Hk Hx Hy.
  apply scroll_not_accepted. unfold scrollAccepted.
  destruct (fitsInWindow P s); [reflexivity|]. cbn [negb andb].
  unfold setOffset, candidateOffset.
  rewrite Hoff, Hmax, Hspeed. cbn [x y orb].
  assert (Hmove : forall (size : num) (delta previous bound : Q),
             (0 <= bound)%Q ->
             (previous == bound /\ 0 <= delta)%Q \/ (previous == 0 /\ delta <= 0)%Q ->
             (fin previous
              !== min (fin bound)
                    (max (int 0) (fin previous + effectiveDelta size (fin delta) * fin speed)))%js
             = false).
  { intros size delta previous bound Hb H. unfold effectiveDelta.
    destruct (size === int 0)%js; cbn; apply eqs_refl_fin; symmetry;
      apply clamp_at_bound; try assumption.
    - destruct H as [[Hp _]|[Hp _]]; [left | right]; (split; [exact Hp|]);
        unfold inject_Z; lra.
    - destruct H as [[Hp Hd]|[Hp Hd]]; [left | right]; (split; [exact Hp|]); nra. }
  rewrite (Hmove _ _ _ _ Hbx Hx), (Hmove _ _ _ _ Hby Hy).
  now rewrite !andb_false_r.
Qed.

Lemma scroll_against_bound_ignored_witness :
  let s := Scenario.mounted Scenario.tallGrid 80 100 in
  scroll Scenario.tallGrid (fin (-5)) (fin (-5)) s = s.
Proof.
  cbv zeta.
  apply (scroll_against_bound_ignored Scenario.tallGrid
           (Scenario.mounted Scenario.tallGrid 80 100) 0 0 0 300 (-5) (-5) 1).
  - vm_compute. reflexivity.
  - vm_compute. reflexivity.
  - reflexivity.
  - vm_compute. discriminate.
  - vm_compute. discriminate.
  - vm_compute. discriminate.
  - right. split; vm_compute; [reflexivity | discriminate].
  - right. split; vm_compute; [reflexivity | discriminate].
Defined.

(** ** Touch start and the decay intervals *)

Lemma find_filter_keep (p q : nat) (l : list (nat * (num * num))) :
  p <> q ->
  find (fun e => (fst e =? p)%nat) (filter (fun e => negb (fst e =? q)%nat) l)
  = find (fun e => (fst e =? p)%nat) l.
Proof.
  intros Hpq. induction l as [|e l IH]; [reflexivity|]. cbn [filter find].
  destruct (fst e =? q)%nat eqn:Eq; cbn [negb].
  - apply Nat.eqb_eq in Eq.
    destruct (Nat.eqb_spec (fst e) p); [congruence | exact IH].
  - cbn [find]. destruct (fst e =? p)%nat; [reflexivity | exact IH].
Qed.

(** X11.  A touch start stops the decay it can name: when the touch info
    holds the handle of an interval, after [onTouchStart] that interval
    no longer runs, the handle is cleared, and a tick that was still due
    for it changes nothing. *)
Theorem touch_start_stops_decay {Cell : Type} (P : Props Cell)
    (timeStamp clientX clientY : num) (p : nat) (s : State) :
  pid (touchInfoRef s) = Some p ->
  let s' := onTouchStart timeStamp clientX clientY s in
  lookupInterval p s' = None
  /\ pid (touchInfoRef s') = None
  /\ intervalTick P p s' = s'.
Proof.
  intros Hpid. cbv zeta.
  assert (Hgone : lookupInterval p (onTouchStart timeStamp clientX clientY s) = None).
  { unfold onTouchStart, lookupInterval. rewrite Hpid.
    cbn [intervals set_touchInfoRef clearInterval set_intervals].
    now rewrite find_filter_other. }
  split; [exact Hgone|]. split.
  - unfold onTouchStart. now rewrite Hpid.
  - unfold intervalTick. now rewrite Hgone.
Qed.

Lemma touch_start_stops_decay_witness :
  let s := run Scenario.tallGrid Scenario.flick (Scenario.mounted Scenario.tallGrid 80 100) in
  lookupInterval 1 (onTouchStart (int 48) (int 80) (int 0) s) = None.
Proof.
  cbv zeta.
  assert (Hpid : pid (touchInfoRef (run Scenario.tallGrid Scenario.flick
                                      (Scenario.mounted Scenario.tallGrid 80 100)))
                 = Some 1%nat) by (vm_compute; reflexivity).
  exact (proj1 (touch_start_stops_decay Scenario.tallGrid (int 48) (int 80) (int 0) 1%nat
                  _ Hpid)).
Defined.

Lemma find_app_interval (p : nat) (l1 l2 : list (nat * (num * num))) :
  find (fun e => (fst e =? p)%nat) (l1 ++ l2)
  = match find (fun e => (fst e =? p)%nat) l1 with
    | Some e => Some e
    | None => find (fun e => (fst e =? p)%nat) l2
    end.
Proof.
  induction l1 as [|e l1 IH]; [reflexivity|]. cbn [app find].
  destruct (fst e =? p)%nat; [reflexivity | exact IH].
Qed.

(** X12.  A touch end never stops an interval: it starts one more, under
    a fresh handle, and overwrites the handle of the touch info.  An
    interval that runs when a touch ends (a second finger lifted, say)
    still runs with its speeds after that touch end and after the touch
    start that follows; that touch start stops the interval of the last
    touch end only. *)
Theorem touch_end_keeps_older_interval (timeStamp startStamp clientX clientY : num)
    (p : nat) (speed : num * num) (s : State) :
  lookupInterval p s = Some speed ->
  lookupInterval (nextPid s) s = None ->
  let ended := onTouchEnd timeStamp s in
  let restarted := onTouchStart startStamp clientX clientY ended in
  lookupInterval p ended = Some speed
  /\ lookupInterval (nextPid s) ended = Some (releaseSpeed timeStamp (touchInfoRef s))
  /\ pid (touchInfoRef ended) = Some (nextPid s)
  /\ lookupInterval p restarted = Some speed
  /\ lookupInterval (nextPid s) restarted = None.
Proof.
  intros Hold Hfresh. cbv zeta.
  assert (Hne : p <> nextPid s) by (intros ->; congruence).
  unfold lookupInterval in *.
  assert (Hp : option_map snd (find (fun e => (fst e =? p)%nat)
                                 (intervals (onTouchEnd timeStamp s))) = Some speed).
  { unfold onTouchEnd. cbv zeta.
    cbn [intervals set_touchInfoRef set_intervals set_nextPid].
    rewrite find_app_interval.
    destruct (find (fun e => (fst e =? p)%nat) (intervals s)); [exact Hold | discriminate]. }
  split; [exact Hp|]. split; [|split; [reflexivity|]].
  - unfold onTouchEnd. cbv zeta.
    cbn [intervals set_touchInfoRef set_intervals set_nextPid nextPid].
    rewrite find_app_interval.
    destruct (find (fun e => (fst e =? nextPid s)%nat) (intervals s)); [discriminate|].
    cbn [find fst]. now rewrite Nat.eqb_refl.
  - unfold onTouchStart.
    change (pid (touchInfoRef (onTouchEnd timeStamp s))) with (Some (nextPid s)).
    cbn [intervals set_touchInfoRef clearInterval set_intervals].
    split; [now rewrite find_filter_keep | now rewrite find_filter_other].
Qed.

Lemma touch_end_keeps_older_interval_witness :
  let s := run Scenario.tallGrid Scenario.flick (Scenario.mounted Scenario.tallGrid 80 100) in
  lookupInterval 1 (onTouchStart (int 64) (int 80) (int 0) (onTouchEnd (int 48) s))
  = Some Scenario.flickSpeed.
Proof.
  cbv zeta.
  assert (Hold : lookupInterval 1 (run Scenario.tallGrid Scenario.flick
                                     (Scenario.mounted Scenario.tallGrid 80 100))
                 = Some Scenario.flickSpeed) by (vm_compute; reflexivity).
  assert (Hfresh : lookupInterval
                     (nextPid (run Scenario.tallGrid Scenario.flick
                                 (Scenario.mounted Scenario.tallGrid 80 100)))
                     (run Scenario.tallGrid Scenario.flick
                        (Scenario.mounted Scenario.tallGrid 80 100)) = None)
    by (vm_compute; reflexivity).
  destruct (touch_end_keeps_older_interval (int 48) (int 64) (int 80) (int 0) 1%nat
              Scenario.flickSpeed _ Hold Hfresh) as (_ & _ & _ & Hkept & _).
  exact Hkept.
Defined.

(** ** What the visible range is *)

Lemma findIndexFrom_found {A : Type} (p : A -> bool) (arr : list A) (i k : Z) :
  0 <= i -> findIndexFrom p arr i = k -> k <> -1 ->
  exists a, nth_error arr (Z.to_nat (k - i)) = Some a /\ p a = true
            /\ forall (j : nat) (b : A),
                 (j < Z.to_nat (k - i))%nat -> nth_error arr j = Some b -> p b = false.
Proof.
  revert i. induction arr as [|a arr IH]; intros i Hi Hk Hne; cbn [findIndexFrom] in Hk.
  - congruence.
  - destruct (p a) eqn:Ea.
    + subst k. rewrite Z.sub_diag. exists a. repeat split; [exact Ea|]. intros j b Hj. lia.
    + destruct (findIndexFrom_range p arr (i + 1)) as [E|R]; [lia | congruence |].
      rewrite Hk in R.
      destruct (IH (i + 1)) as (a' & Hnth & Hp & Hbefore); [lia | exact Hk | exact Hne |].
      replace (Z.to_nat (k - i)) with (S (Z.to_nat (k - (i + 1)))) by lia.
      exists a'. repeat split; [exact Hnth | exact Hp |].
      intros [|j] b Hj Hb; cbn in Hb; [congruence|].
      apply (Hbefore j b); [lia | exact Hb].
Qed.

Lemma findIndexFrom_none {A : Type} (p : A -> bool) (arr : list A) (i : Z) :
  0 <= i ->
  (findIndexFrom p arr i = -1 <-> forall a, In a arr -> p a = false).
Proof.
  revert i. induction arr as [|a arr IH]; intros i Hi; cbn [findIndexFrom].
  - split; [intros _ a [] | reflexivity].
  - destruct (p a) eqn:Ea.
    + split; [lia | intros H; specialize (H a (or_introl eq_refl)); congruence].
    + rewrite IH by lia. split.
      * intros H b [<-|Hin]; [exact Ea | now apply H].
      * intros H b Hin. apply H. now right.
Qed.

Lemma findIndex_none {A : Type} (p : A -> bool) (arr : list A) :
  findIndex p arr = -1 <-> forall a, In a arr -> p a = false.
Proof. unfold findIndex. apply findIndexFrom_none. lia. Qed.

(** Every index the loop has stepped back over holds an offset above
    [o]. *)
Lemma walkBack_passed (fuel : nat) (offsets : list num) (o : num) (v j : Z) :
  walkBack fuel offsets o v < j <= v -> (offsets.[j] >? o)%js = true.
Proof.
  revert v. induction fuel as [|fuel IH]; intros v Hj; cbn [walkBack] in Hj; [lia|].
  destruct (offsets.[v] >? o)%js eqn:E; [|lia].
  destruct (Z.eq_dec j v) as [->|Hne]; [exact E|].
  apply (IH (v - 1)). lia.
Qed.

Lemma get_in (offsets : list num) (j : Z) :
  0 <= j < Z.of_nat (length offsets) ->
  exists a, nth_error offsets (Z.to_nat j) = Some a /\ (offsets.[j])%js = a.
Proof.
  intros Hj. unfold get. destruct (Z.ltb_spec j 0); [lia|].
  destruct (nth_error offsets (Z.to_nat j)) as [a|] eqn:E.
  - now exists a.
  - apply nth_error_None in E. lia.
Qed.

Lemma visibleToAxis_cases (offsets : list num) (o size : num) :
  let v := visibleToAxis offsets (length offsets) o size in
  v = Z.of_nat (length offsets)
  \/ (0 <= v < Z.of_nat (length offsets) /\ (offsets.[v] >=? o + size)%js = true).
Proof.
  cbv zeta. unfold visibleToAxis. destruct (size === int 0)%js.
  - left. destruct (Z.eqb_spec (Z.of_nat (length offsets)) (-1)); lia.
  - destruct (Z.eqb_spec (findIndex (fun off => (off >=? o + size)%js) offsets) (-1))
      as [E|Hne]; [now left | right].
    destruct (findIndex_range (fun off => (off >=? o + size)%js) offsets) as [|R]; [lia|].
    split; [exact R|].
    destruct (findIndexFrom_found (fun off => (off >=? o + size)%js) offsets 0
                (findIndex (fun off => (off >=? o + size)%js) offsets)
                (Z.le_refl 0) eq_refl Hne) as (a & Hnth & Hp & _).
    rewrite Z.sub_0_r in Hnth.
    destruct (get_in offsets _ R) as (a' & Hnth' & ->). congruence.
Qed.

(** X13.  [visibleTo] on one axis.  With a viewport size of [0] it is the
    count; when no offset reaches [o + size] it is the count; otherwise
    it is the first index whose offset reaches [o + size]. *)
Theorem visibleToAxis_first_reaching (offsets : list num) (o size : num) :
  let v := visibleToAxis offsets (length offsets) o size in
  ((size === int 0)%js = true -> v = Z.of_nat (length offsets))
  /\ ((forall j, (offsets.[j] >=? o + size)%js = false) -> v = Z.of_nat (length offsets))
  /\ ((size === int 0)%js = false ->
      (exists j, (offsets.[j] >=? o + size)%js = true) ->
      0 <= v < Z.of_nat (length offsets)
      /\ (offsets.[v] >=? o + size)%js = true
      /\ forall j, 0 <= j < v -> (offsets.[j] >=? o + size)%js = false).
Proof.
  cbv zeta. split; [apply visibleToAxis_zero_size|]. split.
  - intros Hnone. unfold visibleToAxis.
    assert (E : findIndex (fun off => (off >=? o + size)%js) offsets = -1).
    { apply findIndex_none. intros a Hin.
      apply In_nth_error in Hin. destruct Hin as (n & Hn).
      specialize (Hnone (Z.of_nat n)). rewrite get_of_nat, Hn in Hnone. exact Hnone. }
    rewrite E. destruct (size === int 0)%js;
      destruct (Z.eqb_spec (Z.of_nat (length offsets)) (-1)); cbn; lia.
  - intros Hsize (j & Hj). unfold visibleToAxis. rewrite Hsize.
    destruct (Z.eqb_spec (findIndex (fun off => (off >=? o + size)%js) offsets) (-1))
      as [E|Hne].
    + rewrite findIndex_none in E. exfalso.
      assert (Hin : 0 <= j < Z.of_nat (length offsets)).
      { destruct (Z.lt_ge_cases j 0);
          [rewrite get_negative in Hj by lia; destruct (o + size)%js; discriminate|].
        destruct (Z.lt_ge_cases j (Z.of_nat (length offsets))); [lia|].
        rewrite get_beyond in Hj by lia. destruct (o + size)%js; discriminate. }
      destruct (get_in offsets j Hin) as (a & Hnth & Ea).
      rewrite Ea, (E a) in Hj; [discriminate | eapply nth_error_In, Hnth].
    + destruct (findIndex_range (fun off => (off >=? o + size)%js) offsets) as [|R]; [lia|].
      destruct (findIndexFrom_found (fun off => (off >=? o + size)%js) offsets 0
                  (findIndex (fun off => (off >=? o + size)%js) offsets)
                  (Z.le_refl 0) eq_refl Hne) as (a & Hnth & Hp & Hbefore).
      rewrite Z.sub_0_r in *.
      split; [exact R|]. split.
      * unfold findIndex in *. destruct (get_in offsets _ R) as (a' & Hnth' & ->).
        congruence.
      * intros i Hi.
        destruct (get_in offsets i ltac:(unfold findIndex in *; lia)) as (b & Hb & ->).
        apply (Hbefore (Z.to_nat i) b); [unfold findIndex in *; lia | exact Hb].
Qed.

Lemma gt_fin (a b : Q) : (fin a >? fin b)%js = true <-> (b < a)%Q.
Proof.
  unfold gt, lt, cmp, fin, Qlt_bool. rewrite negb_true_iff.
  rewrite <- not_true_iff_false, Qle_bool_iff. split; intros H; lra.
Qed.

Lemma gt_fin_false (a b : Q) : (fin a >? fin b)%js = false <-> (a <= b)%Q.
Proof.
  unfold gt, lt, cmp, fin, Qlt_bool. rewrite negb_false_iff. apply Qle_bool_iff.
Qed.

Lemma ge_fin (a b : Q) : (fin a >=? fin b)%js = true <-> (b <= a)%Q.
Proof. unfold ge, le, cmp, fin. apply Qle_bool_iff. Qed.

Lemma lt_fin (a b : Q) : (fin a <? fin b)%js = true <-> (a < b)%Q.
Proof. apply (gt_fin b a). Qed.

Lemma walkBack_S (fuel : nat) (offsets : list num) (o : num) (v : Z) :
  walkBack (S fuel) offsets o v
  = if (offsets.[v] >? o)%js then walkBack fuel offsets o (v - 1) else v.
Proof. reflexivity. Qed.

Lemma walkBack_below (fuel : nat) (offsets : list num) (o : num) (v : Z) :
  v < 0 -> walkBack fuel offsets o v = v.
Proof.
  intros Hv. destruct fuel as [|fuel]; [reflexivity|]. cbn [walkBack].
  rewrite get_negative by exact Hv. unfold gt, lt, cmp. now destruct o.
Qed.

Section VisibleRange.
Variable sizes : list num.
Hypothesis sizes_nonneg : nonNegativeSizes sizes.

Let offsets := calculateOffsets sizes.

Lemma offsets_finite (j : Z) :
  0 <= j < Z.of_nat (length sizes) ->
  exists c : Q, (offsets.[j])%js = fin c /\ (0 <= c)%Q.
Proof.
  intros Hj.
  destruct (calculateOffsets_monotone sizes sizes_nonneg j j) as (c & _ & E & _ & H0 & _);
    [lia | lia |].
  now exists c.
Qed.

Lemma offsets_first : (0 < length sizes)%nat -> (offsets.[0])%js = fin 0.
Proof.
  intros Hn. subst offsets. rewrite calculateOffsets_sums.
  change 0 with (Z.of_nat 0). now rewrite get_map_seq by lia.
Qed.

Lemma offsets_next (j : nat) :
  (S j < length sizes)%nat ->
  (offsets.[Z.of_nat (S j)])%js = (offsets.[Z.of_nat j] + sizes.[Z.of_nat j])%js.
Proof.
  intros Hj. subst offsets. rewrite calculateOffsets_sums, !get_map_seq by lia.
  apply sumBefore_S. lia.
Qed.

(** Where the walk back ends when some offset reaches [q >= 0]: at the
    first index whose offset reaches [q] when that offset is [q], and one
    before it when that offset is above [q]; every offset before that
    index lies below [q]. *)
Lemma visibleFromAxis_cases (q : Q) :
  (0 <= q)%Q ->
  (exists j, (offsets.[j] >=? fin q)%js = true) ->
  let i := findIndex (fun off => (off >=? fin q)%js) offsets in
  let v := visibleFromAxis offsets (fin q) in
  0 <= i < Z.of_nat (length sizes)
  /\ (forall j, 0 <= j < i -> (offsets.[j] <? fin q)%js = true)
  /\ exists c : Q,
       (offsets.[i])%js = fin c
       /\ ((c == q)%Q /\ v = i \/ (q < c)%Q /\ v = i - 1 /\ 0 <= i - 1).
Proof.
  intros Hq (j0 & Hj0). cbv zeta.
  assert (Hlen : length offsets = length sizes) by apply length_calculateOffsets.
  assert (Hfound : findIndex (fun off => (off >=? fin q)%js) offsets <> -1).
  { intros E. rewrite findIndex_none in E.
    assert (Hin : 0 <= j0 < Z.of_nat (length offsets)).
    { destruct (Z.lt_ge_cases j0 0); [rewrite get_negative in Hj0 by lia; discriminate|].
      destruct (Z.lt_ge_cases j0 (Z.of_nat (length offsets))); [lia|].
      rewrite get_beyond in Hj0 by lia. discriminate. }
    destruct (get_in offsets j0 Hin) as (a & Hnth & Ea).
    rewrite Ea, (E a) in Hj0; [discriminate | eapply nth_error_In, Hnth]. }
  destruct (findIndex_range (fun off => (off >=? fin q)%js) offsets) as [|R]; [lia|].
  rewrite Hlen in R.
  destruct (findIndexFrom_found (fun off => (off >=? fin q)%js) offsets 0 _
              (Z.le_refl 0) eq_refl Hfound) as (a & Hnth & Hp & Hbefore).
  rewrite Z.sub_0_r in Hnth, Hbefore.
  fold (findIndex (fun off => (off >=? fin q)%js) offsets) in Hnth, Hbefore.
  set (i := findIndex (fun off => (off >=? fin q)%js) offsets) in *.
  assert (Hearlier : forall j, 0 <= j < i -> (offsets.[j] <? fin q)%js = true).
  { intros j Hj. destruct (offsets_finite j ltac:(lia)) as (cj & Ej & _).
    destruct (get_in offsets j ltac:(lia)) as (b & Hb & Eb).
    specialize (Hbefore (Z.to_nat j) b ltac:(lia) Hb). cbv beta in Hbefore.
    rewrite <- Eb, Ej in Hbefore. rewrite Ej. apply lt_fin.
    destruct (Qlt_le_dec cj q) as [|Hge]; [assumption | exfalso].
    apply ge_fin in Hge. congruence. }
  split; [exact R|]. split; [exact Hearlier|].
  destruct (offsets_finite i ltac:(lia)) as (c & Ec & _).
  destruct (get_in offsets i ltac:(lia)) as (a' & Hnth' & Ea').
  rewrite Hnth in Hnth'. injection Hnth' as <-.
  rewrite <- Ea', Ec in Hp. apply ge_fin in Hp.
  exists c. split; [exact Ec|].
  unfold visibleFromAxis. fold i. rewrite walkBack_S, Ec.
  destruct (fin c >? fin q)%js eqn:Egt.
  - right. apply gt_fin in Egt. split; [exact Egt|].
    assert (Hi : 0 <= i - 1).
    { destruct (Z.eq_dec i 0) as [E0|]; [|lia]. exfalso.
      rewrite E0, offsets_first in Ec by lia. injection Ec as <-. lra. }
    split; [|exact Hi].
    destruct (length offsets) as [|n] eqn:En; [lia|].
    rewrite walkBack_S.
    destruct (offsets_finite (i - 1) ltac:(lia)) as (cp & Ep & _).
    specialize (Hearlier (i - 1) ltac:(lia)). rewrite Ep in Hearlier |- *.
    apply lt_fin in Hearlier.
    assert (Hno : (fin cp >? fin q)%js = false) by (apply gt_fin_false; lra).
    now rewrite Hno.
  - left. apply gt_fin_false in Egt. split; [lra | reflexivity].
Qed.

(** X14.  [visibleFrom] on one axis, over sizes that are finite and not
    negative.  When some offset reaches a scroll offset [q >= 0], it is
    the first row that starts exactly at [q] if a row does, and the last
    row that starts before [q] otherwise: its offset is at most [q] and
    every later offset reaches [q]; when its offset is [q] every earlier
    row starts before [q] (rows of size [0] that start at [q] as well
    come after it), and when its offset is below [q] every later row
    starts after [q].  When no offset reaches [q] (the scroll offset lies
    beyond the start of the last row), and when [q] is negative, it is
    [-1]. *)
Theorem visibleFromAxis_row_at_offset (q : Q) :
  let v := visibleFromAxis offsets (fin q) in
  ((forall j, (offsets.[j] >=? fin q)%js = false) -> v = -1)
  /\ ((q < 0)%Q -> v = -1)
  /\ ((0 <= q)%Q -> (exists j, (offsets.[j] >=? fin q)%js = true) ->
      0 <= v < Z.of_nat (length sizes)
      /\ (offsets.[v] <=? fin q)%js = true
      /\ (forall j, v < j < Z.of_nat (length sizes) -> (offsets.[j] >=? fin q)%js = true)
      /\ ((offsets.[v] === fin q)%js = true ->
          forall j, 0 <= j < v -> (offsets.[j] <? fin q)%js = true)
      /\ ((offsets.[v] <? fin q)%js = true ->
          forall j, v < j < Z.of_nat (length sizes) -> (offsets.[j] >? fin q)%js = true)).
Proof.
  cbv zeta.
  assert (Hlen : length offsets = length sizes) by apply length_calculateOffsets.
  assert (Hnone : (forall j, (offsets.[j] >=? fin q)%js = false) ->
                  visibleFromAxis offsets (fin q) = -1).
  { intros H. unfold visibleFromAxis.
    assert (E : findIndex (fun off => (off >=? fin q)%js) offsets = -1).
    { apply findIndex_none. intros a Hin. apply In_nth_error in Hin.
      destruct Hin as (n & Hn). specialize (H (Z.of_nat n)).
      now rewrite get_of_nat, Hn in H. }
    rewrite E. now apply walkBack_below. }
  split; [exact Hnone|]. split.
  - intros Hneg. destruct (length sizes) as [|n] eqn:En.
    + apply Hnone. intros j.
      assert (Hnil : offsets = []) by (apply length_zero_iff_nil; lia).
      rewrite Hnil. unfold get. destruct (j <? 0); [reflexivity|].
      now destruct (Z.to_nat j).
    + unfold visibleFromAxis.
      assert (H0 : (offsets.[0])%js = fin 0) by (apply offsets_first; lia).
      assert (E : findIndex (fun off => (off >=? fin q)%js) offsets = 0).
      { unfold findIndex. destruct offsets as [|a rest]; [discriminate|].
        cbn [findIndexFrom]. cbn in H0. subst a.
        assert (Hge : (fin 0 >=? fin q)%js = true) by (apply ge_fin; lra).
        now rewrite Hge. }
      assert (Hgt : (fin 0 >? fin q)%js = true) by (apply gt_fin; lra).
      rewrite E, walkBack_S, H0, Hgt. now apply walkBack_below.
  - intros Hq Hreached.
    destruct (visibleFromAxis_cases q Hq Hreached) as (Hi & Hearlier & c & Ec & Hcases).
    set (i := findIndex (fun off => (off >=? fin q)%js) offsets) in *.
    assert (Hlater : forall j, i <= j < Z.of_nat (length sizes) ->
                               exists cj, (offsets.[j])%js = fin cj /\ (c <= cj)%Q).
    { intros j Hj.
      destruct (calculateOffsets_monotone sizes sizes_nonneg i j)
        as (ci & cj & Ei & Ej & _ & Hmono); [lia | lia |].
      fold offsets in Ei, Ej. rewrite Ec in Ei. injection Ei as <-.
      now exists cj. }
    destruct Hcases as [(Heq & ->)|(Hgt & -> & Hpos)].
    + split; [lia|]. rewrite Ec.
      split; [unfold le, cmp, fin; apply Qle_bool_iff; lra|].
      split.
      { intros j Hj. destruct (Hlater j ltac:(lia)) as (cj & Ej & Hle).
        rewrite Ej. apply ge_fin. lra. }
      split; [intros _; exact Hearlier|].
      intros Hlt. apply lt_fin in Hlt. lra.
    + destruct (offsets_finite (i - 1) ltac:(lia)) as (cp & Ep & _).
      pose proof (Hearlier (i - 1) ltac:(lia)) as Hbelow.
      rewrite Ep in Hbelow. apply lt_fin in Hbelow.
      split; [lia|]. rewrite Ep.
      split; [unfold le, cmp, fin; apply Qle_bool_iff; lra|].
      split.
      { intros j Hj. destruct (Hlater j ltac:(lia)) as (cj & Ej & Hle).
        rewrite Ej. apply ge_fin. lra. }
      split.
      { intros Heq. unfold eqs, cmp, fin in Heq. apply Qeq_bool_iff in Heq. lra. }
      intros _ j Hj. destruct (Hlater j ltac:(lia)) as (cj & Ej & Hle).
      rewrite Ej. apply gt_fin. lra.
Qed.

End VisibleRange.

Lemma repeat_nonNegativeSizes (size : Q) (n : nat) :
  (0 <= size)%Q -> nonNegativeSizes (repeat (fin size) n).
Proof.
  intros H. unfold nonNegativeSizes. apply Forall_forall. intros v Hin.
  apply repeat_spec in Hin. subst v. now exists size.
Qed.

(** Rows of heights 40, 0, 40, 40 start at 0, 40, 40, 80: at the offset
    40 the rows 1 and 2 both start there, and [visibleFrom] is row 1. *)
Lemma visibleFromAxis_row_at_offset_witness :
  let offsets := calculateOffsets [fin 40; fin 0; fin 40; fin 40] in
  visibleFromAxis offsets (fin 40) = 1
  /\ (offsets.[2] === fin 40)%js = true
  /\ (forall j, 0 <= j < visibleFromAxis offsets (fin 40) ->
                 (offsets.[j] <? fin 40)%js = true).
Proof.
  cbv zeta.
  assert (Hsizes : nonNegativeSizes [fin 40; fin 0; fin 40; fin 40]).
  { unfold nonNegativeSizes. repeat constructor.
    - exists 40%Q. split; [reflexivity | discriminate].
    - exists 0%Q. split; [reflexivity | discriminate].
    - exists 40%Q. split; [reflexivity | discriminate].
    - exists 40%Q. split; [reflexivity | discriminate]. }
  destruct (visibleFromAxis_row_at_offset [fin 40; fin 0; fin 40; fin 40] Hsizes 40)
    as (_ & _ & Hrow).
  destruct Hrow as (_ & _ & _ & Hfirst & _).
  - discriminate.
  - exists 1. vm_compute. reflexivity.
  - split; [vm_compute; reflexivity|]. split; [vm_compute; reflexivity|].
    apply Hfirst. vm_compute. reflexivity.
Defined.

(** ** Every row in the viewport is rendered *)

Section Coverage.
Variable sizes : list num.
Hypothesis sizes_nonneg : nonNegativeSizes sizes.

(** A row that overlaps the viewport [[o, o + size)] lies in the visible
    range. *)
Lemma overlapping_in_visible_range (o size : num) (j : nat) :
  (j < length sizes)%nat ->
  (o <? (calculateOffsets sizes).[Z.of_nat j] + sizes.[Z.of_nat j])%js = true ->
  ((calculateOffsets sizes).[Z.of_nat j] <? o + size)%js = true
  \/ (size === int 0)%js = true ->
  visibleFromAxis (calculateOffsets sizes) o <= Z.of_nat j
  /\ Z.of_nat j < visibleToAxis (calculateOffsets sizes) (length sizes) o size.
Proof.
  intros Hj Hend Hstart.
  assert (Hlen : length (calculateOffsets sizes) = length sizes)
    by apply length_calculateOffsets.
  destruct o as [q|]; [|unfold lt, cmp in Hend; discriminate].
  destruct (offsets_finite sizes sizes_nonneg (Z.of_nat j) ltac:(lia)) as (cj & Ej & _).
  destruct (size_nonneg sizes sizes_nonneg j Hj) as (hj & Eh & Hh).
  rewrite Ej, Eh in Hend. cbn in Hend. apply (lt_fin q (cj + hj)) in Hend.
  split.
  - (* the row does not end before the first visible one starts *)
    pose proof (visibleFromAxis_bounds (calculateOffsets sizes) (fin q)) as (_ & _ & Hhigh).
    pose proof (visibleFromAxis_exit (calculateOffsets sizes) (fin q)) as Hexit.
    rewrite Hlen in Hhigh.
    destruct (Z_le_gt_dec (visibleFromAxis (calculateOffsets sizes) (fin q)) (Z.of_nat j))
      as [|Hgt]; [assumption | exfalso].
    destruct (calculateOffsets_monotone sizes sizes_nonneg (Z.of_nat (S j))
                (visibleFromAxis (calculateOffsets sizes) (fin q)))
      as (cn & cv & En & Ev & _ & Hmono); [lia | lia |].
    rewrite Ev in Hexit. apply gt_fin_false in Hexit.
    rewrite offsets_next, Ej, Eh in En by lia. cbn in En. injection En as <-.
    lra.
  - (* the row starts before the first row past the viewport *)
    destruct Hstart as [Hstart|Hzero];
      [|rewrite (visibleToAxis_zero_size _ _ _ _ Hzero); lia].
    rewrite <- Hlen.
    change (Some q) with (fin q).
    destruct (visibleToAxis_cases (calculateOffsets sizes) (fin q) size)
      as [E|(Hrange & Hreach)]; [rewrite E, Hlen; lia|].
    destruct (Z_lt_ge_dec (Z.of_nat j)
                (visibleToAxis (calculateOffsets sizes) (length (calculateOffsets sizes))
                   (fin q) size)) as [|Hge]; [assumption | exfalso].
    destruct (calculateOffsets_monotone sizes sizes_nonneg
                (visibleToAxis (calculateOffsets sizes) (length (calculateOffsets sizes))
                   (fin q) size) (Z.of_nat j))
      as (cv & cj' & Ev & Ej' & _ & Hmono); [lia | lia |].
    rewrite Ej in Ej'. injection Ej' as <-.
    rewrite Ev in Hreach. rewrite Ej in Hstart.
    destruct size as [h|]; [|discriminate].
    cbn in Hreach, Hstart. apply (ge_fin cv (q + h)) in Hreach.
    apply (lt_fin cj (q + h)) in Hstart. lra.
Qed.

End Coverage.

(** ** The render window after resolution *)

(** An item on screen has an entry in the tables, and its start is the
    entry of the offset table. *)
Lemma onScreen_overlaps (sizes : list num) (o size : num) (j : nat) :
  Stated.onScreen sizes o size j = true ->
  (j < length sizes)%nat
  /\ (o <? (calculateOffsets sizes).[Z.of_nat j] + sizes.[Z.of_nat j])%js = true
  /\ (((calculateOffsets sizes).[Z.of_nat j] <? o + size)%js = true
      \/ (size === int 0)%js = true).
Proof.
  unfold Stated.onScreen. intros H. apply andb_prop in H. destruct H as [Hend Hstart].
  apply orb_prop in Hstart.
  assert (Hj : (j < length sizes)%nat).
  { destruct (Nat.lt_ge_cases j (length sizes)) as [|Hge]; [assumption | exfalso].
    rewrite (get_beyond sizes (Z.of_nat j)) in Hend by lia.
    unfold lt, cmp, add, lift2 in Hend.
    destruct o; destruct (sumBefore sizes j); discriminate Hend. }
  split; [exact Hj|].
  now rewrite calculateOffsets_sums, get_map_seq by exact Hj.
Qed.

(** C1.  After an accepted [setOffset] and its frame, the render window
    satisfies [0 <= fromRow <= toRow <= numRows] and
    [0 <= fromCol <= toCol <= numCols], and it holds the visible range
    as computed directly from the offset and the viewport: over row
    heights that are finite and not negative, every row that ends after
    [offset.y] and starts before [offset.y + height] (its start being the
    sum of the heights before it) lies in [[fromRow, toRow)]; alike the
    columns.  The range [setOffset] itself searches for,
    [[visibleFrom, visibleTo)], lies in the window as well ([visibleFrom]
    is [-1] when [findIndex] finds no offset, and the window then starts
    at the index [0]).  The batch size and the viewport sizes are not
    negative. *)
Theorem setOffset_window_invariant {Cell : Type} (P : Props Cell)
    (cE rE kE force : bool) (offset : Point) (s : State) :
  0 <= renderBatchSize P ->
  (width (windowSizeRef s) <? int 0)%js = false ->
  (height (windowSizeRef s) <? int 0)%js = false ->
  fst (setOffset P cE rE kE offset force s) = true ->
  let w := renderWindowRef (animationFrame P (snd (setOffset P cE rE kE offset force s))) in
  let vf := visibleFrom P offset in
  let vt := visibleTo P (windowSizeRef s) offset in
  (0 <= fromRow w /\ fromRow w <= toRow w /\ toRow w <= Z.of_nat (numRows P))
  /\ (0 <= fromCol w /\ fromCol w <= toCol w /\ toCol w <= Z.of_nat (numCols P))
  /\ (nonNegativeSizes (rowHeights P) ->
      forall j : nat,
        Stated.onScreen (rowHeights P) (y offset) (height (windowSizeRef s)) j = true ->
        fromRow w <= Z.of_nat j < toRow w)
  /\ (nonNegativeSizes (colWidths P) ->
      forall j : nat,
        Stated.onScreen (colWidths P) (x offset) (width (windowSizeRef s)) j = true ->
        fromCol w <= Z.of_nat j < toCol w)
  /\ (fromRow w <= Z.max 0 (row vf) /\ row vt <= toRow w)
  /\ (fromCol w <= Z.max 0 (col vf) /\ col vt <= toCol w)
  /\ (forall r : nat, row vf <= Z.of_nat r < row vt -> fromRow w <= Z.of_nat r < toRow w)
  /\ (forall c : nat, col vf <= Z.of_nat c < col vt -> fromCol w <= Z.of_nat c < toCol w).
Proof.
  intros Hbatch Hwidth Hheight Haccepted.
  rewrite (setOffset_accepted P _ _ _ _ _ _ Haccepted).
  erewrite animationFrame_window by reflexivity.
  cbn [frameWindow]. rewrite resolveWindow_axes. cbv zeta.
  cbn [fromRow toRow fromCol toCol].
  pose proof (visibleFromAxis_bounds (rowOffsets P) (y offset)) as (Hr1 & _ & _).
  pose proof (visibleFromAxis_bounds (colOffsets P) (x offset)) as (Hc1 & _ & _).
  pose proof (visibleFrom_le_visibleTo (rowOffsets P) (y offset) _ Hheight) as Hr2.
  pose proof (visibleFrom_le_visibleTo (colOffsets P) (x offset) _ Hwidth) as Hc2.
  pose proof (visibleToAxis_bounds (rowOffsets P) (y offset) (height (windowSizeRef s))) as Hr3.
  pose proof (visibleToAxis_bounds (colOffsets P) (x offset) (width (windowSizeRef s))) as Hc3.
  pose proof (expandAxis_bounds (renderBatchSize P) (Z.of_nat (length (rowOffsets P)))
                (row (visibleFrom P offset)) (row (visibleTo P (windowSizeRef s) offset))
                (fromRow (renderWindowRef s)) (toRow (renderWindowRef s))) as Hrows.
  pose proof (expandAxis_bounds (renderBatchSize P) (Z.of_nat (length (colOffsets P)))
                (col (visibleFrom P offset)) (col (visibleTo P (windowSizeRef s) offset))
                (fromCol (renderWindowRef s)) (toCol (renderWindowRef s))) as Hcols.
  pose proof (length_calculateSizes (rowHeight P) (numRows P)) as Hlenrows.
  pose proof (length_calculateSizes (colWidth P) (numCols P)) as Hlencols.
  fold (rowHeights P) in Hlenrows. fold (colWidths P) in Hlencols.
  unfold visibleFrom, visibleTo in *. cbn [row col] in *.
  rewrite <- length_rowOffsets, <- length_colOffsets in *.
  cbv zeta in Hrows, Hcols.
  specialize (Hrows Hbatch Hr1 Hr2 Hr3). specialize (Hcols Hbatch Hc1 Hc2 Hc3).
  split; [lia|]. split; [lia|].
  split.
  { intros Hsizes j Hscreen.
    destruct (onScreen_overlaps _ _ _ _ Hscreen) as (Hj & Hend & Hstart).
    destruct (overlapping_in_visible_range (rowHeights P) Hsizes (y offset)
                (height (windowSizeRef s)) j Hj Hend Hstart) as [Hfrom Hto].
    fold (rowOffsets P) in Hfrom, Hto.
    rewrite Hlenrows in Hto. lia. }
  split.
  { intros Hsizes j Hscreen.
    destruct (onScreen_overlaps _ _ _ _ Hscreen) as (Hj & Hend & Hstart).
    destruct (overlapping_in_visible_range (colWidths P) Hsizes (x offset)
                (width (windowSizeRef s)) j Hj Hend Hstart) as [Hfrom Hto].
    fold (colOffsets P) in Hfrom, Hto.
    rewrite Hlencols in Hto. lia. }
  repeat split; try lia; intros; lia.
Qed.

Lemma setOffset_window_invariant_witness :
  let s := Scenario.mounted Scenario.tallGrid 80 100 in
  let w := renderWindowRef
             (animationFrame Scenario.tallGrid
                (snd (setOffset Scenario.tallGrid true true true (Scenario.point 0 250)
                        false s))) in
  Stated.onScreen (rowHeights Scenario.tallGrid) (int 250) (int 100) 6 = true
  /\ fromRow w <= 6 < toRow w
  /\ 0 <= fromRow w /\ toRow w <= 10.
Proof.
  cbv zeta.
  assert (Haccepted : fst (setOffset Scenario.tallGrid true true true (Scenario.point 0 250)
                             false (Scenario.mounted Scenario.tallGrid 80 100)) = true)
    by (vm_compute; reflexivity).
  assert (Hscreen : Stated.onScreen (rowHeights Scenario.tallGrid)
                      (y (Scenario.point 0 250))
                      (height (windowSizeRef (Scenario.mounted Scenario.tallGrid 80 100)))
                      6 = true)
    by (vm_compute; reflexivity).
  destruct (setOffset_window_invariant Scenario.tallGrid true true true false
              (Scenario.point 0 250) (Scenario.mounted Scenario.tallGrid 80 100)
              ltac:(discriminate) ltac:(vm_compute; reflexivity)
              ltac:(vm_compute; reflexivity) Haccepted)
    as ((H0 & _ & Hcount) & _ & Hrows & _).
  split; [vm_compute; reflexivity|].
  split; [|split; [exact H0 | exact Hcount]].
  exact (Hrows (repeat_nonNegativeSizes 40 10 ltac:(vm_compute; discriminate)) 6%nat Hscreen).
Defined.

(** X15.  Every row that overlaps the viewport is rendered.  Over row
    heights that are finite and not negative, with a batch size and a
    viewport height that are not negative: after an accepted [setOffset]
    and its frame, a row [j] that ends after the scroll offset
    ([rowOffsets[j] + rowHeights[j] > offset.y]) and starts before the end
    of the viewport ([rowOffsets[j] < offset.y + height], or any row when
    the height is [0]) lies in the render window.  Alike for the
    columns. *)
Theorem overlapping_rows_and_columns_rendered {Cell : Type} (P : Props Cell)
    (cE rE kE force : bool) (offset : Point) (s : State) :
  0 <= renderBatchSize P ->
  fst (setOffset P cE rE kE offset force s) = true ->
  let w := renderWindowRef (animationFrame P (snd (setOffset P cE rE kE offset force s))) in
  (nonNegativeSizes (rowHeights P) ->
   (height (windowSizeRef s) <? int 0)%js = false ->
   forall j : nat,
     (j < numRows P)%nat ->
     (y offset <? (rowOffsets P).[Z.of_nat j] + (rowHeights P).[Z.of_nat j])%js = true ->
     ((rowOffsets P).[Z.of_nat j] <? y offset + height (windowSizeRef s))%js = true
     \/ (height (windowSizeRef s) === int 0)%js = true ->
     fromRow w <= Z.of_nat j < toRow w)
  /\ (nonNegativeSizes (colWidths P) ->
      (width (windowSizeRef s) <? int 0)%js = false ->
      forall j : nat,
        (j < numCols P)%nat ->
        (x offset <? (colOffsets P).[Z.of_nat j] + (colWidths P).[Z.of_nat j])%js = true ->
        ((colOffsets P).[Z.of_nat j] <? x offset + width (windowSizeRef s))%js = true
        \/ (width (windowSizeRef s) === int 0)%js = true ->
        fromCol w <= Z.of_nat j < toCol w).
Proof.
  intros Hbatch Haccepted. cbv zeta.
  rewrite (setOffset_accepted P _ _ _ _ _ _ Haccepted).
  erewrite animationFrame_window by reflexivity.
  cbn [frameWindow]. rewrite resolveWindow_axes. cbv zeta.
  cbn [fromRow toRow fromCol toCol]. unfold visibleFrom, visibleTo. cbn [row col].
  split; intros Hsizes Hsize j Hj Hend Hstart.
  - pose proof (length_calculateSizes (rowHeight P) (numRows P)) as Hlen.
    fold (rowHeights P) in Hlen.
    destruct (overlapping_in_visible_range (rowHeights P) Hsizes (y offset)
                (height (windowSizeRef s)) j) as [Hfrom Hto];
      [lia | exact Hend | exact Hstart |].
    fold (rowOffsets P) in Hfrom, Hto. rewrite Hlen in Hto.
    pose proof (visibleFromAxis_bounds (rowOffsets P) (y offset)) as (Hlow & _ & _).
    pose proof (visibleToAxis_bounds (rowOffsets P) (y offset) (height (windowSizeRef s)))
      as Hbounds.
    pose proof (visibleFrom_le_visibleTo (rowOffsets P) (y offset) _ Hsize) as Hle.
    pose proof (expandAxis_bounds (renderBatchSize P) (Z.of_nat (length (rowOffsets P)))
                  (visibleFromAxis (rowOffsets P) (y offset))
                  (visibleToAxis (rowOffsets P) (numRows P) (y offset)
                     (height (windowSizeRef s)))
                  (fromRow (renderWindowRef s)) (toRow (renderWindowRef s))) as Haxis.
    rewrite length_rowOffsets in *. cbv zeta in Haxis.
    specialize (Haxis Hbatch Hlow Hle Hbounds). lia.
  - pose proof (length_calculateSizes (colWidth P) (numCols P)) as Hlen.
    fold (colWidths P) in Hlen.
    destruct (overlapping_in_visible_range (colWidths P) Hsizes (x offset)
                (width (windowSizeRef s)) j) as [Hfrom Hto];
      [lia | exact Hend | exact Hstart |].
    fold (colOffsets P) in Hfrom, Hto. rewrite Hlen in Hto.
    pose proof (visibleFromAxis_bounds (colOffsets P) (x offset)) as (Hlow & _ & _).
    pose proof (visibleToAxis_bounds (colOffsets P) (x offset) (width (windowSizeRef s)))
      as Hbounds.
    pose proof (visibleFrom_le_visibleTo (colOffsets P) (x offset) _ Hsize) as Hle.
    pose proof (expandAxis_bounds (renderBatchSize P) (Z.of_nat (length (colOffsets P)))
                  (visibleFromAxis (colOffsets P) (x offset))
                  (visibleToAxis (colOffsets P) (numCols P) (x offset)
                     (width (windowSizeRef s)))
                  (fromCol (renderWindowRef s)) (toCol (renderWindowRef s))) as Haxis.
    rewrite length_colOffsets in *. cbv zeta in Haxis.
    specialize (Haxis Hbatch Hlow Hle Hbounds). lia.
Qed.

Lemma overlapping_rows_and_columns_rendered_witness :
  let s := Scenario.mounted Scenario.tallGrid 80 100 in
  let w := renderWindowRef
             (animationFrame Scenario.tallGrid
                (snd (setOffset Scenario.tallGrid true true true (Scenario.point 0 250)
                        false s))) in
  fromRow w <= 8 < toRow w.
Proof.
  cbv zeta.
  assert (Haccepted : fst (setOffset Scenario.tallGrid true true true (Scenario.point 0 250)
                             false (Scenario.mounted Scenario.tallGrid 80 100)) = true)
    by (vm_compute; reflexivity).
  destruct (overlapping_rows_and_columns_rendered Scenario.tallGrid true true true false
              (Scenario.point 0 250) (Scenario.mounted Scenario.tallGrid 80 100)
              ltac:(discriminate) Haccepted) as [Hrows _].
  apply (Hrows (repeat_nonNegativeSizes 40 10 ltac:(vm_compute; discriminate))
           ltac:(vm_compute; reflexivity) 8%nat).
  - vm_compute. lia.
  - vm_compute. reflexivity.
  - left. vm_compute. reflexivity.
Defined.

(** ** The decay comes to an end *)

(** After [k] ticks a finite speed [v] has shrunk to at most
    [19 |v| / (19 + k)]. *)
Lemma speedAfter_bound (vx vy : Q) (k : nat) :
  exists a b : Q,
    speedAfter k (fin vx, fin vy) = (fin a, fin b)
    /\ (Qabs a * (19 + inject_Z (Z.of_nat k)) <= 19 * Qabs vx)%Q
    /\ (Qabs b * (19 + inject_Z (Z.of_nat k)) <= 19 * Qabs vy)%Q.
Proof.
  induction k as [|k (a & b & E & Ha & Hb)].
  - exists vx, vy. split; [reflexivity|]. unfold inject_Z. cbn [Z.of_nat]. split; lra.
  - exists (a * (95 # 100))%Q, (b * (95 # 100))%Q.
    split; [rewrite speedAfter_S, E; reflexivity|].
    rewrite Nat2Z.inj_succ. unfold Z.succ. rewrite inject_Z_plus.
    assert (Hk : (0 <= inject_Z (Z.of_nat k))%Q)
      by (rewrite <- (Zle_Qle 0); lia).
    pose proof (Qabs_nonneg a) as Ha0. pose proof (Qabs_nonneg b) as Hb0.
    rewrite !Qabs_Qmult.
    change (Qabs (95 # 100)) with (95 # 100). unfold inject_Z at 2 4.
    split; nra.
Qed.

Lemma decay_reaches_threshold (vx vy : Q) :
  exists n : nat, decayStops (speedAfter (S n) (fin vx, fin vy)) = true.
Proof.
  set (A := (1900 * (Qabs vx + Qabs vy))%Q).
  exists (Z.to_nat (Qceiling A)).
  destruct (speedAfter_bound vx vy (S (Z.to_nat (Qceiling A)))) as (a & b & E & Ha & Hb).
  rewrite E. unfold decayStops, THRESHOLD. cbn [fst snd abs option_map add lift2].
  apply lt_fin.
  pose proof (Qabs_nonneg vx) as Hx. pose proof (Qabs_nonneg vy) as Hy.
  pose proof (Qabs_nonneg a) as Ha0. pose proof (Qabs_nonneg b) as Hb0.
  assert (HA : (0 <= A)%Q) by (subst A; lra).
  pose proof (Qle_ceiling A) as Hceil.
  assert (Hc0 : 0 <= Qceiling A).
  { destruct (Z.lt_ge_cases (Qceiling A) 0) as [Hneg|]; [|lia].
    rewrite Zlt_Qlt in Hneg. unfold inject_Z at 2 in Hneg. lra. }
  rewrite Nat2Z.inj_succ, Z2Nat.id in Ha, Hb by exact Hc0.
  unfold Z.succ in Ha, Hb. rewrite inject_Z_plus in Ha, Hb.
  unfold inject_Z at 2 in Ha. unfold inject_Z at 2 in Hb.
  subst A. set (c := inject_Z (Qceiling (1900 * (Qabs vx + Qabs vy)))) in *.
  assert (Hc : (0 <= c)%Q) by lra.
  nra.
Qed.

Lemma run_ticks_until_stop {Cell : Type} (P : Props Cell) (p n : nat)
    (speed : num * num) (s : State) :
  intervals s = [(p, speed)] ->
  decayStops (speedAfter (S n) speed) = true ->
  exists k : nat,
    (1 <= k <= S n)%nat /\ intervals (run P (repeat (IntervalTick p) k) s) = [].
Proof.
  revert speed s. induction n as [|n IH]; intros speed s Hint Hstop.
  - exists 1%nat. split; [lia|]. cbn [repeat run fold_left step].
    pose proof (intervalTick_single P p speed s Hint) as Htick. cbv zeta in Htick.
    rewrite speedAfter_S in Hstop. change (speedAfter 0 speed) with speed in Hstop.
    rewrite Hstop in Htick. apply Htick.
  - pose proof (intervalTick_single P p speed s Hint) as Htick. cbv zeta in Htick.
    destruct (decayStops (decayedSpeed speed)) eqn:Efirst.
    + exists 1%nat. split; [lia|]. cbn [repeat run fold_left step]. apply Htick.
    + rewrite <- speedAfter_shift in Hstop.
      destruct (IH (decayedSpeed speed) (intervalTick P p s) Htick Hstop) as (k & Hk & Hgone).
      exists (S k). split; [lia|]. exact Hgone.
Qed.

(** X16.  The decay comes to an end.  An interval that holds finite
    speeds, and is the only one running, is cleared after finitely many
    of its ticks, whatever the speeds and whatever the grid does with the
    deltas. *)
Theorem decay_terminates {Cell : Type} (P : Props Cell) (p : nat) (vx vy : Q) (s : State) :
  intervals s = [(p, (fin vx, fin vy))] ->
  exists k : nat,
    (1 <= k)%nat /\ intervals (run P (repeat (IntervalTick p) k) s) = [].
Proof.
  intros Hint.
  destruct (decay_reaches_threshold vx vy) as (n & Hstop).
  destruct (run_ticks_until_stop P p n _ s Hint Hstop) as (k & Hk & Hgone).
  exists k. split; [lia | exact Hgone].
Qed.

Lemma decay_terminates_witness :
  exists k : nat,
    (1 <= k)%nat
    /\ intervals (run Scenario.tallGrid (repeat (IntervalTick 1) k)
                    (run Scenario.tallGrid Scenario.flick
                       (Scenario.mounted Scenario.tallGrid 80 100))) = [].
Proof.
  apply (decay_terminates Scenario.tallGrid 1
           ((inject_Z 100 - inject_Z 80) / (inject_Z 32 - inject_Z 16))
           ((inject_Z 0 - inject_Z 0) / (inject_Z 32 - inject_Z 16))).
  vm_compute. reflexivity.
Defined.

(** ** The cells of a render *)

Import Compositor.

Lemma in_range (j from to : Z) : In j (range from to) <-> from <= j < to.
Proof.
  unfold range. rewrite in_map_iff. split.
  - intros (k & <- & Hk). apply in_seq in Hk. lia.
  - intros Hj. exists (Z.to_nat (j - from)). split; [lia|]. apply in_seq. lia.
Qed.

Lemma forLoop_append {B : Type} (f : Z -> list B) (body : Z -> list B -> Outcome (list B))
    (n : nat) (i : Z) (acc : list B) :
  (forall (k : nat) (acc' : list B),
      (k < n)%nat -> body (i + Z.of_nat k) acc' = Done (acc' ++ f (i + Z.of_nat k))) ->
  forLoop n i body acc
  = Done (acc ++ flat_map f (map (fun k => i + Z.of_nat k) (seq 0 n))).
Proof.
  revert i acc. induction n as [|n IH]; intros i acc Hbody; cbn [forLoop].
  - cbn. now rewrite app_nil_r.
  - pose proof (Hbody 0%nat acc ltac:(lia)) as H0. cbn [Z.of_nat] in H0.
    rewrite Z.add_0_r in H0. rewrite H0.
    rewrite IH.
    + cbn [seq map flat_map]. rewrite Z.add_0_r, <- app_assoc. do 3 f_equal.
      rewrite <- seq_shift, map_map. f_equal. apply map_ext. intros k. lia.
    + intros k acc' Hk. replace (i + 1 + Z.of_nat k) with (i + Z.of_nat (S k)) by lia.
      apply Hbody. lia.
Qed.

Lemma forRange_append {B : Type} (f : Z -> list B) (body : Z -> list B -> Outcome (list B))
    (from to : Z) (acc : list B) :
  (forall (j : Z) (acc' : list B), from <= j < to -> body j acc' = Done (acc' ++ f j)) ->
  forRange from to body acc = Done (acc ++ flat_map f (range from to)).
Proof.
  intros Hbody. unfold forRange, range. apply forLoop_append.
  intros k acc' Hk. apply Hbody. lia.
Qed.

Lemma forLoop_throws {St : Type} (body : Z -> St -> Outcome St) (n : nat) (i : Z) (acc : St) :
  (exists k : nat, (k < n)%nat /\ forall acc', body (i + Z.of_nat k) acc' = Throws) ->
  forLoop n i body acc = Throws.
Proof.
  revert i acc. induction n as [|n IH]; intros i acc (k & Hk & Hthrows); [lia|].
  cbn [forLoop]. destruct k as [|k].
  - cbn [Z.of_nat] in Hthrows. rewrite Z.add_0_r in Hthrows. now rewrite Hthrows.
  - destruct (body i acc) as [acc'|]; [|reflexivity].
    apply IH. exists k. split; [lia|]. intros acc''.
    replace (i + 1 + Z.of_nat k) with (i + Z.of_nat (S k)) by lia. apply Hthrows.
Qed.

Lemma forRange_throws {St : Type} (body : Z -> St -> Outcome St) (from to : Z) (acc : St) :
  (exists j : Z, from <= j < to /\ forall acc', body j acc' = Throws) ->
  forRange from to body acc = Throws.
Proof.
  intros (j & Hj & Hthrows). unfold forRange. apply forLoop_throws.
  exists (Z.to_nat (j - from)). split; [lia|].
  intros acc'. replace (from + Z.of_nat (Z.to_nat (j - from))) with j by lia.
  apply Hthrows.
Qed.

Lemma forEach_stacked {A B : Type} (f : num -> A -> list B) (h : A -> num)
    (body : A -> list B * num -> Outcome (list B * num)) (arr : list A)
    (cells : list B) (sum : num) :
  (forall a cells' sum',
      In a arr -> body a (cells', sum') = Done (cells' ++ f sum' a, (sum' + h a)%js)) ->
  forEach arr body (cells, sum)
  = Done (cells ++ stacked f h sum arr, fold_left add (map h arr) sum).
Proof.
  revert cells sum. induction arr as [|a arr IH]; intros cells sum Hbody;
    cbn [forEach stacked map fold_left].
  - now rewrite app_nil_r.
  - rewrite Hbody by now left. rewrite IH by (intros; apply Hbody; now right).
    now rewrite <- app_assoc.
Qed.

Lemma in_stacked {A B : Type} (f : num -> A -> list B) (h : A -> num) (sum : num)
    (arr : list A) (b : B) :
  In b (stacked f h sum arr)
  <-> exists (k : nat) (a : A),
        nth_error arr k = Some a
        /\ In b (f (fold_left add (firstn k (map h arr)) sum) a).
Proof.
  revert sum. induction arr as [|a arr IH]; intros sum; cbn [stacked].
  - split; [intros [] | intros ([|k] & a & Hk & _); discriminate].
  - rewrite in_app_iff, IH. split.
    + intros [Hin|(k & a' & Hk & Hin)].
      * exists 0%nat, a. split; [reflexivity | exact Hin].
      * exists (S k), a'. split; [exact Hk | exact Hin].
    + intros ([|k] & a' & Hk & Hin).
      * injection Hk as <-. now left.
      * right. exists k, a'. split; [exact Hk | exact Hin].
Qed.

Section RenderedCells.
Context {Cell : Type} (P : Props Cell).
Variable children : option Cell -> Z -> Z -> bool.
Variable s : State.

Lemma cellAt_valid (r c : Z) :
  0 <= r < Z.of_nat (numRows P) -> exists v, cellAt P r c = Done v.
Proof.
  intros Hr. unfold cellAt. destruct (Z.ltb_spec r 0); [lia|].
  destruct (nth_error (rows P) (Z.to_nat r)) as [cells|] eqn:E; [eauto|].
  apply nth_error_None in E. unfold numRows in Hr. lia.
Qed.

Lemma cellAt_invalid (r c : Z) :
  ~ 0 <= r < Z.of_nat (numRows P) -> cellAt P r c = Throws.
Proof.
  intros Hr. unfold cellAt. destruct (Z.ltb_spec r 0); [reflexivity|].
  destruct (nth_error (rows P) (Z.to_nat r)) as [cells|] eqn:E; [|reflexivity].
  assert (Z.to_nat r < length (rows P))%nat by (apply nth_error_Some; congruence).
  unfold numRows in Hr. lia.
Qed.

Lemma makeRenderedCell_invalid (r c : Z) (top left : option num) :
  ~ 0 <= r < Z.of_nat (numRows P) -> makeRenderedCell P children s r c top left = Throws.
Proof. intros Hr. unfold makeRenderedCell. now rewrite cellAt_invalid. Qed.

Lemma pushCell_made (r c : Z) (top left : option num) (cells : list RenderedCell) :
  0 <= r < Z.of_nat (numRows P) ->
  pushCell cells (makeRenderedCell P children s r c top left)
  = Done (cells ++ made P children s r c top left).
Proof.
  intros Hr. unfold made, makeRenderedCell.
  destruct (cellAt_valid r c Hr) as (v & ->). cbv zeta.
  destruct (children v r c); cbn [pushCell]; [reflexivity | now rewrite app_nil_r].
Qed.

(** What a call that returns has made: one box, if [children] gave
    something for the cell. *)
Lemma in_made (r c : Z) (top left : option num) (cell : RenderedCell) :
  In cell (made P children s r c top left)
  <-> exists v, cellAt P r c = Done v /\ children v r c = true
                /\ cell = boxAt P r c
                            (match top with Some t => t | None => scrolledTop P s r end)
                            (match left with Some l => l | None => scrolledLeft P s c end).
Proof.
  unfold made, makeRenderedCell. destruct (cellAt P r c) as [v|].
  - cbv zeta. destruct (children v r c) eqn:Ec.
    + split.
      * intros [<-|[]]. exists v. split; [reflexivity|]. split; [exact Ec|].
        now destruct top, left.
      * intros (v' & Hv & _ & ->). left. now destruct top, left.
    + split; [intros [] | intros (v' & Hv & Hc & _); congruence].
  - split; [intros [] | intros (v & Hv & _); discriminate].
Qed.

Lemma includes_spec (arr : list Z) (i : Z) : includes arr i = true <-> In i arr.
Proof.
  unfold includes. rewrite existsb_exists. split.
  - intros (j & Hin & E). apply Z.eqb_eq in E. now subst.
  - intros Hin. exists i. split; [exact Hin | apply Z.eqb_refl].
Qed.

(** The scrolled layer, when every row of the window is a row of the
    grid or a stuck row. *)
Lemma buildRenderedCells_done :
  (forall r, fromRow (renderWindowRef s) <= r < toRow (renderWindowRef s) ->
             includes (stuckRowsRef s) r = false -> 0 <= r < Z.of_nat (numRows P)) ->
  buildRenderedCells P children s
  = Done (flat_map (scrolledRow P children s)
            (range (fromRow (renderWindowRef s)) (toRow (renderWindowRef s)))).
Proof.
  intros Hvalid. unfold buildRenderedCells. cbv zeta.
  rewrite (forRange_append (scrolledRow P children s)); [reflexivity|].
  intros r acc Hr. unfold scrolledRow.
  destruct (includes (stuckRowsRef s) r) eqn:Estuck; [now rewrite app_nil_r|].
  apply forRange_append. intros c acc' Hc.
  destruct (includes (stuckColsRef s) c); [now rewrite app_nil_r|].
  apply pushCell_made. now apply Hvalid.
Qed.

Lemma buildStuckRowCells_done :
  (forall r, In r (stuckRowsRef s) -> 0 <= r < Z.of_nat (numRows P)) ->
  buildStuckRowCells P children s
  = Done (stacked (stuckRowAt P children s) (fun r => (rowHeights P).[r]%js) (int 0)
            (stuckRowsRef s),
          fold_left add (map (fun r => (rowHeights P).[r]%js) (stuckRowsRef s)) (int 0)).
Proof.
  intros Hvalid. unfold buildStuckRowCells. cbv zeta.
  rewrite (forEach_stacked (stuckRowAt P children s) (fun r => (rowHeights P).[r]%js));
    [reflexivity|].
  intros r cells sum Hin. cbn [fst snd]. unfold stuckRowAt.
  rewrite (forRange_append
             (fun c => if includes (stuckColsRef s) c then []
                       else made P children s r c (Some sum) None)); [reflexivity|].
  intros c acc' Hc.
  destruct (includes (stuckColsRef s) c); [now rewrite app_nil_r|].
  apply pushCell_made. now apply Hvalid.
Qed.

Lemma buildStuckColCells_done :
  (forall r, fromRow (renderWindowRef s) <= r < toRow (renderWindowRef s) ->
             includes (stuckRowsRef s) r = false -> 0 <= r < Z.of_nat (numRows P)) ->
  buildStuckColCells P children s
  = Done (stacked (stuckColAt P children s) (fun c => (colWidths P).[c]%js) (int 0)
            (stuckColsRef s),
          fold_left add (map (fun c => (colWidths P).[c]%js) (stuckColsRef s)) (int 0)).
Proof.
  intros Hvalid. unfold buildStuckColCells. cbv zeta.
  rewrite (forEach_stacked (stuckColAt P children s) (fun c => (colWidths P).[c]%js));
    [reflexivity|].
  intros c cells sum Hin. cbn [fst snd]. unfold stuckColAt.
  rewrite (forRange_append
             (fun r => if includes (stuckRowsRef s) r then []
                       else made P children s r c None (Some sum))); [reflexivity|].
  intros r acc' Hr.
  destruct (includes (stuckRowsRef s) r) eqn:Estuck; [now rewrite app_nil_r|].
  apply pushCell_made. now apply Hvalid.
Qed.

Lemma buildStuckCells_done :
  (forall r, In r (stuckRowsRef s) -> 0 <= r < Z.of_nat (numRows P)) ->
  buildStuckCells P children s
  = Done (stacked (stuckAt P children s) (fun r => (rowHeights P).[r]%js) (int 0)
            (stuckRowsRef s),
          fold_left add (map (fun r => (rowHeights P).[r]%js) (stuckRowsRef s)) (int 0)).
Proof.
  intros Hvalid. unfold buildStuckCells. cbv zeta.
  rewrite (forEach_stacked (stuckAt P children s) (fun r => (rowHeights P).[r]%js));
    [reflexivity|].
  intros r cells sum Hin. cbn [fst snd]. unfold stuckAt.
  rewrite (forEach_stacked (fun left c => made P children s r c (Some sum) (Some left))
             (fun c => (colWidths P).[c]%js)); [reflexivity|].
  intros c cells' left _. cbn [fst snd].
  rewrite pushCell_made by now apply Hvalid. reflexivity.
Qed.

End RenderedCells.

Lemma includes_false (arr : list Z) (i : Z) : includes arr i = false <-> ~ In i arr.
Proof.
  rewrite <- includes_spec. destruct (includes arr i); split; intros H; congruence.
Qed.

Lemma fold_left_heights (sizes : list num) (arr : list Z) (sum : num) :
  fold_left (fun h i => (h + sizes.[i])%js) arr sum
  = fold_left add (map (fun i => sizes.[i]%js) arr) sum.
Proof. revert sum. induction arr as [|i arr IH]; intros sum; cbn; [reflexivity | apply IH]. Qed.

Lemma stackedBefore_all (sizes : list num) (arr : list Z) :
  stackedBefore sizes arr (length arr)
  = fold_left add (map (fun i => sizes.[i]%js) arr) (int 0).
Proof.
  unfold stackedBefore. rewrite <- (length_map (fun i => sizes.[i]%js) arr).
  now rewrite firstn_all.
Qed.

Section RenderedLayers.
Context {Cell : Type} (P : Props Cell).
Variable children : option Cell -> Z -> Z -> bool.
Variable s : State.

Let w := renderWindowRef s.
Let stuckRows := stuckRowsRef s.
Let stuckCols := stuckColsRef s.

Lemma in_made_drawn (r c : Z) (top left : option num) (cell : RenderedCell) :
  In cell (made P children s r c top left)
  <-> drawnAt P children r c
        (match top with Some t => t | None => scrolledTop P s r end)
        (match left with Some l => l | None => scrolledLeft P s c end) cell.
Proof. unfold drawnAt. apply in_made. Qed.

Lemma in_scrolledLayer (cell : RenderedCell) :
  In cell (flat_map (scrolledRow P children s) (range (fromRow w) (toRow w)))
  <-> exists r c,
        fromRow w <= r < toRow w /\ fromCol w <= c < toCol w
        /\ ~ In r stuckRows /\ ~ In c stuckCols
        /\ drawnAt P children r c (scrolledTop P s r) (scrolledLeft P s c) cell.
Proof.
  rewrite in_flat_map. split.
  - intros (r & Hr & Hin). apply in_range in Hr. unfold scrolledRow in Hin.
    destruct (includes (stuckRowsRef s) r) eqn:Er; [destruct Hin|].
    apply in_flat_map in Hin. destruct Hin as (c & Hc & Hin). apply in_range in Hc.
    destruct (includes (stuckColsRef s) c) eqn:Ec; [destruct Hin|].
    apply in_made_drawn in Hin. apply includes_false in Er, Ec.
    exists r, c. split; [exact Hr|]. split; [exact Hc|]. split; [exact Er|].
    split; [exact Ec | exact Hin].
  - intros (r & c & Hr & Hc & Hnr & Hnc & Hd). exists r. split; [now apply in_range|].
    unfold scrolledRow. apply includes_false in Hnr, Hnc.
    fold stuckRows. rewrite Hnr. apply in_flat_map. exists c.
    split; [now apply in_range|]. fold stuckCols. rewrite Hnc.
    now apply (in_made_drawn r c None None).
Qed.

Lemma in_stuckRowLayer (cell : RenderedCell) :
  In cell (stacked (stuckRowAt P children s) (fun r => (rowHeights P).[r]%js) (int 0)
             stuckRows)
  <-> exists (k : nat) (r c : Z),
        nth_error stuckRows k = Some r /\ fromCol w <= c < toCol w /\ ~ In c stuckCols
        /\ drawnAt P children r c (stackedBefore (rowHeights P) stuckRows k)
             (scrolledLeft P s c) cell.
Proof.
  rewrite in_stacked. unfold stackedBefore. split.
  - intros (k & r & Hk & Hin). unfold stuckRowAt in Hin.
    apply in_flat_map in Hin. destruct Hin as (c & Hc & Hin). apply in_range in Hc.
    destruct (includes (stuckColsRef s) c) eqn:Ec; [destruct Hin|].
    apply in_made_drawn in Hin. apply includes_false in Ec.
    exists k, r, c. split; [exact Hk|]. split; [exact Hc|]. split; [exact Ec | exact Hin].
  - intros (k & r & c & Hk & Hc & Hnc & Hd). exists k, r. split; [exact Hk|].
    unfold stuckRowAt. apply in_flat_map. exists c. split; [now apply in_range|].
    apply includes_false in Hnc. fold stuckCols. rewrite Hnc.
    now apply (in_made_drawn r c (Some _) None).
Qed.

Lemma in_stuckColLayer (cell : RenderedCell) :
  In cell (stacked (stuckColAt P children s) (fun c => (colWidths P).[c]%js) (int 0)
             stuckCols)
  <-> exists (k : nat) (c r : Z),
        nth_error stuckCols k = Some c /\ fromRow w <= r < toRow w /\ ~ In r stuckRows
        /\ drawnAt P children r c (scrolledTop P s r)
             (stackedBefore (colWidths P) stuckCols k) cell.
Proof.
  rewrite in_stacked. unfold stackedBefore. split.
  - intros (k & c & Hk & Hin). unfold stuckColAt in Hin.
    apply in_flat_map in Hin. destruct Hin as (r & Hr & Hin). apply in_range in Hr.
    destruct (includes (stuckRowsRef s) r) eqn:Er; [destruct Hin|].
    apply in_made_drawn in Hin. apply includes_false in Er.
    exists k, c, r. split; [exact Hk|]. split; [exact Hr|]. split; [exact Er | exact Hin].
  - intros (k & c & r & Hk & Hr & Hnr & Hd). exists k, c. split; [exact Hk|].
    unfold stuckColAt. apply in_flat_map. exists r. split; [now apply in_range|].
    apply includes_false in Hnr. fold stuckRows. rewrite Hnr.
    now apply (in_made_drawn r c None (Some _)).
Qed.

Lemma in_stuckLayer (cell : RenderedCell) :
  In cell (stacked (stuckAt P children s) (fun r => (rowHeights P).[r]%js) (int 0)
             stuckRows)
  <-> exists (k : nat) (r : Z) (j : nat) (c : Z),
        nth_error stuckRows k = Some r /\ nth_error stuckCols j = Some c
        /\ drawnAt P children r c (stackedBefore (rowHeights P) stuckRows k)
             (stackedBefore (colWidths P) stuckCols j) cell.
Proof.
  rewrite in_stacked. unfold stackedBefore. split.
  - intros (k & r & Hk & Hin). unfold stuckAt in Hin.
    apply in_stacked in Hin. destruct Hin as (j & c & Hj & Hin).
    apply in_made_drawn in Hin.
    exists k, r, j, c. split; [exact Hk|]. split; [exact Hj | exact Hin].
  - intros (k & r & j & c & Hk & Hj & Hd). exists k, r. split; [exact Hk|].
    unfold stuckAt. apply in_stacked. exists j, c. split; [exact Hj|].
    now apply (in_made_drawn r c (Some _) (Some _)).
Qed.

Hypothesis rows_in_grid :
  forall r, fromRow w <= r < toRow w \/ In r stuckRows -> 0 <= r < Z.of_nat (numRows P).

Lemma renderBody_done :
  exists R, renderBody P children s = Done R
    /\ renderedCells R
       = flat_map (scrolledRow P children s) (range (fromRow w) (toRow w))
    /\ stuckRowCells R
       = stacked (stuckRowAt P children s) (fun r => (rowHeights P).[r]%js) (int 0) stuckRows
    /\ stuckColCells R
       = stacked (stuckColAt P children s) (fun c => (colWidths P).[c]%js) (int 0) stuckCols
    /\ stuckCells R
       = stacked (stuckAt P children s) (fun r => (rowHeights P).[r]%js) (int 0) stuckRows
    /\ stuckRowsHeight R = stackedBefore (rowHeights P) stuckRows (length stuckRows)
    /\ stuckColsWidth R = stackedBefore (colWidths P) stuckCols (length stuckCols).
Proof.
  unfold renderBody. cbv zeta.
  rewrite buildRenderedCells_done by (intros r Hr _; apply rows_in_grid; now left).
  rewrite buildStuckRowCells_done by (intros r Hr; apply rows_in_grid; now right).
  rewrite buildStuckColCells_done by (intros r Hr _; apply rows_in_grid; now left).
  rewrite buildStuckCells_done by (intros r Hr; apply rows_in_grid; now right).
  eexists. split; [reflexivity|]. cbn [renderedCells stuckRowCells stuckColCells stuckCells
                                        stuckRowsHeight stuckColsWidth fst].
  repeat split; try reflexivity.
  - rewrite stackedBefore_all. apply fold_left_heights.
  - rewrite stackedBefore_all. apply fold_left_heights.
Qed.

(** The group a cell is in shows in its indices: whether its row is a
    stuck row and its column a stuck column. *)
Lemma layer_signature (R : Rendered) (i : nat) (layer : list RenderedCell)
    (cell : RenderedCell) :
  renderBody P children s = Done R ->
  nth_error (layers R) i = Some layer -> In cell layer ->
  (In (cellRow cell) stuckRows <-> i = 1%nat \/ i = 3%nat)
  /\ (In (cellCol cell) stuckCols <-> i = 2%nat \/ i = 3%nat).
Proof.
  intros HR Hlayer Hin. destruct renderBody_done as (R' & HR' & H0 & H1 & H2 & H3 & _).
  rewrite HR in HR'. injection HR' as <-. unfold layers in Hlayer.
  destruct i as [|[|[|[|i]]]]; cbn in Hlayer; try discriminate;
    [| | | | destruct i; discriminate]; injection Hlayer as <-.
  - rewrite H0 in Hin. apply in_scrolledLayer in Hin.
    destruct Hin as (r & c & _ & _ & Hnr & Hnc & v & _ & _ & ->). cbn [boxAt cellRow cellCol].
    split; split; intros H; try lia; contradiction.
  - rewrite H1 in Hin. apply in_stuckRowLayer in Hin.
    destruct Hin as (k & r & c & Hk & _ & Hnc & v & _ & _ & ->). cbn [boxAt cellRow cellCol].
    apply nth_error_In in Hk. split; split; intros H; try lia; try contradiction; auto.
  - rewrite H2 in Hin. apply in_stuckColLayer in Hin.
    destruct Hin as (k & c & r & Hk & _ & Hnr & v & _ & _ & ->). cbn [boxAt cellRow cellCol].
    apply nth_error_In in Hk. split; split; intros H; try lia; try contradiction; auto.
  - rewrite H3 in Hin. apply in_stuckLayer in Hin.
    destruct Hin as (k & r & j & c & Hk & Hj & v & _ & _ & ->). cbn [boxAt cellRow cellCol].
    apply nth_error_In in Hk, Hj. split; split; intros H; auto.
Qed.

End RenderedLayers.

(** X17.  The scrolled layer of a render.  When every row of the render
    window and every stuck row is a row of the grid, the body of the
    component returns, and [renderedCells] holds exactly the boxes of the
    cells [(r, c)] of the window whose row and column are not stuck and
    for which [children] gave something, each with the width of its
    column and the height of its row, at
    [top = rowOffsets[r] - rowOffsets[fromRow]] and
    [left = colOffsets[c] - colOffsets[fromCol]]. *)
Theorem render_scrolled_layer {Cell : Type} (P : Props Cell)
    (children : option Cell -> Z -> Z -> bool) (s : State) :
  let w := renderWindowRef s in
  (forall r, fromRow w <= r < toRow w \/ In r (stuckRowsRef s) ->
             0 <= r < Z.of_nat (numRows P)) ->
  exists R,
    renderBody P children s = Done R
    /\ forall cell,
         In cell (renderedCells R)
         <-> exists r c,
               fromRow w <= r < toRow w /\ fromCol w <= c < toCol w
               /\ ~ In r (stuckRowsRef s) /\ ~ In c (stuckColsRef s)
               /\ drawnAt P children r c (scrolledTop P s r) (scrolledLeft P s c) cell.
Proof.
  intros w Hrows.
  destruct (renderBody_done P children s Hrows) as (R & HR & H0 & _).
  exists R. split; [exact HR|]. intros cell. rewrite H0. apply in_scrolledLayer.
Qed.

Lemma render_scrolled_layer_witness :
  exists R,
    renderBody Scenario.pinnedGrid (fun _ _ _ => true) Scenario.pinnedScrolled = Done R.
Proof.
  assert (Hw : renderWindowRef Scenario.pinnedScrolled
               = {| fromRow := 0; toRow := 6; fromCol := 0; toCol := 6 |})
    by (vm_compute; reflexivity).
  assert (Hs : stuckRowsRef Scenario.pinnedScrolled = [0]) by (vm_compute; reflexivity).
  assert (Hn : numRows Scenario.pinnedGrid = 6%nat) by (vm_compute; reflexivity).
  assert (Hrows : forall r,
             fromRow (renderWindowRef Scenario.pinnedScrolled) <= r
             < toRow (renderWindowRef Scenario.pinnedScrolled)
             \/ In r (stuckRowsRef Scenario.pinnedScrolled) ->
             0 <= r < Z.of_nat (numRows Scenario.pinnedGrid)).
  { rewrite Hw, Hs, Hn. cbn. intros r [H|[<-|[]]]; lia. }
  destruct (render_scrolled_layer Scenario.pinnedGrid (fun _ _ _ => true)
              Scenario.pinnedScrolled Hrows) as (R & HR & _).
  exists R. exact HR.
Defined.

(** X18.  The stuck layers of a render.  Under the same condition the
    stuck rows are stacked from the top in the order of [stuckRows]: the
    cells of the [k]-th stuck row lie at [top] = the sum of the heights
    of the stuck rows before it, in the window's columns that are not
    stuck, at the [left] of the scrolled layer.  Alike the stuck columns
    from the left.  A cell whose row and column are both stuck lies at
    the two sums.  [stuckRowsHeight] and [stuckColsWidth] are the sums
    over all the stuck rows and columns: where the stacks end. *)
Theorem render_stuck_layers {Cell : Type} (P : Props Cell)
    (children : option Cell -> Z -> Z -> bool) (s : State) :
  let w := renderWindowRef s in
  let stuckRows := stuckRowsRef s in
  let stuckCols := stuckColsRef s in
  (forall r, fromRow w <= r < toRow w \/ In r stuckRows ->
             0 <= r < Z.of_nat (numRows P)) ->
  exists R,
    renderBody P children s = Done R
    /\ (forall cell,
          In cell (stuckRowCells R)
          <-> exists (k : nat) (r c : Z),
                nth_error stuckRows k = Some r
                /\ fromCol w <= c < toCol w /\ ~ In c stuckCols
                /\ drawnAt P children r c (stackedBefore (rowHeights P) stuckRows k)
                     (scrolledLeft P s c) cell)
    /\ (forall cell,
          In cell (stuckColCells R)
          <-> exists (k : nat) (c r : Z),
                nth_error stuckCols k = Some c
                /\ fromRow w <= r < toRow w /\ ~ In r stuckRows
                /\ drawnAt P children r c (scrolledTop P s r)
                     (stackedBefore (colWidths P) stuckCols k) cell)
    /\ (forall cell,
          In cell (stuckCells R)
          <-> exists (k : nat) (r : Z) (j : nat) (c : Z),
                nth_error stuckRows k = Some r /\ nth_error stuckCols j = Some c
                /\ drawnAt P children r c (stackedBefore (rowHeights P) stuckRows k)
                     (stackedBefore (colWidths P) stuckCols j) cell)
    /\ stuckRowsHeight R = stackedBefore (rowHeights P) stuckRows (length stuckRows)
    /\ stuckColsWidth R = stackedBefore (colWidths P) stuckCols (length stuckCols).
Proof.
  intros w stuckRows stuckCols Hrows.
  destruct (renderBody_done P children s Hrows)
    as (R & HR & _ & H1 & H2 & H3 & Hheight & Hwidth).
  exists R. split; [exact HR|].
  split; [intros cell; rewrite H1; apply in_stuckRowLayer|].
  split; [intros cell; rewrite H2; apply in_stuckColLayer|].
  split; [intros cell; rewrite H3; apply in_stuckLayer|].
  split; [exact Hheight | exact Hwidth].
Qed.

Lemma render_stuck_layers_witness :
  exists R,
    renderBody Scenario.pinnedGrid (fun _ _ _ => true) Scenario.pinnedScrolled = Done R
    /\ stuckRowsHeight R
       = stackedBefore (rowHeights Scenario.pinnedGrid)
           (stuckRowsRef Scenario.pinnedScrolled)
           (length (stuckRowsRef Scenario.pinnedScrolled)).
Proof.
  assert (Hw : renderWindowRef Scenario.pinnedScrolled
               = {| fromRow := 0; toRow := 6; fromCol := 0; toCol := 6 |})
    by (vm_compute; reflexivity).
  assert (Hs : stuckRowsRef Scenario.pinnedScrolled = [0]) by (vm_compute; reflexivity).
  assert (Hn : numRows Scenario.pinnedGrid = 6%nat) by (vm_compute; reflexivity).
  assert (Hrows : forall r,
             fromRow (renderWindowRef Scenario.pinnedScrolled) <= r
             < toRow (renderWindowRef Scenario.pinnedScrolled)
             \/ In r (stuckRowsRef Scenario.pinnedScrolled) ->
             0 <= r < Z.of_nat (numRows Scenario.pinnedGrid)).
  { rewrite Hw, Hs, Hn. cbn. intros r [H|[<-|[]]]; lia. }
  destruct (render_stuck_layers Scenario.pinnedGrid (fun _ _ _ => true)
              Scenario.pinnedScrolled Hrows) as (R & HR & _ & _ & _ & Hheight & _).
  exists R. split; [exact HR | exact Hheight].
Defined.

(** X19.  No cell of the grid is drawn in two layers.  Under the same
    condition, two boxes made for the same row and column come from the
    same one of the four groups [renderedCells], [stuckRowCells],
    [stuckColCells] and [stuckCells]. *)
Theorem render_layers_disjoint {Cell : Type} (P : Props Cell)
    (children : option Cell -> Z -> Z -> bool) (s : State) :
  let w := renderWindowRef s in
  (forall r, fromRow w <= r < toRow w \/ In r (stuckRowsRef s) ->
             0 <= r < Z.of_nat (numRows P)) ->
  exists R,
    renderBody P children s = Done R
    /\ forall (i j : nat) (la lb : list RenderedCell) (a b : RenderedCell),
         nth_error (layers R) i = Some la -> nth_error (layers R) j = Some lb ->
         In a la -> In b lb ->
         cellRow a = cellRow b -> cellCol a = cellCol b -> i = j.
Proof.
  intros w Hrows.
  destruct (renderBody_done P children s Hrows) as (R & HR & _).
  exists R. split; [exact HR|]. intros i j la lb a b Hla Hlb Ha Hb Hrow Hcol.
  destruct (layer_signature P children s Hrows R i la a HR Hla Ha) as [Hri Hci].
  destruct (layer_signature P children s Hrows R j lb b HR Hlb Hb) as [Hrj Hcj].
  rewrite Hrow in Hri. rewrite Hcol in Hci.
  assert (Hi : (i < 4)%nat)
    by (change 4%nat with (length (layers R)); apply nth_error_Some; congruence).
  assert (Hj : (j < 4)%nat)
    by (change 4%nat with (length (layers R)); apply nth_error_Some; congruence).
  assert (Hr : i = 1%nat \/ i = 3%nat <-> j = 1%nat \/ j = 3%nat)
    by (rewrite <- Hri; exact Hrj).
  assert (Hc : i = 2%nat \/ i = 3%nat <-> j = 2%nat \/ j = 3%nat)
    by (rewrite <- Hci; exact Hcj).
  lia.
Qed.

Lemma render_layers_disjoint_witness :
  exists R,
    renderBody Scenario.pinnedGrid (fun _ _ _ => true) Scenario.pinnedScrolled = Done R
    /\ forall a b,
         In a (renderedCells R) -> In b (stuckRowCells R) ->
         cellRow a = cellRow b -> cellCol a = cellCol b -> False.
Proof.
  assert (Hw : renderWindowRef Scenario.pinnedScrolled
               = {| fromRow := 0; toRow := 6; fromCol := 0; toCol := 6 |})
    by (vm_compute; reflexivity).
  assert (Hs : stuckRowsRef Scenario.pinnedScrolled = [0]) by (vm_compute; reflexivity).
  assert (Hn : numRows Scenario.pinnedGrid = 6%nat) by (vm_compute; reflexivity).
  assert (Hrows : forall r,
             fromRow (renderWindowRef Scenario.pinnedScrolled) <= r
             < toRow (renderWindowRef Scenario.pinnedScrolled)
             \/ In r (stuckRowsRef Scenario.pinnedScrolled) ->
             0 <= r < Z.of_nat (numRows Scenario.pinnedGrid)).
  { rewrite Hw, Hs, Hn. cbn. intros r [H|[<-|[]]]; lia. }
  destruct (render_layers_disjoint Scenario.pinnedGrid (fun _ _ _ => true)
              Scenario.pinnedScrolled Hrows) as (R & HR & Hdisjoint).
  exists R. split; [exact HR|]. intros a b Ha Hb Hrow Hcol.
  specialize (Hdisjoint 0%nat 1%nat _ _ a b eq_refl eq_refl Ha Hb Hrow Hcol).
  discriminate.
Defined.

(** X20.  A render window that reaches past the rows makes the render
    throw.  When the window holds a row that is not a row of the grid
    and not stuck, and a column that is not stuck, [rows[r][c]] reads an
    index of [undefined]: the body of the component does not return.
    The window is the one of the last frame, so this is what happens on
    the render that first sees fewer rows. *)
Theorem render_throws_past_rows {Cell : Type} (P : Props Cell)
    (children : option Cell -> Z -> Z -> bool) (s : State) (r c : Z) :
  let w := renderWindowRef s in
  fromRow w <= r < toRow w -> ~ In r (stuckRowsRef s) ->
  fromCol w <= c < toCol w -> ~ In c (stuckColsRef s) ->
  ~ 0 <= r < Z.of_nat (numRows P) ->
  renderBody P children s = Throws.
Proof.
  intros w Hr Hnr Hc Hnc Hout. apply includes_false in Hnr, Hnc.
  unfold renderBody. cbv zeta.
  replace (buildRenderedCells P children s) with (@Throws (list RenderedCell));
    [reflexivity|].
  symmetry. unfold buildRenderedCells. cbv zeta. apply forRange_throws.
  exists r. split; [exact Hr|]. intros acc. rewrite Hnr.
  apply forRange_throws. exists c. split; [exact Hc|]. intros acc'. rewrite Hnc.
  now rewrite makeRenderedCell_invalid.
Qed.

Lemma render_throws_past_rows_witness :
  renderBody Scenario.tallGrid (fun _ _ _ => true) Scenario.sparseScrolled = Throws.
Proof.
  assert (Hw : renderWindowRef Scenario.sparseScrolled
               = {| fromRow := 10; toRow := 16; fromCol := 0; toCol := 1 |})
    by (vm_compute; reflexivity).
  assert (Hs : stuckRowsRef Scenario.sparseScrolled = []) by (vm_compute; reflexivity).
  assert (Hc : stuckColsRef Scenario.sparseScrolled = []) by (vm_compute; reflexivity).
  assert (Hn : numRows Scenario.tallGrid = 10%nat) by (vm_compute; reflexivity).
  apply (render_throws_past_rows Scenario.tallGrid (fun _ _ _ => true)
           Scenario.sparseScrolled 10 0).
  - rewrite Hw. cbn. lia.
  - rewrite Hs. intros [].
  - rewrite Hw. cbn. lia.
  - rewrite Hc. intros [].
  - rewrite Hn. lia.
Defined.

(** ** Renders under fixed props *)

Section Renderable.
Context {Cell : Type} (P : Props Cell).

Lemma resolveWindow_rows_clamped (windowSize : Size) (w : RenderWindow) (offset : Point) :
  0 <= fromRow (resolveWindow P windowSize w offset)
  /\ toRow (resolveWindow P windowSize w offset) <= Z.of_nat (numRows P).
Proof.
  rewrite resolveWindow_axes. cbv zeta. cbn [fromRow toRow].
  rewrite length_rowOffsets. unfold expandAxis.
  repeat match goal with
         | |- context [if ?c then _ else _] => destruct c
         end; cbn [fst snd]; lia.
Qed.

Lemma stuckRowsAt_rows (offsetY : num) (r : Z) :
  In r (stuckRowsAt P offsetY) -> 0 <= r < Z.of_nat (numRows P).
Proof.
  unfold stuckRowsAt. intros Hin. apply filterIndexed_In in Hin.
  destruct Hin as (k & _ & Hlt). rewrite <- length_rowOffsets.
  destruct (Z.ltb_spec r 0) as [Hneg|Hpos].
  - now rewrite (get_negative _ r Hneg) in Hlt.
  - destruct (Z.ltb_spec r (Z.of_nat (length (rowOffsets P)))) as [Hin|Hout]; [lia|].
    now rewrite (get_beyond _ r Hout) in Hlt.
Qed.

Lemma setOffset_renderable (cE rE kE : bool) (offset : Point) (force : bool) (s : State) :
  renderable P s -> renderable P (snd (setOffset P cE rE kE offset force s)).
Proof.
  intros Hinv. destruct (fst (setOffset P cE rE kE offset force s)) eqn:Haccepted.
  - rewrite (setOffset_accepted P _ _ _ _ _ _ Haccepted).
    split; [exact (proj1 Hinv)|].
    intros f E. cbn [rafPidRef set_rafPidRef] in E. injection E as <-.
    cbn [frameWindow frameStuckRows]. intros r [Hr|Hr].
    + pose proof (resolveWindow_rows_clamped (windowSizeRef s) (renderWindowRef s) offset).
      lia.
    + now apply stuckRowsAt_rows in Hr.
  - now rewrite (setOffset_rejected P _ _ _ _ _ _ Haccepted).
Qed.

Lemma scroll_renderable (deltaX deltaY : num) (s : State) :
  renderable P s -> renderable P (scroll P deltaX deltaY s).
Proof.
  intros Hinv. unfold scroll. destruct (fitsInWindow P s); [exact Hinv|]. cbv zeta.
  pose proof (setOffset_renderable (cellsElmnt (elements s)) (stickyRowsElmnt (elements s))
                (stickyColsElmnt (elements s)) (candidateOffset P deltaX deltaY s) false s
                Hinv) as Hset.
  destruct (setOffset P (cellsElmnt (elements s)) (stickyRowsElmnt (elements s))
              (stickyColsElmnt (elements s)) (candidateOffset P deltaX deltaY s) false s)
    as [accepted s1].
  cbn [snd] in Hset. destruct accepted; [|exact Hset].
  destruct (onScrollStop P); exact Hset.
Qed.

Lemma animationFrame_renderable (s : State) :
  renderable P s -> renderable P (animationFrame P s).
Proof.
  intros Hinv. unfold animationFrame.
  destruct (rafPidRef s) as [f|] eqn:Hraf; [|exact Hinv].
  destruct Hinv as [Hrefs Hframe]. specialize (Hframe f Hraf). cbv zeta.
  repeat match goal with
         | |- context [if ?c then _ else _] => destruct c
         end;
    (split; [first [exact Hrefs | exact Hframe] | intros f' E; discriminate E]).
Qed.

Lemma step_renderable (s : State) (e : Event) :
  renderable P s -> renderable P (step P s e).
Proof.
  intros Hinv. destruct e as [| w h | | dx dy | t cx cy | t cx cy | t | p]; cbn [step].
  - exact Hinv.
  - unfold reflow. destruct (rootElmnt (observerRefs s) && cellsElmnt (observerRefs s));
      [|exact Hinv].
    cbv zeta. apply setOffset_renderable. exact Hinv.
  - now apply animationFrame_renderable.
  - now apply scroll_renderable.
  - unfold onTouchStart. destruct (pid (touchInfoRef s)); exact Hinv.
  - unfold onTouchMove. exact (scroll_renderable _ _ s Hinv).
  - exact Hinv.
  - unfold intervalTick. destruct (lookupInterval p s) as [speed|]; [|exact Hinv].
    cbv zeta. destruct (decayStops (decayedSpeed speed));
      exact (scroll_renderable _ _ s Hinv).
Qed.

Lemma run_renderable (events : list Event) (s : State) :
  renderable P s -> renderable P (run P events s).
Proof.
  revert s. induction events as [|e events IH]; intros s Hinv; [exact Hinv|].
  cbn [run fold_left]. apply IH. now apply step_renderable.
Qed.

Lemma initialState_renderable (els : Elements) : renderable P (initialState P els).
Proof.
  split; [|intros f E; discriminate E].
  intros r [Hr|[]]. cbn in Hr. lia.
Qed.

End Renderable.

(** X21.  Under props that do not change, no render throws.  Whatever
    events the component has handled since it was mounted (renders,
    resizes, frames, wheel and touch events, ticks of the decay), the
    body of the component returns: every row it reads from [rows] is a
    row of the grid, because a frame clamps the window to the rows and
    only a sticky row with an offset can become stuck. *)
Theorem render_returns_under_fixed_props {Cell : Type} (P : Props Cell)
    (children : option Cell -> Z -> Z -> bool) (els : Elements) (events : list Event) :
  exists R, renderBody P children (run P events (initialState P els)) = Done R.
Proof.
  pose proof (run_renderable P events (initialState P els)
                (initialState_renderable P els)) as [Hrefs _].
  destruct (renderBody_done P children _ Hrefs) as (R & HR & _).
  exists R. exact HR.
Qed.

(** ** Where the cells land *)

Lemma sizes_sum_finite (sizes : list num) (arr : list Z) (h : Q) :
  nonNegativeSizes sizes ->
  (forall i, In i arr -> 0 <= i < Z.of_nat (length sizes)) ->
  exists h', fold_left add (map (fun i => sizes.[i]%js) arr) (fin h) = fin h'.
Proof.
  intros Hsizes. revert h. induction arr as [|i arr IH]; intros h Hin; cbn [map fold_left].
  - now exists h.
  - destruct (size_nonneg sizes Hsizes (Z.to_nat i)) as (q & Eq & _);
      [specialize (Hin i (or_introl eq_refl)); lia|].
    rewrite Z2Nat.id in Eq by (specialize (Hin i (or_introl eq_refl)); lia).
    rewrite Eq. cbn [add lift2 fin]. apply (IH (h + q)%Q).
    intros j Hj. apply Hin. now right.
Qed.

(** One axis of the place of a scrolled box: the corner [H] of the
    container, the transform [translate - H] of the frame, and the
    [top] or [left] of the box add up to the offset of the row or column
    less the scroll offset. *)
Lemma axis_place (sizes : list num) (o h : Q) (from j : Z) :
  nonNegativeSizes sizes ->
  0 <= from <= j -> j < Z.of_nat (length sizes) ->
  let offsets := calculateOffsets sizes in
  let translate := (- fin o + orZero offsets.[from])%js in
  exists p c : Q,
    (px (fin h) + (translate - fin h) + px (offsets.[j] - offsets.[from]))%js = fin p
    /\ (offsets.[j])%js = fin c
    /\ (p == c - o)%Q.
Proof.
  intros Hsizes Hfrom Hj. cbv zeta.
  destruct (offsets_finite sizes Hsizes from) as (cf & Ef & _); [lia|].
  destruct (offsets_finite sizes Hsizes j) as (cj & Ej & _); [lia|].
  rewrite Ef, Ej. unfold orZero, fin, px.
  destruct (Qeq_bool cf 0) eqn:Ezero.
  - apply Qeq_bool_iff in Ezero. eexists. exists cj.
    split; [reflexivity|]. split; [reflexivity|]. lra.
  - eexists. exists cj. split; [reflexivity|]. split; [reflexivity|]. lra.
Qed.

Section FramePlaces.
Context {Cell : Type} (P : Props Cell).

Lemma resolveWindow_cols_clamped (windowSize : Size) (w : RenderWindow) (offset : Point) :
  0 <= fromCol (resolveWindow P windowSize w offset)
  /\ toCol (resolveWindow P windowSize w offset) <= Z.of_nat (numCols P).
Proof.
  rewrite resolveWindow_axes. cbv zeta. cbn [fromCol toCol].
  rewrite length_colOffsets. unfold expandAxis.
  repeat match goal with
         | |- context [if ?c then _ else _] => destruct c
         end; cbn [fst snd]; lia.
Qed.

Lemma stuckColsAt_cols (offsetX : num) (c : Z) :
  In c (stuckColsAt P offsetX) -> 0 <= c < Z.of_nat (numCols P).
Proof.
  unfold stuckColsAt. intros Hin. apply filterIndexed_In in Hin.
  destruct Hin as (k & _ & Hlt). rewrite <- length_colOffsets.
  destruct (Z.ltb_spec c 0) as [Hneg|Hpos].
  - now rewrite (get_negative _ c Hneg) in Hlt.
  - destruct (Z.ltb_spec c (Z.of_nat (length (colOffsets P)))) as [Hin|Hout]; [lia|].
    now rewrite (get_beyond _ c Hout) in Hlt.
Qed.

Lemma animationFrame_transforms (s : State) (f : Frame) :
  rafPidRef s = Some f ->
  let translateX := (- x (frameOffset f) + orZero (colOffsets P).[fromCol (frameWindow f)])%js in
  let translateY := (- y (frameOffset f) + orZero (rowOffsets P).[fromRow (frameWindow f)])%js in
  let stuckRowsHeight :=
    fold_left (fun h r => (h + (rowHeights P).[r])%js) (frameStuckRows f) (int 0) in
  let stuckColsWidth :=
    fold_left (fun w c => (w + (colWidths P).[c])%js) (frameStuckCols f) (int 0) in
  transforms (animationFrame P s)
  = {| cellsTransform :=
         {| x := (translateX - stuckColsWidth)%js; y := (translateY - stuckRowsHeight)%js |};
       stickyRowsTranslateX := (translateX - stuckColsWidth)%js;
       stickyColsTranslateY := (translateY - stuckRowsHeight)%js |}.
Proof.
  intros Hraf. unfold animationFrame. rewrite Hraf. cbv zeta.
  repeat match goal with
         | |- context [if ?c then _ else _] => destruct c
         end; reflexivity.
Qed.

(** The refs and the transforms after an accepted [setOffset] and its
    frame. *)
Lemma frame_outcome (cE rE kE force : bool) (offset : Point) (s : State) :
  fst (setOffset P cE rE kE offset force s) = true ->
  let s' := animationFrame P (snd (setOffset P cE rE kE offset force s)) in
  let w := resolveWindow P (windowSizeRef s) (renderWindowRef s) offset in
  let translateX := (- x offset + orZero (colOffsets P).[fromCol w])%js in
  let translateY := (- y offset + orZero (rowOffsets P).[fromRow w])%js in
  let stuckRowsHeight :=
    fold_left (fun h r => (h + (rowHeights P).[r])%js) (stuckRowsAt P (y offset)) (int 0) in
  let stuckColsWidth :=
    fold_left (fun w c => (w + (colWidths P).[c])%js) (stuckColsAt P (x offset)) (int 0) in
  renderWindowRef s' = w
  /\ stuckRowsRef s' = stuckRowsAt P (y offset)
  /\ stuckColsRef s' = stuckColsAt P (x offset)
  /\ transforms s'
     = {| cellsTransform :=
            {| x := (translateX - stuckColsWidth)%js;
               y := (translateY - stuckRowsHeight)%js |};
          stickyRowsTranslateX := (translateX - stuckColsWidth)%js;
          stickyColsTranslateY := (translateY - stuckRowsHeight)%js |}.
Proof.
  intros Haccepted. cbv zeta.
  rewrite (setOffset_accepted P _ _ _ _ _ _ Haccepted).
  match goal with
  | |- context [animationFrame P ?st] =>
      pose proof (animationFrame_window P st _ eq_refl eq_refl) as Hwindow;
      pose proof (animationFrame_stuck P st _ eq_refl) as [Hrows Hcols];
      pose proof (animationFrame_transforms st _ eq_refl) as Htransforms
  end.
  cbv zeta in Htransforms. rewrite Hwindow, Hrows, Hcols, Htransforms.
  repeat split; reflexivity.
Qed.

End FramePlaces.

(** X22.  A scrolled cell lands at its place in the grid less the scroll
    offset.  Over row heights and column widths that are finite and not
    negative: after an accepted [setOffset] to a finite offset and its
    frame, the render returns, and each box of [renderedCells], placed by
    the corner of its container, the transform the frame wrote and its
    own [top] and [left], lies in the root element at
    [left = colOffsets[c] - offset.x] and [top = rowOffsets[r] - offset.y]. *)
Theorem scrolled_cells_follow_offset {Cell : Type} (P : Props Cell)
    (children : option Cell -> Z -> Z -> bool)
    (cE rE kE force : bool) (ox oy : Q) (s : State) :
  let offset := {| x := fin ox; y := fin oy |} in
  nonNegativeSizes (rowHeights P) -> nonNegativeSizes (colWidths P) ->
  fst (setOffset P cE rE kE offset force s) = true ->
  let s' := animationFrame P (snd (setOffset P cE rE kE offset force s)) in
  exists R,
    renderBody P children s' = Done R
    /\ forall cell,
         In cell (renderedCells R) ->
         exists left top colOffset rowOffset : Q,
           placeInRoot R (transforms s') Scrolled cell = {| x := fin left; y := fin top |}
           /\ ((colOffsets P).[cellCol cell])%js = fin colOffset
           /\ ((rowOffsets P).[cellRow cell])%js = fin rowOffset
           /\ (left == colOffset - ox)%Q /\ (top == rowOffset - oy)%Q.
Proof.
  intros offset Hrows Hcols Haccepted s'.
  destruct (frame_outcome P cE rE kE force offset s Haccepted) as (Hw & Hsr & Hsc & Htr).
  fold s' in Hw, Hsr, Hsc, Htr.
  pose proof (resolveWindow_rows_clamped P (windowSizeRef s) (renderWindowRef s) offset)
    as Hrowsclamped.
  pose proof (resolveWindow_cols_clamped P (windowSizeRef s) (renderWindowRef s) offset)
    as Hcolsclamped.
  pose proof (length_calculateSizes (rowHeight P) (numRows P)) as Hlenrows.
  pose proof (length_calculateSizes (colWidth P) (numCols P)) as Hlencols.
  fold (rowHeights P) in Hlenrows. fold (colWidths P) in Hlencols.
  assert (Hwithin : forall r,
             fromRow (renderWindowRef s') <= r < toRow (renderWindowRef s')
             \/ In r (stuckRowsRef s') -> 0 <= r < Z.of_nat (numRows P)).
  { rewrite Hw, Hsr. intros r [Hr|Hr]; [lia | now apply stuckRowsAt_rows in Hr]. }
  destruct (renderBody_done P children s' Hwithin)
    as (R & HR & H0 & _ & _ & _ & Hheight & Hwidth).
  exists R. split; [exact HR|]. intros cell Hin.
  rewrite H0 in Hin. apply in_scrolledLayer in Hin.
  destruct Hin as (r & c & Hr & Hc & _ & _ & v & _ & _ & ->).
  rewrite Hw in Hr, Hc.
  unfold placeInRoot, containerCorner, layerTransform, boxAt, scrolledTop, scrolledLeft.
  cbn [cellTop cellLeft cellRow cellCol x y].
  rewrite Htr, Hheight, Hwidth, !stackedBefore_all, Hsr, Hsc, Hw, !fold_left_heights.
  cbn [cellsTransform x y offset].
  destruct (sizes_sum_finite (rowHeights P) (stuckRowsAt P (fin oy)) 0 Hrows) as (hr & Ehr).
  { intros i Hi. apply stuckRowsAt_rows in Hi. lia. }
  destruct (sizes_sum_finite (colWidths P) (stuckColsAt P (fin ox)) 0 Hcols) as (hc & Ehc).
  { intros i Hi. apply stuckColsAt_cols in Hi. lia. }
  change (fin 0) with (int 0) in Ehr, Ehc. cbn [y x offset] in *. rewrite Ehr, Ehc.
  destruct (axis_place (colWidths P) ox hc
              (fromCol (resolveWindow P (windowSizeRef s) (renderWindowRef s) offset)) c
              Hcols) as (left & colOffset & Eleft & Ecol & Hleft); [lia | lia |].
  destruct (axis_place (rowHeights P) oy hr
              (fromRow (resolveWindow P (windowSizeRef s) (renderWindowRef s) offset)) r
              Hrows) as (top & rowOffset & Etop & Erow & Htop); [lia | lia |].
  unfold px in Eleft, Etop. fold (colOffsets P) in Eleft, Ecol.
  fold (rowOffsets P) in Etop, Erow.
  exists left, top, colOffset, rowOffset. unfold px.
  rewrite Eleft, Etop. auto.
Qed.

Lemma scrolled_cells_follow_offset_witness :
  exists R,
    renderBody Scenario.pinnedGrid (fun _ _ _ => true)
      (animationFrame Scenario.pinnedGrid
         (snd (setOffset Scenario.pinnedGrid true true true
                 {| x := fin 100; y := fin 50 |} false
                 (Scenario.mounted Scenario.pinnedGrid 160 80))))
    = Done R.
Proof.
  assert (Haccepted : fst (setOffset Scenario.pinnedGrid true true true
                             {| x := fin 100; y := fin 50 |} false
                             (Scenario.mounted Scenario.pinnedGrid 160 80)) = true)
    by (vm_compute; reflexivity).
  destruct (scrolled_cells_follow_offset Scenario.pinnedGrid (fun _ _ _ => true)
              true true true false 100 50 (Scenario.mounted Scenario.pinnedGrid 160 80)
              (repeat_nonNegativeSizes 40 6 ltac:(vm_compute; discriminate))
              (repeat_nonNegativeSizes 80 6 ltac:(vm_compute; discriminate))
              Haccepted) as (R & HR & _).
  exists R. exact HR.
Defined.

Lemma stackedBefore_finite (sizes : list num) (arr : list Z) (k : nat) :
  nonNegativeSizes sizes ->
  (forall i, In i arr -> 0 <= i < Z.of_nat (length sizes)) ->
  exists h, stackedBefore sizes arr k = fin h.
Proof.
  intros Hsizes Hin. unfold stackedBefore. rewrite firstn_map.
  apply (sizes_sum_finite sizes (firstn k arr) 0 Hsizes).
  intros i Hi. apply Hin. rewrite <- (firstn_skipn k arr). apply in_or_app. now left.
Qed.

(** X23.  The stuck cells stay in place.  Over sizes that are finite and
    not negative, after an accepted [setOffset] to a finite offset and
    its frame: a box of the [k]-th stuck row lies in the root element at
    [top] = the sum of the heights of the stuck rows before it, whatever
    the vertical offset, and at [left = colOffsets[c] - offset.x] like
    the scrolled cells; a box of the [k]-th stuck column lies at [left] =
    the sum of the widths of the stuck columns before it and at
    [top = rowOffsets[r] - offset.y]; a box stuck both ways lies at the
    two sums. *)
Theorem stuck_cells_stay_in_place {Cell : Type} (P : Props Cell)
    (children : option Cell -> Z -> Z -> bool)
    (cE rE kE force : bool) (ox oy : Q) (s : State) :
  let offset := {| x := fin ox; y := fin oy |} in
  nonNegativeSizes (rowHeights P) -> nonNegativeSizes (colWidths P) ->
  fst (setOffset P cE rE kE offset force s) = true ->
  let s' := animationFrame P (snd (setOffset P cE rE kE offset force s)) in
  exists R,
    renderBody P children s' = Done R
    /\ (forall cell,
          In cell (stuckRowCells R) ->
          exists (k : nat) (left top colOffset stackTop : Q),
            nth_error (stuckRowsRef s') k = Some (cellRow cell)
            /\ placeInRoot R (transforms s') StuckRow cell = {| x := fin left; y := fin top |}
            /\ ((colOffsets P).[cellCol cell])%js = fin colOffset
            /\ stackedBefore (rowHeights P) (stuckRowsRef s') k = fin stackTop
            /\ (left == colOffset - ox)%Q /\ (top == stackTop)%Q)
    /\ (forall cell,
          In cell (stuckColCells R) ->
          exists (k : nat) (left top rowOffset stackLeft : Q),
            nth_error (stuckColsRef s') k = Some (cellCol cell)
            /\ placeInRoot R (transforms s') StuckCol cell = {| x := fin left; y := fin top |}
            /\ ((rowOffsets P).[cellRow cell])%js = fin rowOffset
            /\ stackedBefore (colWidths P) (stuckColsRef s') k = fin stackLeft
            /\ (left == stackLeft)%Q /\ (top == rowOffset - oy)%Q)
    /\ (forall cell,
          In cell (stuckCells R) ->
          exists (k j : nat) (left top stackLeft stackTop : Q),
            nth_error (stuckRowsRef s') k = Some (cellRow cell)
            /\ nth_error (stuckColsRef s') j = Some (cellCol cell)
            /\ placeInRoot R (transforms s') Stuck cell = {| x := fin left; y := fin top |}
            /\ stackedBefore (colWidths P) (stuckColsRef s') j = fin stackLeft
            /\ stackedBefore (rowHeights P) (stuckRowsRef s') k = fin stackTop
            /\ (left == stackLeft)%Q /\ (top == stackTop)%Q).
Proof.
  intros offset Hrows Hcols Haccepted s'.
  destruct (frame_outcome P cE rE kE force offset s Haccepted) as (Hw & Hsr & Hsc & Htr).
  fold s' in Hw, Hsr, Hsc, Htr.
  pose proof (resolveWindow_rows_clamped P (windowSizeRef s) (renderWindowRef s) offset)
    as Hrowsclamped.
  pose proof (resolveWindow_cols_clamped P (windowSizeRef s) (renderWindowRef s) offset)
    as Hcolsclamped.
  pose proof (length_calculateSizes (rowHeight P) (numRows P)) as Hlenrows.
  pose proof (length_calculateSizes (colWidth P) (numCols P)) as Hlencols.
  fold (rowHeights P) in Hlenrows. fold (colWidths P) in Hlencols.
  assert (Hstuckrows : forall i, In i (stuckRowsRef s') ->
                                 0 <= i < Z.of_nat (length (rowHeights P))).
  { rewrite Hsr. intros i Hi. apply stuckRowsAt_rows in Hi. lia. }
  assert (Hstuckcols : forall i, In i (stuckColsRef s') ->
                                 0 <= i < Z.of_nat (length (colWidths P))).
  { rewrite Hsc. intros i Hi. apply stuckColsAt_cols in Hi. lia. }
  assert (Hwithin : forall r,
             fromRow (renderWindowRef s') <= r < toRow (renderWindowRef s')
             \/ In r (stuckRowsRef s') -> 0 <= r < Z.of_nat (numRows P)).
  { intros r [Hr|Hr]; [rewrite Hw in Hr; lia | apply Hstuckrows in Hr; lia]. }
  destruct (renderBody_done P children s' Hwithin)
    as (R & HR & _ & H1 & H2 & H3 & Hheight & Hwidth).
  destruct (stackedBefore_finite (rowHeights P) (stuckRowsRef s')
              (length (stuckRowsRef s')) Hrows Hstuckrows) as (hr & Ehr).
  destruct (stackedBefore_finite (colWidths P) (stuckColsRef s')
              (length (stuckColsRef s')) Hcols Hstuckcols) as (hc & Ehc).
  assert (Etr : transforms s'
                = {| cellsTransform :=
                       {| x := (- fin ox + orZero (colOffsets P).[fromCol (renderWindowRef s')]
                                - fin hc)%js;
                          y := (- fin oy + orZero (rowOffsets P).[fromRow (renderWindowRef s')]
                                - fin hr)%js |};
                     stickyRowsTranslateX :=
                       (- fin ox + orZero (colOffsets P).[fromCol (renderWindowRef s')]
                        - fin hc)%js;
                     stickyColsTranslateY :=
                       (- fin oy + orZero (rowOffsets P).[fromRow (renderWindowRef s')]
                        - fin hr)%js |}).
  { rewrite Htr, <- Ehr, <- Ehc, !stackedBefore_all, Hw, Hsr, Hsc, !fold_left_heights.
    reflexivity. }
  rewrite Ehr in Hheight. rewrite Ehc in Hwidth.
  exists R. split; [exact HR|]. split; [|split]; intros cell Hin.
  - rewrite H1 in Hin. apply in_stuckRowLayer in Hin.
    destruct Hin as (k & r & c & Hk & Hc & _ & v & _ & _ & ->).
    destruct (stackedBefore_finite (rowHeights P) (stuckRowsRef s') k Hrows Hstuckrows)
      as (stackTop & Estack).
    destruct (axis_place (colWidths P) ox hc (fromCol (renderWindowRef s')) c Hcols)
      as (left & colOffset & Eleft & Ecol & Hleft); [rewrite Hw in *; lia..|].
    unfold px in Eleft. fold (colOffsets P) in Eleft, Ecol.
    exists k, left, (0 + 0 + stackTop)%Q, colOffset, stackTop.
    unfold placeInRoot, containerCorner, layerTransform, boxAt, scrolledLeft, px.
    cbn [cellTop cellLeft cellRow cellCol x y].
    rewrite Etr, Hwidth, Estack. cbn [stickyRowsTranslateX]. rewrite Eleft.
    repeat split; auto. lra.
  - rewrite H2 in Hin. apply in_stuckColLayer in Hin.
    destruct Hin as (k & c & r & Hk & Hr & _ & v & _ & _ & ->).
    destruct (stackedBefore_finite (colWidths P) (stuckColsRef s') k Hcols Hstuckcols)
      as (stackLeft & Estack).
    destruct (axis_place (rowHeights P) oy hr (fromRow (renderWindowRef s')) r Hrows)
      as (top & rowOffset & Etop & Erow & Htop); [rewrite Hw in *; lia..|].
    unfold px in Etop. fold (rowOffsets P) in Etop, Erow.
    exists k, (0 + 0 + stackLeft)%Q, top, rowOffset, stackLeft.
    unfold placeInRoot, containerCorner, layerTransform, boxAt, scrolledTop, px.
    cbn [cellTop cellLeft cellRow cellCol x y].
    rewrite Etr, Hheight, Estack. cbn [stickyColsTranslateY]. rewrite Etop.
    repeat split; auto. lra.
  - rewrite H3 in Hin. apply in_stuckLayer in Hin.
    destruct Hin as (k & r & j & c & Hk & Hj & v & _ & _ & ->).
    destruct (stackedBefore_finite (rowHeights P) (stuckRowsRef s') k Hrows Hstuckrows)
      as (stackTop & Etop).
    destruct (stackedBefore_finite (colWidths P) (stuckColsRef s') j Hcols Hstuckcols)
      as (stackLeft & Eleft).
    exists k, j, (0 + 0 + stackLeft)%Q, (0 + 0 + stackTop)%Q, stackLeft, stackTop.
    unfold placeInRoot, containerCorner, layerTransform, boxAt.
    cbn [cellTop cellLeft cellRow cellCol x y].
    rewrite Etop, Eleft.
    repeat split; auto; lra.
Qed.

Lemma stuck_cells_stay_in_place_witness :
  exists R,
    renderBody Scenario.pinnedGrid (fun _ _ _ => true)
      (animationFrame Scenario.pinnedGrid
         (snd (setOffset Scenario.pinnedGrid true true true
                 {| x := fin 100; y := fin 50 |} false
                 (Scenario.mounted Scenario.pinnedGrid 160 80))))
    = Done R.
Proof.
  assert (Haccepted : fst (setOffset Scenario.pinnedGrid true true true
                             {| x := fin 100; y := fin 50 |} false
                             (Scenario.mounted Scenario.pinnedGrid 160 80)) = true)
    by (vm_compute; reflexivity).
  destruct (stuck_cells_stay_in_place Scenario.pinnedGrid (fun _ _ _ => true)
              true true true false 100 50 (Scenario.mounted Scenario.pinnedGrid 160 80)
              (repeat_nonNegativeSizes 40 6 ltac:(vm_compute; discriminate))
              (repeat_nonNegativeSizes 80 6 ltac:(vm_compute; discriminate))
              Haccepted) as (R & HR & _).
  exists R. exact HR.
Defined.

(** ** The size the root takes *)

Lemma renderBody_natural {Cell : Type} (P : Props Cell)
    (children : option Cell -> Z -> Z -> bool) (s : State) (R : Rendered) :
  renderBody P children s = Done R ->
  naturalHeight R
  = (if (height (windowSizeRef s) === int 0)%js && (0 <? toRow (renderWindowRef s))
     then Some (px (height (totalSize P))) else None)
  /\ naturalWidth R
     = (if (width (windowSizeRef s) === int 0)%js && (0 <? toCol (renderWindowRef s))
        then Some (px (width (totalSize P))) else None).
Proof.
  unfold renderBody. cbv zeta.
  destruct (buildRenderedCells P children s); [|discriminate].
  destruct (buildStuckRowCells P children s); [|discriminate].
  destruct (buildStuckColCells P children s); [|discriminate].
  destruct (buildStuckCells P children s); [|discriminate].
  intros E. injection E as <-. split; reflexivity.
Qed.

Lemma animationFrame_windowSize {Cell : Type} (P : Props Cell) (s : State) :
  windowSizeRef (animationFrame P s) = windowSizeRef s.
Proof.
  unfold animationFrame. destruct (rafPidRef s) as [f|]; [|reflexivity]. cbv zeta.
  repeat match goal with
         | |- context [if ?c then _ else _] => destruct c
         end; reflexivity.
Qed.

(** X24.  The root takes the size of the content on an axis measured as
    [0], and only there.  While the refs of the first render hold their
    elements (the component has not rendered again, so the
    [ResizeObserver] still reaches [reflow]'s elements) and with a batch
    size that is not negative: after a resize that measured [w] by [h]
    and its frame the render returns, with [naturalHeight] the total
    height when [h] is [0] and the grid has rows, and [undefined]
    otherwise; alike [naturalWidth] with [w] and the columns. *)
Theorem natural_size_after_resize {Cell : Type} (P : Props Cell)
    (children : option Cell -> Z -> Z -> bool) (w h : num) (s : State) :
  0 <= renderBatchSize P ->
  observerRefs s = Scenario.attached ->
  let s' := run P [Resize w h; AnimationFrame] s in
  exists R,
    renderBody P children s' = Done R
    /\ naturalHeight R
       = (if (h === int 0)%js && (0 <? Z.of_nat (numRows P))
          then Some (height (totalSize P)) else None)
    /\ naturalWidth R
       = (if (w === int 0)%js && (0 <? Z.of_nat (numCols P))
          then Some (width (totalSize P)) else None).
Proof.
  intros Hbatch Hel s'.
  set (s0 := set_windowSizeRef {| width := w; height := h |} s).
  assert (Haccepted : fst (setOffset P true true true (offsetRef s0) true s0) = true)
    by reflexivity.
  assert (Es' : s' = animationFrame P (snd (setOffset P true true true (offsetRef s0) true s0))).
  { subst s' s0. cbn [run fold_left step]. unfold reflow.
    cbn [observerRefs set_windowSizeRef]. rewrite Hel. reflexivity. }
  destruct (frame_outcome P true true true true (offsetRef s0) s0 Haccepted)
    as (Hw & Hsr & _).
  rewrite <- Es' in Hw, Hsr.
  assert (Hsize : windowSizeRef s' = {| width := w; height := h |}).
  { rewrite Es', animationFrame_windowSize.
    now rewrite (setOffset_accepted P _ _ _ _ _ _ Haccepted). }
  pose proof (resolveWindow_rows_clamped P (windowSizeRef s0) (renderWindowRef s0)
                (offsetRef s0)) as Hclamped.
  assert (Hwithin : forall r,
             fromRow (renderWindowRef s') <= r < toRow (renderWindowRef s')
             \/ In r (stuckRowsRef s') -> 0 <= r < Z.of_nat (numRows P)).
  { rewrite Hw, Hsr. intros r [Hr|Hr]; [lia | now apply stuckRowsAt_rows in Hr]. }
  destruct (renderBody_done P children s' Hwithin) as (R & HR & _).
  exists R. split; [exact HR|].
  destruct (renderBody_natural P children s' R HR) as [Hheight Hwidth].
  rewrite Hheight, Hwidth, Hsize, Hw. cbn [width height]. unfold px.
  rewrite resolveWindow_axes. cbv zeta. cbn [toRow toCol]. unfold visibleTo. cbn [row col].
  rewrite length_rowOffsets, length_colOffsets.
  change (windowSizeRef s0) with {| width := w; height := h |}. cbn [width height].
  split.
  - destruct (h === int 0)%js eqn:Hzero; [|reflexivity].
    rewrite (visibleToAxis_zero_size _ _ _ _ Hzero), expandAxis_full by exact Hbatch.
    reflexivity.
  - destruct (w === int 0)%js eqn:Hzero; [|reflexivity].
    rewrite (visibleToAxis_zero_size _ _ _ _ Hzero), expandAxis_full by exact Hbatch.
    reflexivity.
Qed.

Lemma natural_size_after_resize_witness :
  exists R,
    renderBody Scenario.tallGrid (fun _ _ _ => true)
      (run Scenario.tallGrid [Resize (int 80) (int 0); AnimationFrame]
         (initialState Scenario.tallGrid Scenario.attached))
    = Done R
    /\ naturalHeight R = Some (height (totalSize Scenario.tallGrid)).
Proof.
  destruct (natural_size_after_resize Scenario.tallGrid (fun _ _ _ => true)
              (int 80) (int 0) (initialState Scenario.tallGrid Scenario.attached)
              ltac:(discriminate) eq_refl) as (R & HR & Hheight & _).
  exists R. split; [exact HR | exact Hheight].
Defined.

(** ** The stuck rows are the first sticky rows *)

(** A filter whose test, once it fails, fails at every later position
    keeps a prefix. *)
Lemma filterIndexedFrom_nothing {A : Type} (p : A -> Z -> bool) (arr : list A) (i : Z)
    (x : A) :
  p x i = false ->
  (forall (k : nat) (a b : A),
      nth_error (x :: arr) k = Some a -> nth_error (x :: arr) (S k) = Some b ->
      p b (i + Z.of_nat k + 1) = true -> p a (i + Z.of_nat k) = true) ->
  filterIndexedFrom p arr (i + 1) = [].
Proof.
  revert i x. induction arr as [|y arr IH]; intros i x Hx Hstep; [reflexivity|].
  cbn [filterIndexedFrom].
  assert (Hy : p y (i + 1) = false).
  { destruct (p y (i + 1)) eqn:E; [|reflexivity].
    pose proof (Hstep 0%nat x y eq_refl eq_refl) as H0. cbn [Z.of_nat] in H0.
    rewrite Z.add_0_r in H0. rewrite (H0 E) in Hx. discriminate. }
  rewrite Hy. apply (IH (i + 1) y Hy).
  intros k a b Ha Hb Hp.
  pose proof (Hstep (S k) a b Ha Hb) as Hk.
  replace (i + Z.of_nat (S k)) with (i + 1 + Z.of_nat k) in Hk by lia. now apply Hk.
Qed.

Lemma filterIndexedFrom_prefix {A : Type} (p : A -> Z -> bool) (arr : list A) (i : Z) :
  (forall (k : nat) (a b : A),
      nth_error arr k = Some a -> nth_error arr (S k) = Some b ->
      p b (i + Z.of_nat k + 1) = true -> p a (i + Z.of_nat k) = true) ->
  exists n : nat, filterIndexedFrom p arr i = firstn n arr.
Proof.
  revert i. induction arr as [|x arr IH]; intros i Hstep.
  - now exists 0%nat.
  - cbn [filterIndexedFrom]. destruct (p x i) eqn:Ex.
    + destruct (IH (i + 1)) as (n & En).
      { intros k a b Ha Hb Hp. pose proof (Hstep (S k) a b Ha Hb) as Hk.
        replace (i + Z.of_nat (S k)) with (i + 1 + Z.of_nat k) in Hk by lia.
        now apply Hk. }
      exists (S n). now rewrite En.
    + exists 0%nat. now apply (filterIndexedFrom_nothing p arr i x).
Qed.

Lemma sorted_consecutive (l : list Z) (k : nat) (a b : Z) :
  Sorted Z.le l -> NoDup l ->
  nth_error l k = Some a -> nth_error l (S k) = Some b -> a < b.
Proof.
  intros Hsorted Hnodup Ha Hb.
  assert (a <= b).
  { clear Hnodup. revert k Ha Hb. induction Hsorted as [|x l Hl IH Hhd]; intros k Ha Hb.
    - destruct k; discriminate.
    - destruct k as [|k].
      + cbn in Ha, Hb. injection Ha as <-. destruct l as [|y l]; [discriminate|].
        cbn in Hb. injection Hb as <-. now inversion Hhd.
      + exact (IH k Ha Hb). }
  assert (a <> b).
  { intros <-. rewrite NoDup_nth_error in Hnodup.
    assert (k = S k); [|lia].
    apply Hnodup; [|congruence].
    apply nth_error_Some. congruence. }
  lia.
Qed.

Section StuckPrefix.
Variable sizes : list num.
Hypothesis sizes_nonneg : nonNegativeSizes sizes.
Variable sticky : list Z.
Hypothesis sticky_sorted : Sorted Z.le sticky.
Hypothesis sticky_nodup : NoDup sticky.
Hypothesis sticky_in : forall r, In r sticky -> 0 <= r < Z.of_nat (length sizes).

Let offsets := calculateOffsets sizes.
Let stickySizes := map (fun r => sizes.[r]%js) sticky.
Let stickyOffsets := calculateOffsets stickySizes.

Lemma stickySizes_nonneg : nonNegativeSizes stickySizes.
Proof.
  unfold nonNegativeSizes, stickySizes. apply Forall_forall. intros v Hin.
  apply in_map_iff in Hin. destruct Hin as (r & <- & Hr). apply sticky_in in Hr.
  destruct (size_nonneg sizes sizes_nonneg (Z.to_nat r)) as (q & Eq & Hq); [lia|].
  rewrite Z2Nat.id in Eq by lia. now exists q.
Qed.

(** What the test of the filter compares with the scroll offset grows
    along the sticky rows: from one sticky row to the next it grows by
    the sizes of the rows between them. *)
Lemma stuck_gap_monotone (k : nat) (a b : Z) :
  nth_error sticky k = Some a -> nth_error sticky (S k) = Some b ->
  exists qa qb : Q,
    (offsets.[a] - stickyOffsets.[Z.of_nat k])%js = fin qa
    /\ (offsets.[b] - stickyOffsets.[Z.of_nat (S k)])%js = fin qb
    /\ (qa <= qb)%Q.
Proof.
  intros Ha Hb.
  pose proof (sorted_consecutive sticky k a b sticky_sorted sticky_nodup Ha Hb) as Hlt.
  pose proof (sticky_in a (nth_error_In _ _ Ha)) as Hina.
  pose proof (sticky_in b (nth_error_In _ _ Hb)) as Hinb.
  assert (Hk : (S k < length stickySizes)%nat).
  { unfold stickySizes. rewrite length_map. apply nth_error_Some. congruence. }
  destruct (offsets_finite sizes sizes_nonneg a) as (ca & Eca & _); [lia|].
  destruct (calculateOffsets_monotone sizes sizes_nonneg (a + 1) b)
    as (c1 & cb & E1 & Ecb & _ & Hle); [lia | lia |].
  destruct (size_nonneg sizes sizes_nonneg (Z.to_nat a)) as (ha & Eha & _); [lia|].
  pose proof (offsets_next sizes (Z.to_nat a) ltac:(lia)) as Hnext.
  rewrite Nat2Z.inj_succ, Z2Nat.id in Hnext by lia.
  rewrite Z2Nat.id in Eha by lia. unfold Z.succ in Hnext.
  rewrite E1, Eca, Eha in Hnext. injection Hnext as Hc1.
  destruct (offsets_finite stickySizes stickySizes_nonneg (Z.of_nat k)) as (sk & Esk & _);
    [lia|].
  pose proof (offsets_next stickySizes k Hk) as Hsticky.
  assert (Esize : (stickySizes.[Z.of_nat k])%js = fin ha).
  { rewrite get_of_nat. unfold stickySizes. rewrite nth_error_map, Ha. exact Eha. }
  rewrite Esk, Esize in Hsticky.
  fold offsets in Eca, Ecb. fold stickyOffsets in Esk, Hsticky.
  rewrite Eca, Ecb, Esk, Hsticky.
  exists (ca - sk)%Q, (cb - (sk + ha))%Q.
  split; [reflexivity|]. split; [reflexivity|]. subst c1. lra.
Qed.

Lemma stuck_axis_prefix (o : num) :
  exists n : nat,
    filterIndexed (fun r i => (offsets.[r] - stickyOffsets.[i] <? o)%js) sticky
    = firstn n sticky.
Proof.
  unfold filterIndexed. apply filterIndexedFrom_prefix.
  intros k a b Ha Hb Hp.
  destruct (stuck_gap_monotone k a b Ha Hb) as (qa & qb & Ea & Eb & Hle).
  replace (0 + Z.of_nat k + 1) with (Z.of_nat (S k)) in Hp by lia.
  rewrite Z.add_0_l. rewrite Eb in Hp. rewrite Ea.
  destruct o as [oq|]; [|discriminate Hp].
  unfold lt, cmp, fin, Qlt_bool in *.
  apply negb_true_iff in Hp. apply negb_true_iff.
  destruct (Qle_bool oq qa) eqn:E; [|reflexivity].
  apply Qle_bool_iff in E.
  assert (Hb' : Qle_bool oq qb = true) by (apply Qle_bool_iff; lra).
  congruence.
Qed.

End StuckPrefix.

Lemma wholeSizes_nonNegative (sizes : list num) :
  wholeSizes sizes -> nonNegativeSizes sizes.
Proof.
  intros [Hwhole _]. unfold nonNegativeSizes. rewrite Forall_forall in *.
  intros v Hin. destruct (Hwhole v Hin) as (z & -> & Hz).
  exists (inject_Z z). split; [reflexivity|].
  rewrite <- (Zle_Qle 0). exact Hz.
Qed.

(** X25.  The stuck rows are the first sticky rows.  Over row heights in
    whole pixels with a total of at most [2 ^ 53] (where the sums of the
    component are exact), with sticky rows that are rows of the grid and
    listed once each: after an accepted [setOffset] and its frame the
    stuck rows are the first [n] of the sticky rows in ascending order,
    for some [n]; a sticky row is never stuck while one above it is
    not.  Alike for the columns.  With heights that are not whole
    numbers the sums of the component are rounded, and the difference the
    filter tests need not grow from one sticky row to the next: the
    property is not claimed there. *)
Theorem stuck_rows_are_first_sticky_rows {Cell : Type} (P : Props Cell)
    (cE rE kE force : bool) (offset : Point) (s : State) :
  fst (setOffset P cE rE kE offset force s) = true ->
  let s' := animationFrame P (snd (setOffset P cE rE kE offset force s)) in
  (wholeSizes (rowHeights P) -> NoDup (stickyRows P) ->
   (forall r, In r (stickyRows P) -> 0 <= r < Z.of_nat (numRows P)) ->
   exists n : nat, stuckRowsRef s' = firstn n (sortedStickyRows P))
  /\ (wholeSizes (colWidths P) -> NoDup (stickyCols P) ->
      (forall c, In c (stickyCols P) -> 0 <= c < Z.of_nat (numCols P)) ->
      exists n : nat, stuckColsRef s' = firstn n (sortedStickyCols P)).
Proof.
  intros Haccepted s'.
  destruct (frame_outcome P cE rE kE force offset s Haccepted) as (_ & Hsr & Hsc & _).
  fold s' in Hsr, Hsc. rewrite Hsr, Hsc.
  split; intros Hwhole Hnodup Hin; apply wholeSizes_nonNegative in Hwhole.
  - unfold stuckRowsAt, stickyRowOffsets, rowOffsets.
    apply (stuck_axis_prefix (rowHeights P) Hwhole (sortedStickyRows P)).
    + apply sortAscending_sorted.
    + apply (Permutation_NoDup (Permutation_sym (sortAscending_permutation _)) Hnodup).
    + intros r Hr. unfold rowHeights. rewrite length_calculateSizes. apply Hin.
      apply (Permutation_in _ (sortAscending_permutation _) Hr).
  - unfold stuckColsAt, stickyColOffsets, colOffsets.
    apply (stuck_axis_prefix (colWidths P) Hwhole (sortedStickyCols P)).
    + apply sortAscending_sorted.
    + apply (Permutation_NoDup (Permutation_sym (sortAscending_permutation _)) Hnodup).
    + intros c Hc. unfold colWidths. rewrite length_calculateSizes. apply Hin.
      apply (Permutation_in _ (sortAscending_permutation _) Hc).
Qed.

Lemma stuck_rows_are_first_sticky_rows_witness :
  exists n : nat,
    stuckRowsRef
      (animationFrame Scenario.stickyGrid
         (snd (setOffset Scenario.stickyGrid true true true (Scenario.point 0 81) false
                 (Scenario.mounted Scenario.stickyGrid 80 100))))
    = firstn n (sortedStickyRows Scenario.stickyGrid).
Proof.
  assert (Haccepted : fst (setOffset Scenario.stickyGrid true true true (Scenario.point 0 81)
                             false (Scenario.mounted Scenario.stickyGrid 80 100)) = true)
    by (vm_compute; reflexivity).
  destruct (stuck_rows_are_first_sticky_rows Scenario.stickyGrid true true true false
              (Scenario.point 0 81) (Scenario.mounted Scenario.stickyGrid 80 100) Haccepted)
    as [Hrows _].
  apply Hrows.
  - split.
    + apply Forall_forall. intros v Hin.
      apply (repeat_spec 10 (int 40) v) in Hin. subst v.
      exists 40. split; [reflexivity | lia].
    + exists 400%Q. split; [vm_compute; reflexivity | vm_compute; discriminate].
  - repeat constructor; cbn; intuition lia.
  - assert (Hn : numRows Scenario.stickyGrid = 10%nat) by (vm_compute; reflexivity).
    rewrite Hn. cbn. intros r [<-|[<-|[]]]; lia.
Defined.

(** ** Resizes after the first render *)

Section ObserverRefs.
Context {Cell : Type} (P : Props Cell).

Lemma scroll_keeps_observerRefs (deltaX deltaY : num) (s : State) :
  observerRefs (scroll P deltaX deltaY s) = observerRefs s.
Proof.
  unfold scroll, setOffset.
  repeat match goal with
         | |- context [if ?c then _ else _] => destruct c
         end; reflexivity.
Qed.

Lemma animationFrame_observerRefs (s : State) :
  (observerRefs (animationFrame P s) = observerRefs s
   /\ renderFlag (animationFrame P s) = renderFlag s)
  \/ observerRefs (animationFrame P s) = detached.
Proof.
  unfold animationFrame. destruct (rafPidRef s) as [f|]; [|now left]. cbv zeta.
  repeat match goal with
         | |- context [if ?c then _ else _] => destruct c
         end; first [left; split; reflexivity | right; reflexivity].
Qed.

(** No handler attaches the refs of the first render again. *)
Lemma step_keeps_detached (s : State) (e : Event) :
  observerRefs s = detached -> observerRefs (step P s e) = detached.
Proof.
  intros Hrefs. destruct e as [| w h | | dx dy | t cx cy | t cx cy | t | p]; cbn [step].
  - reflexivity.
  - unfold reflow. rewrite Hrefs. exact Hrefs.
  - destruct (animationFrame_observerRefs s) as [[E _]|E]; [now rewrite E | exact E].
  - unfold onWheel. now rewrite scroll_keeps_observerRefs.
  - unfold onTouchStart. destruct (pid (touchInfoRef s)); exact Hrefs.
  - unfold onTouchMove. cbv zeta. cbn [observerRefs set_touchInfoRef].
    now rewrite scroll_keeps_observerRefs.
  - exact Hrefs.
  - unfold intervalTick. destruct (lookupInterval p s) as [speed|]; [|exact Hrefs].
    cbv zeta. destruct (decayStops (decayedSpeed speed));
      cbn [observerRefs set_touchInfoRef set_intervals clearInterval];
      now rewrite scroll_keeps_observerRefs.
Qed.

Lemma run_keeps_detached (events : list Event) (s : State) :
  observerRefs s = detached -> observerRefs (run P events s) = detached.
Proof.
  revert s. induction events as [|e events IH]; intros s Hrefs; [exact Hrefs|].
  cbn [run fold_left]. apply IH. now apply step_keeps_detached.
Qed.

Lemma reflow_detached (w h : num) (s : State) :
  observerRefs s = detached -> reflow P w h s = s.
Proof. intros Hrefs. unfold reflow. now rewrite Hrefs. Qed.

End ObserverRefs.

(** X26.  Once the component has rendered again, no resize is handled.
    The [ResizeObserver] is set up once and calls the [reflow] of the
    first render, which reads the refs that render made with
    [createRef]; the next render attaches refs of its own and those of
    the first hold [null] from then on.  So after a render, whatever
    events follow, a resize leaves every ref as it is: the viewport size
    stays the one measured before.  The same holds after a frame that
    asked for a render (one that flipped the render flag). *)
Theorem resize_ignored_after_render {Cell : Type} (P : Props Cell)
    (s : State) (events : list Event) (w h : num) :
  (let s' := run P (Render :: events) s in step P s' (Resize w h) = s')
  /\ (renderFlag (animationFrame P s) <> renderFlag s ->
      let s' := run P (AnimationFrame :: events) s in step P s' (Resize w h) = s').
Proof.
  split.
  - cbv zeta. cbn [step]. apply reflow_detached.
    cbn [run fold_left step]. apply run_keeps_detached. reflexivity.
  - intros Hflag. cbv zeta. cbn [step]. apply reflow_detached.
    cbn [run fold_left step]. apply run_keeps_detached.
    destruct (animationFrame_observerRefs P s) as [[_ E]|E]; [contradiction | exact E].
Qed.

(** The grid of ten rows, measured at 80 by 100 on mount: its first
    frame asks for a render, and a later resize to 80 by 300 leaves the
    viewport size at 80 by 100. *)
Lemma resize_ignored_after_render_witness :
  let measured := step Scenario.tallGrid
                    (initialState Scenario.tallGrid Scenario.attached)
                    (Resize (int 80) (int 100)) in
  let s' := run Scenario.tallGrid [AnimationFrame] measured in
  windowSizeRef (step Scenario.tallGrid s' (Resize (int 80) (int 300)))
  = {| width := int 80; height := int 100 |}.
Proof.
  cbv zeta.
  assert (Hflag : renderFlag
                    (animationFrame Scenario.tallGrid
                       (step Scenario.tallGrid
                          (initialState Scenario.tallGrid Scenario.attached)
                          (Resize (int 80) (int 100))))
                  <> renderFlag
                       (step Scenario.tallGrid
                          (initialState Scenario.tallGrid Scenario.attached)
                          (Resize (int 80) (int 100))))
    by (vm_compute; discriminate).
  destruct (resize_ignored_after_render Scenario.tallGrid
              (step Scenario.tallGrid (initialState Scenario.tallGrid Scenario.attached)
                 (Resize (int 80) (int 100)))
              [] (int 80) (int 300)) as [_ Hignored].
  specialize (Hignored Hflag). cbv zeta in Hignored.
  rewrite Hignored. vm_compute. reflexivity.
Defined.
